(** * CIS: date/duration parsing and longitude re-wrapping

    A shallow embedding of [cis/parse_datetime.py] and of
    [GriddedData.set_longitude_range] from [cis/data_io/gridded_data.py],
    followed by the properties established about them.

    Conventions of the embedding:
    - a Python [str] is a list of ASCII characters (non-ASCII text is outside
      the model);
    - a function that can raise returns a [result]: [Ok v] or [Raise e];
    - a regular expression is a term of type [regex], matched by a
      backtracking matcher with the priorities of [re];
    - the floats of the duration conversion are exact rationals ([Q]), their
      binary rounding being outside the model; the longitudes are doubles,
      rationals whose sums are rounded to the nearest double;
    - an in-place mutation of the cube is a function from the cube before the
      call to the cube after it. *)

From Stdlib Require Import String Ascii List Bool Arith ZArith QArith Qround Lia Lqa.
From Stdlib Require Import Sorted.
Import ListNotations.

Abbreviation str := (list ascii).
Coercion list_ascii_of_string : string >-> list.

Open Scope string_scope.
Open Scope list_scope.

(* ===================================================================== *)
(** * Python primitives used by the two modules *)
(* ===================================================================== *)

Module Py.

(** Exceptions that the modelled code can raise. *)
Inductive exn : Type :=
| ValueError
| NameError (name : string)
| TypeError
| IndexError
| OtherError (what : string)
| ArgumentTypeError (msg : str).

Inductive result (A : Type) : Type :=
| Ok (a : A)
| Raise (e : exn).

Arguments Ok {A} a.
Arguments Raise {A} e.

Definition bind {A B : Type} (r : result A) (k : A -> result B) : result B :=
  match r with
  | Ok a => k a
  | Raise e => Raise e
  end.

(** [try: body / except ValueError: handler]: only [ValueError] is caught. *)
Definition try_except_ValueError {A : Type} (body handler : result A) : result A :=
  match body with
  | Raise ValueError => handler
  | other => other
  end.

(** A list comprehension [[f(x) for x in xs]] whose body may raise. *)
Fixpoint comprehension {A B : Type} (f : A -> result B) (xs : list A) : result (list B) :=
  match xs with
  | [] => Ok []
  | x :: xs' =>
      bind (f x) (fun y => bind (comprehension f xs') (fun ys => Ok (y :: ys)))
  end.

(** ** Characters *)

Definition is_digit (c : ascii) : bool :=
  let n := nat_of_ascii c in (48 <=? n)%nat && (n <=? 57)%nat.

Definition is_upper (c : ascii) : bool :=
  let n := nat_of_ascii c in (65 <=? n)%nat && (n <=? 90)%nat.

Definition is_lower (c : ascii) : bool :=
  let n := nat_of_ascii c in (97 <=? n)%nat && (n <=? 122)%nat.

(** The white space that [int] skips around an ASCII literal: tab, line feed,
    vertical tab, form feed, carriage return and space. *)
Definition is_space (c : ascii) : bool :=
  let n := nat_of_ascii c in
  ((9 <=? n)%nat && (n <=? 13)%nat) || (n =? 32)%nat.

Definition digit_val (c : ascii) : Z := Z.of_nat (nat_of_ascii c - 48).

Definition newline : ascii := ascii_of_nat 10.

Definition upper_char (c : ascii) : ascii :=
  if is_lower c then ascii_of_nat (nat_of_ascii c - 32) else c.

(** [s.upper()] *)
Definition upper (s : str) : str := map upper_char s.

(** ** Slicing helpers *)

Fixpoint take_while (p : ascii -> bool) (s : str) : str :=
  match s with
  | [] => []
  | c :: s' => if p c then c :: take_while p s' else []
  end.

Fixpoint drop_while (p : ascii -> bool) (s : str) : str :=
  match s with
  | [] => []
  | c :: s' => if p c then drop_while p s' else s
  end.

(** [tok[:-1]] *)
Definition all_but_last (s : str) : str := removelast s.

(** [tok[-1:]] *)
Definition last_char (s : str) : str :=
  match s with
  | [] => []
  | _ => [last s "000"%char]
  end.

Definition str_eqb (a b : str) : bool :=
  if list_eq_dec ascii_dec a b then true else false.

(** [s.split(sep)] for a one-character separator: never an empty list. *)
Fixpoint split (sep : ascii) (s : str) : list str :=
  match s with
  | [] => [[]]
  | c :: s' =>
      if Ascii.eqb c sep then [] :: split sep s'
      else match split sep s' with
           | [] => [[c]]
           | w :: ws => (c :: w) :: ws
           end
  end.

(** ** Regular expressions ([re])

    The constructs that the module's three patterns use.  [Class p] is one
    character of a class ([[T :]], [[^T :]], [[0-9]], [.]); [Many] and [Many1]
    are [*] and [+] on a class; [Maybe] is [?]; [Group] is [(?P<name>...)];
    [Eos] is [$].  A group without a name, [(?:...)], is its content. *)
Inductive regex : Type :=
| Class (p : ascii -> bool)
| Cat (r1 r2 : regex)
| Maybe (r : regex)
| Many (p : ascii -> bool)
| Many1 (p : ascii -> bool)
| Group (name : string) (r : regex)
| Eos.

(** The groups that took part in a match, the latest first. *)
Abbreviation captures := (list (string * str)).

(** Greedy repetition: as many characters as the class allows, then fewer
    one by one as long as the rest of the pattern, [k], fails. *)
Fixpoint many {R : Type} (p : ascii -> bool) (s : str) (caps : captures)
         (k : str -> captures -> option R) : option R :=
  match s with
  | c :: s' =>
      if p c then
        match many p s' caps k with
        | Some r => Some r
        | None => k s caps
        end
      else k s caps
  | [] => k [] caps
  end.

(** The backtracking matcher: [run r s caps k] matches [r] at the start of
    [s] and hands what is left of [s] to [k], the rest of the pattern; the
    first alternative that lets [k] succeed is the match.  [$] holds at the
    end of the string and before a line feed that ends it. *)
Fixpoint run {R : Type} (r : regex) (s : str) (caps : captures)
         (k : str -> captures -> option R) {struct r} : option R :=
  match r with
  | Class p =>
      match s with
      | c :: s' => if p c then k s' caps else None
      | [] => None
      end
  | Cat r1 r2 => run r1 s caps (fun s' caps' => run r2 s' caps' k)
  | Maybe r1 =>
      match run r1 s caps k with
      | Some x => Some x
      | None => k s caps
      end
  | Many p => many p s caps k
  | Many1 p =>
      match s with
      | c :: s' => if p c then many p s' caps k else None
      | [] => None
      end
  | Group name r1 =>
      run r1 s caps
          (fun s' caps' => k s' ((name, firstn (length s - length s') s) :: caps'))
  | Eos =>
      match s with
      | [] => k s caps
      | [c] => if Ascii.eqb c newline then k s caps else None
      | _ => None
      end
  end.

(** [re.match(pattern, s)]: anchored at the start, free at the end. *)
Definition re_match (pattern : regex) (s : str) : option captures :=
  run pattern s [] (fun _ caps => Some caps).

(** [m.group(name)]: [None] for a group that took no part. *)
Definition group (m : captures) (name : string) : option str :=
  match find (fun b => String.eqb (fst b) name) m with
  | Some (_, text) => Some text
  | None => None
  end.

(** [m.group(name) if m.group(name) is not None else ''] *)
Definition group_or_empty (m : captures) (name : string) : str :=
  match group m name with
  | Some text => text
  | None => []
  end.

(** [re.findall(pattern, s)] for a pattern without groups: the matches from
    left to right, none overlapping another; after an empty match, and where
    there is none, the search moves on by one character.  [fuel] bounds the
    number of steps, and the length of [s] plus one is enough. *)
Fixpoint findall_fuel (fuel : nat) (pattern : regex) (s : str) : list str :=
  match fuel with
  | O => []
  | S fuel' =>
      match run pattern s [] (fun s' _ => Some s'), s with
      | Some s', _ :: t =>
          let found := firstn (length s - length s') s in
          match found with
          | [] => found :: findall_fuel fuel' pattern t
          | _ => found :: findall_fuel fuel' pattern s'
          end
      | Some _, [] => [[]]
      | None, _ :: t => findall_fuel fuel' pattern t
      | None, [] => []
      end
  end.

Definition findall (pattern : regex) (s : str) : list str :=
  findall_fuel (S (length s)) pattern s.

(** ** [int(s)] on a string (Python 3, base 10)

    Surrounding white space is stripped, one sign is allowed, and the digits
    may be grouped by single underscores.  Anything else is [ValueError]. *)

Fixpoint int_digits (acc : Z) (after_digit : bool) (s : str) : option Z :=
  match s with
  | [] => if after_digit then Some acc else None
  | c :: s' =>
      if is_digit c then int_digits (10 * acc + digit_val c) true s'
      else if Ascii.eqb c "_"%char && after_digit then int_digits acc false s'
      else None
  end.

Definition strip (s : str) : str :=
  rev (drop_while is_space (rev (drop_while is_space s))).

Definition int_of_str (s : str) : option Z :=
  match strip s with
  | "-"%char :: ds => option_map Z.opp (int_digits 0 false ds)
  | "+"%char :: ds => int_digits 0 false ds
  | ds => int_digits 0 false ds
  end.

Definition int (s : str) : result Z :=
  match int_of_str s with
  | Some z => Ok z
  | None => Raise ValueError
  end.

(** The number written by a run of decimal digits. *)
Definition dec_value (ds : str) : Z :=
  fold_left (fun acc c => 10 * acc + digit_val c)%Z ds 0%Z.

End Py.

Export Py.

Declare Scope py_scope.
Notation "x <- e ;; k" := (bind e (fun x => k))
  (at level 61, e at next level, right associativity) : py_scope.
Open Scope py_scope.

(* ===================================================================== *)
(** * cis/parse_datetime.py *)
(* ===================================================================== *)

Module parse_datetime.

(** Modelled from the spec: [cis.time_util.PartialDateTime] is not part of the
    sources at hand.  The spec describes it as an ordered tuple of optional
    components (year, month, day, hour, minute, second), each a concrete
    integer or unspecified, filled positionally. *)
Record PartialDateTime : Type := mkPartialDateTime {
  pdt_year : option Z;
  pdt_month : option Z;
  pdt_day : option Z;
  pdt_hour : option Z;
  pdt_minute : option Z;
  pdt_second : option Z
}.

(** The call [PartialDateTime] with the components as positional arguments. *)
Definition PartialDateTime_new (args : list Z) : result PartialDateTime :=
  if (6 <? length args)%nat then Raise TypeError
  else Ok {| pdt_year := nth_error args 0;
             pdt_month := nth_error args 1;
             pdt_day := nth_error args 2;
             pdt_hour := nth_error args 3;
             pdt_minute := nth_error args 4;
             pdt_second := nth_error args 5 |}.

(** ** The regular expressions

    The character classes of the module's three patterns.  [[^T :]] also
    matches a line feed, [.] does not. *)

Definition is_sep (c : ascii) : bool :=
  Ascii.eqb c "T"%char || Ascii.eqb c " "%char || Ascii.eqb c ":"%char.

Definition not_sep (c : ascii) : bool := negb (is_sep c).

Definition not_newline (c : ascii) : bool := negb (Ascii.eqb c newline).

(** [r'(?P<date>[^T :]+)(?:[T :])(?P<time>.+)$'] (line 35) *)
Definition date_time_pattern : regex :=
  Cat (Group "date" (Many1 not_sep))
      (Cat (Class is_sep)
           (Cat (Group "time" (Many1 not_newline)) Eos)).

(** [r'(?:[P])(?P<date>[^T :]+)?(?:[T :])?(?P<time>.+)?$'] (line 110) *)
Definition delta_pattern : regex :=
  Cat (Class (fun c => Ascii.eqb c "P"%char))
      (Cat (Maybe (Group "date" (Many1 not_sep)))
           (Cat (Maybe (Class is_sep))
                (Cat (Maybe (Group "time" (Many1 not_newline))) Eos))).

(** ['[0-9]*[A-Z]'] (lines 125-126) *)
Definition token_pattern : regex := Cat (Many is_digit) (Class is_upper).

(** ** What the patterns match, computed directly

    The three functions below give the outcome of the three patterns without
    any search; that they agree with the matcher on every string is proved
    further down ([re_match_date_time], [re_match_delta], [findall_token]). *)

(** The tail [(?P<time>.+)$]: a non-empty run without line feed that reaches
    the end of the string, or the line feed that ends it. *)
Definition dot_plus_to_end (s : str) : option str :=
  match take_while not_newline s, drop_while not_newline s with
  | [], _ => None
  | t, [] => Some t
  | t, [_] => Some t
  | _, _ => None
  end.

(** The groups [date] and [time] of [date_time_pattern], or [None].  The
    greedy [date] is the longest prefix free of separators; a shorter one is
    never followed by a separator. *)
Definition match_date_time (s : str) : option (str * str) :=
  match take_while not_sep s, drop_while not_sep s with
  | [], _ => None
  | _, [] => None
  | date, _ :: rest =>
      match dot_plus_to_end rest with
      | Some time => Some (date, time)
      | None => None
      end
  end.

(** The groups of [delta_pattern], an absent group read as [''] (lines
    115-123), or [None].  After the greedy [date] and the separator, the tail
    is empty, is the final line feed, or must be matched by [(?P<time>.+)$];
    giving back characters of [date] or the separator to [time] never reaches
    [$] when this fails. *)
Definition match_delta_tail (r : str) : option (str * str) :=
  let date := take_while not_sep r in
  match drop_while not_sep r with
  | [] => Some (date, [])
  | _ :: rest =>
      match rest with
      | [] => Some (date, [])
      | [c] => if Ascii.eqb c newline then Some (date, []) else Some (date, [c])
      | _ =>
          match dot_plus_to_end rest with
          | Some time => Some (date, time)
          | None => None
          end
      end
  end.

Definition match_delta (s : str) : option (str * str) :=
  match s with
  | c :: r => if Ascii.eqb c "P"%char then match_delta_tail r else None
  | [] => None
  end.

(** The matches of [token_pattern]: each capital letter with the digits
    directly in front of it. [digits] is the run read so far. *)
Fixpoint findall_from (digits : str) (s : str) : list str :=
  match s with
  | [] => []
  | c :: s' =>
      if is_digit c then findall_from (digits ++ [c]) s'
      else if is_upper c then (digits ++ [c]) :: findall_from [] s'
      else findall_from [] s'
  end.

Definition findall_tokens (s : str) : list str := findall_from [] s.

(** ** [_parse_partial_datetime] (lines 23-52) *)

Definition _parse_partial_datetime (dt_string : str) : result PartialDateTime :=
  let m := re_match date_time_pattern dt_string in
  split_result <-
    match m with
    | Some m =>
        match group m "date", group m "time" with
        | Some date_str, Some time =>
            time_components <- comprehension int (split ":" time) ;;
            Ok (date_str, time_components)
        | _, _ => Raise (OtherError "AttributeError")
        end
    | None => Ok (dt_string, [])
    end ;;
  let date_str := fst split_result in
  let time_components := snd split_result in
  date_components <- comprehension int (split "-" date_str) ;;
  if (3 <? length date_components)%nat || (3 <? length time_components)%nat
     || ((length date_components <? 3)%nat && (0 <? length time_components)%nat)
  then Raise ValueError
  else PartialDateTime_new (date_components ++ time_components).

(** The date and the time components of the split string, before [int]
    reads them. *)
Definition date_parts (dt_string : str) : list str :=
  split "-" (match re_match date_time_pattern dt_string with
             | Some m => group_or_empty m "date"
             | None => dt_string
             end).

Definition time_parts (dt_string : str) : list str :=
  match re_match date_time_pattern dt_string with
  | Some m => split ":" (group_or_empty m "time")
  | None => []
  end.

(** More than three date components, more than three time components, or a
    time component without a full date. *)
Definition count_rule_violated (dt_string : str) : Prop :=
  (3 < length (date_parts dt_string))%nat
  \/ (3 < length (time_parts dt_string))%nat
  \/ ((length (date_parts dt_string) < 3)%nat
      /\ (0 < length (time_parts dt_string))%nat).

(** The check of lines 46-47 on the lengths of the two component lists. *)
Definition count_check (nd nt : nat) : bool :=
  (3 <? nd)%nat || (3 <? nt)%nat || ((nd <? 3)%nat && (0 <? nt)%nat).

(** A component that [int] does not read. *)
Definition not_an_integer (token : str) : Prop := int_of_str token = None.

(** A non-empty run of decimal digits. *)
Definition is_number (token : str) : Prop :=
  token <> [] /\ forallb is_digit token = true.

(** ** [date_delta_creator] and [_parse_datetime_delta] (lines 95-159) *)

Record date_delta : Type := mk_date_delta {
  year : Z;
  month : Z;
  day : Z;
  hour : Z;
  minute : Z;
  second : Z
}.

(** The arguments are Python integers already, so each [int(...)] is the
    identity. *)
Definition date_delta_creator (year month day hour minute second : Z) : date_delta :=
  mk_date_delta year month day hour minute second.

(** One of the two [for token in ...] loops: [a], [b] and [c] are the three
    unit letters of the half, [x], [y] and [z] the three running values. *)
Fixpoint token_loop (a b c : str) (tokens : list str) (x y z : Z) : result (Z * Z * Z) :=
  match tokens with
  | [] => Ok (x, y, z)
  | token :: tokens' =>
      val <- int (all_but_last token) ;;
      if str_eqb (last_char token) a then token_loop a b c tokens' val y z
      else if str_eqb (last_char token) b then token_loop a b c tokens' x val z
      else if str_eqb (last_char token) c then token_loop a b c tokens' x y val
      else Raise ValueError
  end.

Definition _parse_datetime_delta (dt_string : str) : result date_delta :=
  let dt_string := upper dt_string in
  match re_match delta_pattern dt_string with
  | None => Raise ValueError
  | Some m =>
      let date_string := group_or_empty m "date" in
      let time_string := group_or_empty m "time" in
      let date_tokens := findall token_pattern date_string in
      let time_tokens := findall token_pattern time_string in
      ymd <- token_loop "Y" "M" "D" date_tokens 0 0 0 ;;
      hms <- token_loop "H" "M" "S" time_tokens 0 0 0 ;;
      let '(years, months, days) := ymd in
      let '(hours, minutes, seconds) := hms in
      Ok (date_delta_creator years months days hours minutes seconds)
  end.

(** The two halves of a duration string as the loops receive them: the
    tokens of the date group and those of the time group. *)
Definition date_tokens (dt_string : str) : list str :=
  match re_match delta_pattern (upper dt_string) with
  | Some m => findall token_pattern (group_or_empty m "date")
  | None => []
  end.

Definition time_tokens (dt_string : str) : list str :=
  match re_match delta_pattern (upper dt_string) with
  | Some m => findall token_pattern (group_or_empty m "time")
  | None => []
  end.

Definition date_units : list str := ["Y" : str; "M" : str; "D" : str].
Definition time_units : list str := ["H" : str; "M" : str; "S" : str].

Definition token_unit (token : str) : str := last_char token.
Definition token_value (token : str) : Z := dec_value (all_but_last token).

(** A token is a run of digits and one capital letter. *)
Definition token_shape (token : str) : Prop :=
  exists ds ch, token = ds ++ [ch] /\ forallb is_digit ds = true /\ is_upper ch = true.

(** A token that a loop rejects: no digits in front of the letter, or a letter
    that is not a unit of its half. *)
Definition malformed (units : list str) (token : str) : Prop :=
  all_but_last token = [] \/ ~ In (token_unit token) units.

Definition well_formed (units : list str) (token : str) : Prop :=
  is_number (all_but_last token) /\ In (token_unit token) units.

(** The value that the tokens of unit [u] leave in their field: that of the
    last one, or [init] when there is none. *)
Definition last_from (u : str) (tokens : list str) (init : Z) : Z :=
  fold_left
    (fun acc token => if str_eqb (token_unit token) u then token_value token else acc)
    tokens init.

(** The field of a [date_delta] that a unit letter of the date half, or of the
    time half, is stored in. *)
Definition date_field (u : str) (delta : date_delta) : Z :=
  if str_eqb u "Y" then year delta
  else if str_eqb u "M" then month delta
  else day delta.

Definition time_field (u : str) (delta : date_delta) : Z :=
  if str_eqb u "H" then hour delta
  else if str_eqb u "M" then minute delta
  else second delta.

Definition zero_delta : date_delta := mk_date_delta 0 0 0 0 0 0.

(** What follows the first separator of a duration string, once upper-cased
    and without its first character. *)
Definition after_separator (dt_string : str) : str :=
  tl (drop_while not_sep (tl (upper dt_string))).

(** A line feed that is not the last character. *)
Definition line_feed_inside (s : str) : Prop :=
  exists a b, s = a ++ newline :: b /\ b <> [].

(** ** [_datetime_delta_to_float_days] (lines 162-187) *)

(** [datetime.timedelta], kept as its exact number of microseconds.  The
    constructor rounds the sum of its arguments to the nearest microsecond,
    ties to even. *)
Record timedelta : Type := mk_timedelta { td_microseconds : Z }.

Definition round_half_even (q : Q) : Z :=
  let f := Qfloor q in
  match Qcompare (q - inject_Z f) (1 # 2) with
  | Lt => f
  | Gt => (f + 1)%Z
  | Eq => if Z.even f then f else (f + 1)%Z
  end.

Definition timedelta_new (days : Q) (hours minutes seconds : Z) : timedelta :=
  mk_timedelta
    (round_half_even
       ((days * 86400 + inject_Z (hours * 3600 + minutes * 60 + seconds)) * 1000000)).

Definition total_seconds (td : timedelta) : Q :=
  inject_Z (td_microseconds td) / 1000000.

Definition _datetime_delta_to_float_days (delta : date_delta) : Q :=
  let sec := 1 / (24 * 60 * 60) in
  let days := inject_Z (day delta) + inject_Z (month delta) * 365.2425 / 12
              + inject_Z (year delta) * 365.2425 in
  let td := timedelta_new days (hour delta) (minute delta) (second delta) in
  total_seconds td * sec.

(** The number of seconds in a delta: a month counts 365.2425/12 days and a
    year 365.2425 days, both a whole number of seconds. *)
Definition delta_seconds (delta : date_delta) : Z :=
  (day delta * 86400 + month delta * 2629746 + year delta * 31556952
   + hour delta * 3600 + minute delta * 60 + second delta)%Z.

Definition parse_datetimestr_delta_to_float_days (string : str) : result Q :=
  date_delta <- _parse_datetime_delta string ;;
  Ok (_datetime_delta_to_float_days date_delta).

(** ** The two command-line coercions (lines 190-236) *)

(** A name bound by this module's top level: its imports and its functions. *)
Definition module_globals : list string :=
  [ "namedtuple"; "datetime"; "re"; "cis_standard_time_unit"; "argparse";
    "parse_datetimestr_to_std_time"; "_parse_datetime";
    "_parse_partial_datetime"; "parse_partial_datetime"; "parse_datetime";
    "date_delta_creator"; "_parse_datetime_delta";
    "_datetime_delta_to_float_days"; "parse_datetimestr_delta_to_float_days";
    "parse_as_number_or_datetime"; "parse_as_number_or_partial_datetime" ].

Inductive pyobj : Type :=
| PStr (s : str)
| PNone
| PGlobal (name : string).

(** Reading a variable: the function's own frame first, then the module; a
    name bound in neither raises [NameError]. *)
Definition load_name (frame : list (string * pyobj)) (name : string) : result pyobj :=
  match find (fun b => String.eqb (fst b) name) frame with
  | Some (_, v) => Ok v
  | None =>
      if existsb (String.eqb name) module_globals then Ok (PGlobal name)
      else Raise (NameError name)
  end.

Section Coercions.

(** What lies outside the module: [float(s)], [dateutil.parser.parse],
    unpacking its result into [datetime(...)], and
    [cis_standard_time_unit.date2num]. *)
Variable float : Type.
Variable py_float : str -> result float.
Variable datetime : Type.
Variable du_parse : str -> result datetime.
Variable datetime_of_unpacked : datetime -> result datetime.
Variable date2num : datetime -> result float.

Inductive value : Type :=
| VNone
| VInt (z : Z)
| VFloat (x : float)
| VDatetime (d : datetime)
| VDelta (d : date_delta).

Definition _parse_datetime (s : str) : result datetime := du_parse s.

Definition invalid_value (string : str) : exn :=
  ArgumentTypeError ("'" ++ string ++ "' is not a valid value.").

Definition parse_as_number_or_datetime (string : str) : result value :=
  let frame := [("string", PStr string); ("datetime", PGlobal "datetime")] in
  in_string <- load_name frame "in_string" ;;
  let is_none :=
    match in_string with
    | PStr s => str_eqb s "None"
    | PNone => true
    | PGlobal _ => false
    end in
  if is_none then Ok VNone
  else
    try_except_ValueError
      (z <- int string ;; Ok (VInt z))
      (try_except_ValueError
         (x <- py_float string ;; Ok (VFloat x))
         (try_except_ValueError
            (parsed <- _parse_datetime string ;;
             d <- datetime_of_unpacked parsed ;;
             x <- date2num d ;;
             Ok (VFloat x))
            (Raise (invalid_value string)))).

Definition parse_as_number_or_partial_datetime (string : str) : result value :=
  try_except_ValueError
    (z <- int string ;; Ok (VInt z))
    (try_except_ValueError
       (x <- py_float string ;; Ok (VFloat x))
       (try_except_ValueError
          (d <- _parse_datetime string ;; Ok (VDatetime d))
          (try_except_ValueError
             (d <- _parse_datetime_delta string ;; Ok (VDelta d))
             (Raise (invalid_value string))))).

End Coercions.

(** ** [parse_partial_datetime] (lines 55-72) *)

Section Reporting.

(** The [parser] argument: only its [error] method is used.  What the method
    does with the message is the caller's business; it may return or raise. *)
Variable parser : Type.
Variable parser_error : str -> parser -> result parser.

(** The value returned ([None] for no date/time) and the parser after the
    call.  [dt_string] is [None] or a string. *)
Definition parse_partial_datetime (dt_string : option str) (name : str) (p : parser)
  : result (option PartialDateTime * parser) :=
  match dt_string with
  | None => Ok (None, p)
  | Some s =>
      if str_eqb s "None" then Ok (None, p)
      else
        match _parse_partial_datetime s with
        | Ok dt => Ok (Some dt, p)
        | Raise ValueError =>
            p' <- parser_error ("'" ++ s ++ "' is not a valid " ++ name) p ;;
            Ok (None, p')
        | Raise e => Raise e
        end
  end.

End Reporting.

(** ** Notions used to state further properties *)

(** No field is negative. *)
Definition delta_nonneg (d : date_delta) : Prop :=
  (0 <= year d /\ 0 <= month d /\ 0 <= day d
   /\ 0 <= hour d /\ 0 <= minute d /\ 0 <= second d)%Z.


End parse_datetime.

(* ===================================================================== *)
(** * cis/data_io/gridded_data.py: [GriddedData.set_longitude_range] *)
(* ===================================================================== *)

Module gridded_data.

Open Scope Q_scope.

(** ** NumPy arrays *)

(** An n-dimensional array as nested lists; a one-dimensional array of points
    is a plain list. *)
#[warnings="-register-all"]
Inductive ndarray : Type :=
| Scalar (x : Q)
| Array (items : list ndarray).

(** [np.roll(a, shift)] along the first axis: element [i] moves to position
    [(i + shift) mod n]. *)
Definition roll {A : Type} (a : list A) (shift : Z) : list A :=
  match length a with
  | O => a
  | n =>
      let k := Z.to_nat (shift mod Z.of_nat n) in
      skipn (n - k) a ++ firstn (n - k) a
  end.

(** [np.roll(a, shift, axis)].  The arrays of a cube have all the dimensions
    its coordinates name, so an axis is never asked of a scalar. *)
Fixpoint np_roll (a : ndarray) (shift : Z) (axis : nat) {struct axis} : ndarray :=
  match a with
  | Scalar x => Scalar x
  | Array items =>
      match axis with
      | O => Array (roll items shift)
      | S axis' => Array (map (fun b => np_roll b shift axis') items)
      end
  end.

Definition Qltb (x y : Q) : bool := negb (Qle_bool y x).

(** The bisection of [np.searchsorted(a, v)] (side ['left']). *)
Fixpoint bisect_left (fuel : nat) (a : list Q) (v : Q) (lo hi : nat) : nat :=
  match fuel with
  | O => lo
  | S fuel' =>
      if (lo <? hi)%nat then
        let mid := (lo + (hi - lo) / 2)%nat in
        if Qltb (nth mid a 0) v then bisect_left fuel' a v (S mid) hi
        else bisect_left fuel' a v lo mid
      else lo
  end.

Definition searchsorted (a : list Q) (v : Q) : nat :=
  bisect_left (length a) a v 0 (length a).

(** ** Double precision

    Longitudes are doubles.  A double is the rational number it stands for;
    an addition gives the double nearest to the exact sum, ties to even
    (overflow to infinity is left out: it needs a magnitude of 2^1024).
    Comparisons of doubles are exact. *)

Definition pow2 (e : Z) : Q :=
  if (0 <=? e)%Z then inject_Z (2 ^ e) else / inject_Z (2 ^ (- e)).

(** [floor (log2 |q|)] for [q] other than 0. *)
Definition ilog2 (q : Q) : Z :=
  let n := Z.abs (Qnum q) in
  let d := Zpos (Qden q) in
  let e := (Z.log2 n - Z.log2 d)%Z in
  if (if (0 <=? e)%Z then (d * 2 ^ e <=? n)%Z else (d <=? n * 2 ^ (- e))%Z)
  then e else (e - 1)%Z.

(** The double nearest to [q]: 53 significant bits, and no bit below
    2^-1074. *)
Definition round_double (q : Q) : Q :=
  if Qeq_bool q 0 then 0
  else
    let e := Z.max (ilog2 q - 52) (-1074) in
    Qred (inject_Z (parse_datetime.round_half_even (q / pow2 e)) * pow2 e).

(** [x + y] on doubles; [x - y] is [float_add x (- y)]. *)
Definition float_add (x y : Q) : Q := round_double (x + y).

(** The element type of an array of points or bounds, as far as the method
    depends on it: integer or double.  Single precision and other element
    types are left out. *)
Inductive dtype : Type :=
| int64
| float64.

(** [a[mask] = f(a[mask])] for a boolean mask over the first axis; a mask of
    another length is an [IndexError]. *)
Fixpoint masked_update {A : Type} (f : A -> A) (mask : list bool) (a : list A)
  : result (list A) :=
  match mask, a with
  | [], [] => Ok []
  | m :: mask', x :: a' =>
      rest <- masked_update f mask' a' ;;
      Ok ((if m then f x else x) :: rest)
  | _, _ => Raise IndexError
  end.

(** [a[mask] += delta] and [a[mask] -= delta] for a double [delta], [f]
    being the addition to one element: [a[mask]] is read first
    ([IndexError] for a mask of another length), and the sum, a double, is
    refused for an integer array ([TypeError], whatever the mask selects). *)
Definition iadd_where {A : Type} (dt : dtype) (f : A -> A) (mask : list bool) (a : list A)
  : result (list A) :=
  updated <- masked_update f mask a ;;
  match dt with
  | float64 => Ok updated
  | int64 => Raise TypeError
  end.

(** ** Coordinates and cubes *)

Record DimCoord : Type := mkDimCoord {
  standard_name : option string;
  points : list Q;
  bounds : option (list (Q * Q));
  points_dtype : dtype;
  bounds_dtype : dtype
}.

Record AuxCoord : Type := mkAuxCoord {
  aux_standard_name : option string;
  aux_points : ndarray
}.

(** The cube: its data, its dimension coordinates each with the data
    dimension it describes, in the order of [self.dim_coords] (by
    dimension), and its auxiliary coordinates each with the data dimensions it
    spans ([self.coord_dims(aux_coord)]).  A data dimension without a
    dimension coordinate is an anonymous one. *)
Record GriddedData : Type := mkGriddedData {
  data : ndarray;
  dim_coords_and_dims : list (DimCoord * nat);
  aux_coords_and_dims : list (AuxCoord * list nat)
}.

(** [self.dim_coords] *)
Definition dim_coords (self : GriddedData) : list DimCoord :=
  map fst (dim_coords_and_dims self).

Inductive coord_ref : Type :=
| DimRef (c : DimCoord)
| AuxRef (a : AuxCoord).

Definition name_eqb (a b : option string) : bool :=
  match a, b with
  | Some x, Some y => String.eqb x y
  | None, None => true
  | _, _ => false
  end.

(** [self.coords(standard_name=name)]: dimension coordinates first, then
    auxiliary ones. *)
Definition coords (self : GriddedData) (name : string) : list coord_ref :=
  map DimRef (filter (fun c => name_eqb (standard_name c) (Some name)) (dim_coords self))
  ++ map AuxRef
       (filter (fun a => name_eqb (aux_standard_name a) (Some name))
               (map fst (aux_coords_and_dims self))).

Fixpoint points_eqb (a b : list Q) : bool :=
  match a, b with
  | [], [] => true
  | x :: a', y :: b' => Qeq_bool x y && points_eqb a' b'
  | _, _ => false
  end.

Fixpoint bounds_eqb (a b : list (Q * Q)) : bool :=
  match a, b with
  | [], [] => true
  | (x1, x2) :: a', (y1, y2) :: b' =>
      Qeq_bool x1 y1 && Qeq_bool x2 y2 && bounds_eqb a' b'
  | _, _ => false
  end.

(** Coordinate equality [==]: same metadata, same points, same bounds. *)
Definition coord_eqb (c d : DimCoord) : bool :=
  name_eqb (standard_name c) (standard_name d)
  && points_eqb (points c) (points d)
  && match bounds c, bounds d with
     | Some b, Some b' => bounds_eqb b b'
     | None, None => true
     | _, _ => false
     end.

(** [tuple.index(x)]: the first position holding an element equal to [x]. *)
Fixpoint index_from {A : Type} (eqb : A -> A -> bool) (x : A) (l : list A) (i : nat)
  : result nat :=
  match l with
  | [] => Raise ValueError
  | y :: l' => if eqb y x then Ok i else index_from eqb x l' (S i)
  end.

Definition index {A : Type} (eqb : A -> A -> bool) (l : list A) (x : A) : result nat :=
  index_from eqb x l 0.

Fixpoint update_at {A : Type} (i : nat) (f : A -> A) (l : list A) : list A :=
  match l, i with
  | [], _ => []
  | x :: l', O => f x :: l'
  | x :: l', S i' => x :: update_at i' f l'
  end.

(** One row of the bounds, lower and upper, plus [d]. *)
Definition add_to_pair (d : Q) (b : Q * Q) : Q * Q :=
  (float_add (fst b) d, float_add (snd b) d).

(** The rotation decided by lines 205-235: the shift and the new points and
    bounds, the latter two [None] where the code leaves them so. *)
Record rotation : Type := mkRotation {
  shift : Z;
  new_lon_points : option (list Q);
  new_lon_bounds : option (list (Q * Q))
}.

Definition rotate_longitudes (lon_coord : DimCoord) (roll_bounds : bool) (range_start : Q)
  : result rotation :=
  let idx1 := searchsorted (points lon_coord) range_start in
  let idx2 := searchsorted (points lon_coord) (float_add range_start 360) in
  let n := length (points lon_coord) in
  let rotate (shift : Z) (mask_of : Q -> bool) (delta : Q) : result rotation :=
    let rolled := roll (points lon_coord) shift in
    let indices_to_shift_value_of := map mask_of rolled in
    new_points <- iadd_where (points_dtype lon_coord) (fun p => float_add p delta)
                    indices_to_shift_value_of rolled ;;
    new_bounds <-
      match bounds lon_coord with
      | Some b =>
          if roll_bounds then
            nb <- iadd_where (bounds_dtype lon_coord) (add_to_pair delta)
                    indices_to_shift_value_of (roll b shift) ;;
            Ok (Some nb)
          else Ok None
      | None => Ok None
      end ;;
    Ok (mkRotation shift (Some new_points) new_bounds) in
  if (0 <? idx1)%nat && (idx1 <? n)%nat then
    let lon_min := nth idx1 (points lon_coord) 0 in
    rotate (- Z.of_nat idx1)%Z (fun p => Qltb p lon_min) 360
  else if (0 <? idx2)%nat && (idx2 <? n)%nat then
    let lon_max := nth idx2 (points lon_coord) 0 in
    rotate (Z.of_nat n - Z.of_nat idx2)%Z (fun p => Qle_bool lon_max p) (- (360))
  else Ok (mkRotation 0 None None).

(** [(lon_coord.bounds is not None) and (lon_coord.bounds.size != 0)]
    (line 203) *)
Definition has_bounds (c : DimCoord) : bool :=
  match bounds c with
  | Some b => negb (length b =? 0)%nat
  | None => false
  end.

(** The coordinate [c] after the assignments of lines 251-253: the new
    points, and the new bounds when [roll_bounds]. *)
Definition with_rotation (r : rotation) (roll_bounds : bool) (c : DimCoord) : DimCoord :=
  mkDimCoord (standard_name c)
             (match new_lon_points r with Some p => p | None => points c end)
             (if roll_bounds then new_lon_bounds r else bounds c)
             (points_dtype c) (bounds_dtype c).

(** The loop over [self.aux_coords] (lines 237-246). *)
Definition roll_aux_coords (lon_idx : nat) (shift : Z) (aux : list (AuxCoord * list nat))
  : result (list (AuxCoord * list nat)) :=
  comprehension
    (fun cd : AuxCoord * list nat =>
       let (aux_coord, dims) := cd in
       if existsb (Nat.eqb lon_idx) dims then
         axis <- index Nat.eqb dims lon_idx ;;
         Ok (mkAuxCoord (aux_standard_name aux_coord)
                        (np_roll (aux_points aux_coord) shift axis), dims)
       else Ok cd)
    aux.

Section Setters.

(** The checks that the cube library makes when points, and then bounds, are
    assigned to a dimension coordinate (lines 251 and 253).  They belong to
    the library: the method is modelled for any. *)
Variable check_points : DimCoord -> list Q -> result unit.
Variable check_bounds : DimCoord -> option (list (Q * Q)) -> result unit.

(** [set_longitude_range(self, range_start)]: the cube after the call.

    When the first coordinate named longitude is an auxiliary one,
    [self.dim_coords.index(lon_coord)] compares it with coordinates none of
    which is named longitude (they would come first in [self.coords(...)]),
    finds none equal and raises [ValueError].

    [lon_idx] is the position of the longitude among the dimension
    coordinates; the method uses it as the number of a data dimension. *)
Definition set_longitude_range (range_start : Q) (self : GriddedData) : result GriddedData :=
  match coords self "longitude" with
  | [] => Ok self
  | AuxRef _ :: _ => Raise ValueError
  | DimRef lon_coord :: _ =>
      lon_idx <- index coord_eqb (dim_coords self) lon_coord ;;
      let roll_bounds := has_bounds lon_coord in
      r <- rotate_longitudes lon_coord roll_bounds range_start ;;
      if (shift r =? 0)%Z then Ok self
      else
        aux <- roll_aux_coords lon_idx (shift r) (aux_coords_and_dims self) ;;
        let new_data := np_roll (data self) (shift r) lon_idx in
        let target := nth lon_idx (dim_coords self) lon_coord in
        _ <- match new_lon_points r with
             | Some p => check_points target p
             | None => Ok tt
             end ;;
        _ <- (if roll_bounds
              then check_bounds (with_rotation r false target) (new_lon_bounds r)
              else Ok tt) ;;
        Ok (mkGriddedData new_data
              (update_at lon_idx
                         (fun cd => (with_rotation r roll_bounds (fst cd), snd cd))
                         (dim_coords_and_dims self))
              aux)
  end.

End Setters.

(** ** Notions used to state the properties *)

(** The window asked for: [range_start <= p < range_start + 360], the upper
    edge being the double that [range_start + 360.] is. *)
Definition in_window (range_start p : Q) : Prop :=
  range_start <= p /\ p < float_add range_start 360.




(** Every dimension coordinate describes the data dimension of its own
    position: no anonymous dimension stands before or between them. *)
Definition dimensions_in_order (self : GriddedData) : Prop :=
  map snd (dim_coords_and_dims self) = seq 0 (length (dim_coords_and_dims self)).


(** ** [find_standard_coords] (lines 139-155) *)

(** The inner loop over [enumerate(coords)]: the first dimension coordinate
    whose standard name is [name], with its position. *)
Fixpoint first_named (name : string) (coords : list DimCoord) (idx : nat)
  : option (DimCoord * nat) :=
  match coords with
  | [] => None
  | coord :: rest =>
      if name_eqb (standard_name coord) (Some name) then Some (coord, idx)
      else first_named name rest (S idx)
  end.

(** [HyperPoint.standard_names] belongs to another module; the method is
    modelled for any list of names.  [self.coords(dim_coords=True)] is the
    list of the dimension coordinates. *)
Definition find_standard_coords (standard_names : list string) (self : GriddedData)
  : list (option (DimCoord * nat)) :=
  map (fun name => first_named name (dim_coords self) 0) standard_names.

(** ** [history] and [add_history] (lines 157-176) *)

(** [self.attributes]: a dictionary, as the list of its items in the order
    of insertion. *)
Definition attributes_dict : Type := list (string * str).

Fixpoint contains (d : attributes_dict) (key : string) : bool :=
  match d with
  | [] => false
  | (k, _) :: d' => String.eqb k key || contains d' key
  end.

Fixpoint getitem (d : attributes_dict) (key : string) : result str :=
  match d with
  | [] => Raise (OtherError "KeyError")
  | (k, v) :: d' => if String.eqb k key then Ok v else getitem d' key
  end.

Fixpoint setitem (d : attributes_dict) (key : string) (value : str) : attributes_dict :=
  match d with
  | [] => [(key, value)]
  | (k, v) :: d' =>
      if String.eqb k key then (k, value) :: d' else (k, v) :: setitem d' key value
  end.

Definition history (attributes : attributes_dict) : result str :=
  getitem attributes "history".

(** [timestamp] is the value of [strftime(..., gmtime())] at the call.
    [new_history] is [None] when the caller passes [None];
    [timestamp + None] is a [TypeError]. *)
Definition add_history (timestamp : str) (new_history : option str)
    (attributes : attributes_dict) : result attributes_dict :=
  if negb (contains attributes "history") then
    match new_history with
    | Some text => Ok (setitem attributes "history" (timestamp ++ text))
    | None => Raise TypeError
    end
  else
    old <- getitem attributes "history" ;;
    match new_history with
    | Some text =>
        Ok (setitem attributes "history" (old ++ newline :: timestamp ++ text))
    | None => Raise TypeError
    end.

(** A sequence of calls, each with the time stamp of its moment. *)
Fixpoint add_histories (entries : list (str * str)) (attributes : attributes_dict)
  : result attributes_dict :=
  match entries with
  | [] => Ok attributes
  | (timestamp, text) :: rest =>
      attributes' <- add_history timestamp (Some text) attributes ;;
      add_histories rest attributes'
  end.

(** ['\n'.join(lines)] *)
Fixpoint join_lines (lines : list str) : str :=
  match lines with
  | [] => []
  | [l] => l
  | l :: rest => l ++ newline :: join_lines rest
  end.

(** ** [add_attributes] and [remove_attribute] (lines 255-282) *)

(** [d.pop(key, None)], the value dropped: no item of that key is left. *)
Definition pop (d : attributes_dict) (key : string) : attributes_dict :=
  filter (fun item => negb (String.eqb (fst item) key)) d.

(** [l.remove(key)]: the first occurrence goes; [ValueError] when there is
    none. *)
Fixpoint list_remove (l : list string) (key : string) : result (list string) :=
  match l with
  | [] => Raise ValueError
  | k :: l' =>
      if String.eqb k key then Ok l'
      else l'' <- list_remove l' key ;; Ok (k :: l'')
  end.

Section Attributes.

(** What [setattr(self, key, value)] can change, and the keys that the
    attribute dictionary of a cube refuses with [ValueError]; both belong to
    the cube library. *)
Variable members : Type.
Variable setattr : string -> str -> members -> result members.
Variable forbidden : string -> bool.

(** The part of the cube that the two methods read and write.  The warning
    that is logged when an attribute cannot be set is not part of it. *)
Record cube_attributes : Type := mk_cube_attributes {
  attributes : attributes_dict;
  _local_attributes : list string;
  cube_members : members
}.

(** The loop of lines 261-268 over [attributes.items()]. *)
Fixpoint set_attributes (items : list (string * str)) (self : cube_attributes)
  : result cube_attributes :=
  match items with
  | [] => Ok self
  | (key, value) :: rest =>
      if forbidden key then
        match setattr key value (cube_members self) with
        | Ok m =>
            set_attributes rest
              (mk_cube_attributes (attributes self) (_local_attributes self) m)
        | Raise ValueError => set_attributes rest self
        | Raise e => Raise e
        end
      else
        set_attributes rest
          (mk_cube_attributes (setitem (attributes self) key value)
                              (_local_attributes self) (cube_members self))
  end.

Definition add_attributes (items : list (string * str)) (self : cube_attributes)
  : result cube_attributes :=
  self' <- set_attributes items self ;;
  Ok (mk_cube_attributes (attributes self')
                         (_local_attributes self' ++ map fst items)
                         (cube_members self')).

Definition remove_attribute (key : string) (self : cube_attributes)
  : result cube_attributes :=
  let attributes' := pop (attributes self) key in
  match list_remove (_local_attributes self) key with
  | Ok l => Ok (mk_cube_attributes attributes' l (cube_members self))
  | Raise ValueError =>
      Ok (mk_cube_attributes attributes' (_local_attributes self) (cube_members self))
  | Raise e => Raise e
  end.

End Attributes.


(** ** Notions used to state the properties of the rotation *)



(** ** A small cube

    Two latitudes by four longitudes, the longitudes of the spec's example,
    and one auxiliary coordinate along the longitude axis. *)

Definition example_lon : DimCoord :=
  mkDimCoord (Some "longitude"%string) [-170; -10; 10; 170] None float64 float64.

Definition example_lat : DimCoord :=
  mkDimCoord (Some "latitude"%string) [0; 10] (Some [(-5, 5); (5, 15)])
             float64 float64.

Definition example_cube : GriddedData :=
  mkGriddedData
    (Array [Array [Scalar 1; Scalar 2; Scalar 3; Scalar 4];
            Array [Scalar 5; Scalar 6; Scalar 7; Scalar 8]])
    [(example_lat, 0%nat); (example_lon, 1%nat)]
    [(mkAuxCoord (Some "grid_longitude"%string)
                 (Array [Scalar 0; Scalar 1; Scalar 2; Scalar 3]), [1%nat])].

(** The same cube without its longitude coordinate. *)
Definition example_cube_no_lon : GriddedData :=
  mkGriddedData (Array [Scalar 1; Scalar 2]) [(example_lat, 0%nat)] [].

(** The data of [example_cube] behind one more, anonymous, leading dimension:
    the latitude describes data dimension 1 and the longitude data
    dimension 2. *)
Definition example_cube_anonymous : GriddedData :=
  mkGriddedData
    (Array [Array [Array [Scalar 1; Scalar 2; Scalar 3; Scalar 4];
                   Array [Scalar 5; Scalar 6; Scalar 7; Scalar 8]]])
    [(example_lat, 1%nat); (example_lon, 2%nat)]
    [].

(** The longitudes of the example as integers. *)
Definition example_lon_int : DimCoord :=
  mkDimCoord (Some "longitude"%string) [-170; -10; 10; 170] None int64 int64.

(** The example cube with integer longitudes. *)
Definition example_cube_int : GriddedData :=
  mkGriddedData
    (Array [Array [Scalar 1; Scalar 2; Scalar 3; Scalar 4];
            Array [Scalar 5; Scalar 6; Scalar 7; Scalar 8]])
    [(example_lat, 0%nat); (example_lon_int, 1%nat)]
    [].

(** Checks that accept everything. *)
Definition accept_points (c : DimCoord) (new_points : list Q) : result unit := Ok tt.

Definition accept_bounds (c : DimCoord) (new_bounds : option (list (Q * Q)))
  : result unit := Ok tt.

End gridded_data.

(* ===================================================================== *)
(** * Facts about the Python primitives *)
(* ===================================================================== *)

Module PyFacts.

Ltac by_ascii_cases c :=
  destruct c as [[] [] [] [] [] [] [] []]; vm_compute; try reflexivity;
  try discriminate; try (intros; congruence); auto.

Lemma digit_not_space (c : ascii) : is_digit c = true -> is_space c = false.
Proof. by_ascii_cases c. Qed.

Lemma digit_not_minus (c : ascii) : is_digit c = true -> c <> "-"%char.
Proof. by_ascii_cases c. Qed.

Lemma digit_not_plus (c : ascii) : is_digit c = true -> c <> "+"%char.
Proof. by_ascii_cases c. Qed.

Lemma digit_not_upper (c : ascii) : is_digit c = true -> is_upper c = false.
Proof. by_ascii_cases c. Qed.

Lemma take_while_app (p : ascii -> bool) (a b : str) :
  forallb p a = true -> take_while p (a ++ b) = a ++ take_while p b.
Proof.
  induction a as [|c a IH]; simpl; intros H; [reflexivity|].
  apply andb_true_iff in H as [Hc Ha]. rewrite Hc, IH by assumption. reflexivity.
Qed.

Lemma drop_while_app (p : ascii -> bool) (a b : str) :
  forallb p a = true -> drop_while p (a ++ b) = drop_while p b.
Proof.
  induction a as [|c a IH]; simpl; intros H; [reflexivity|].
  apply andb_true_iff in H as [Hc Ha]. rewrite Hc. apply IH, Ha.
Qed.

Lemma take_drop_while (p : ascii -> bool) (s : str) :
  take_while p s ++ drop_while p s = s.
Proof.
  induction s as [|c s IH]; simpl; [reflexivity|].
  destruct (p c); simpl; [now rewrite IH | reflexivity].
Qed.

Lemma take_while_all (p : ascii -> bool) (s : str) : forallb p (take_while p s) = true.
Proof.
  induction s as [|c s IH]; simpl; [reflexivity|].
  destruct (p c) eqn:E; simpl; [now rewrite E | reflexivity].
Qed.

Lemma drop_while_head (p : ascii -> bool) (s : str) (c : ascii) (r : str) :
  drop_while p s = c :: r -> p c = false.
Proof.
  induction s as [|d s IH]; simpl; [discriminate|].
  destruct (p d) eqn:E; [exact IH|]. intros [= -> _]. exact E.
Qed.

Lemma drop_while_none (p : ascii -> bool) (s : str) :
  forallb (fun c => negb (p c)) s = true -> drop_while p s = s.
Proof.
  destruct s as [|c s]; simpl; [reflexivity|].
  intros H. apply andb_true_iff in H as [Hc _].
  apply negb_true_iff in Hc. now rewrite Hc.
Qed.

Lemma forallb_rev {A : Type} (p : A -> bool) (l : list A) :
  forallb p l = true -> forallb p (rev l) = true.
Proof.
  rewrite !forallb_forall. intros H x Hx. apply H. now apply in_rev.
Qed.

Lemma forallb_impl {A : Type} (p q : A -> bool) (l : list A) :
  (forall x, p x = true -> q x = true) -> forallb p l = true -> forallb q l = true.
Proof.
  intros Hpq. rewrite !forallb_forall. auto.
Qed.

(** A run of digits has no white space to strip. *)
Lemma strip_digits (ds : str) : forallb is_digit ds = true -> strip ds = ds.
Proof.
  intros H. unfold strip.
  assert (Hn : forall l, forallb is_digit l = true ->
                         forallb (fun c => negb (is_space c)) l = true).
  { intros l. apply forallb_impl. intros c Hc.
    now rewrite (digit_not_space c Hc). }
  rewrite (drop_while_none is_space ds) by auto.
  rewrite drop_while_none by (apply Hn, forallb_rev, H).
  apply rev_involutive.
Qed.

Lemma int_digits_run (ds : str) :
  forallb is_digit ds = true ->
  forall acc b, ds <> [] \/ b = true ->
  int_digits acc b ds = Some (fold_left (fun a c => 10 * a + digit_val c)%Z ds acc).
Proof.
  induction ds as [|c ds IH]; simpl; intros H acc b Hne.
  - destruct Hne as [Hne | ->]; [now elim Hne | reflexivity].
  - apply andb_true_iff in H as [Hc Hds]. rewrite Hc.
    apply IH; auto.
Qed.

Lemma int_of_str_unsigned (c : ascii) (s : str) :
  c <> "-"%char -> c <> "+"%char -> strip (c :: s) = c :: s ->
  int_of_str (c :: s) = int_digits 0 false (c :: s).
Proof.
  intros Hm Hp Hs. unfold int_of_str. rewrite Hs.
  destruct c as [[] [] [] [] [] [] [] []]; try reflexivity; congruence.
Qed.

(** [int] reads a non-empty run of digits as the number it writes. *)
Lemma int_digits_ok (ds : str) :
  ds <> [] -> forallb is_digit ds = true -> int ds = Ok (dec_value ds).
Proof.
  intros Hne H. unfold int.
  destruct ds as [|c ds]; [now elim Hne|].
  assert (Hc : is_digit c = true) by (simpl in H; now apply andb_true_iff in H).
  rewrite int_of_str_unsigned.
  - now rewrite (int_digits_run _ H 0%Z false) by (left; discriminate).
  - now apply digit_not_minus.
  - now apply digit_not_plus.
  - now apply strip_digits.
Qed.

Lemma int_empty : int [] = Raise ValueError.
Proof. reflexivity. Qed.

(** [int] raises nothing but [ValueError]. *)
Lemma int_raises_ValueError (s : str) (e : exn) : int s = Raise e -> e = ValueError.
Proof. unfold int. destruct (int_of_str s); [discriminate | now intros [= <-]]. Qed.

Lemma str_eqb_eq (a b : str) : str_eqb a b = true <-> a = b.
Proof.
  unfold str_eqb. destruct (list_eq_dec ascii_dec a b); split; auto; discriminate.
Qed.

Lemma str_eqb_refl (a : str) : str_eqb a a = true.
Proof. now apply str_eqb_eq. Qed.

Lemma all_but_last_snoc (ds : str) (c : ascii) : all_but_last (ds ++ [c]) = ds.
Proof. apply removelast_last. Qed.

Lemma last_char_snoc (ds : str) (c : ascii) : last_char (ds ++ [c]) = [c].
Proof.
  unfold last_char. rewrite last_last.
  destruct ds; reflexivity.
Qed.

(** ** [split] *)

Lemma split_nonempty (sep : ascii) (s : str) : split sep s <> [].
Proof.
  destruct s as [|c s]; simpl; [discriminate|].
  destruct (Ascii.eqb c sep); [discriminate|].
  destruct (split sep s); discriminate.
Qed.

Lemma split_no_sep (sep : ascii) (s : str) :
  forallb (fun c => negb (Ascii.eqb c sep)) s = true -> split sep s = [s].
Proof.
  induction s as [|c s IH]; simpl; intros H; [reflexivity|].
  apply andb_true_iff in H as [Hc Hs]. apply negb_true_iff in Hc.
  now rewrite Hc, IH.
Qed.

Lemma split_app (sep : ascii) (a b : str) :
  forallb (fun c => negb (Ascii.eqb c sep)) a = true ->
  split sep (a ++ sep :: b) = a :: split sep b.
Proof.
  induction a as [|c a IH]; simpl; intros H.
  - now rewrite Ascii.eqb_refl.
  - apply andb_true_iff in H as [Hc Ha]. apply negb_true_iff in Hc.
    now rewrite Hc, IH.
Qed.

(** ** [comprehension] *)

Lemma comprehension_int_ok (l : list str) :
  Forall (fun t => int_of_str t <> None) l ->
  exists vs, comprehension int l = Ok vs /\ length vs = length l.
Proof.
  induction 1 as [|t l Ht _ [vs [IH Hlen]]]; simpl.
  - now exists [].
  - unfold int at 1. destruct (int_of_str t) as [z|]; [|now elim Ht].
    simpl. rewrite IH. simpl. exists (z :: vs). now rewrite <- Hlen.
Qed.

Lemma comprehension_int_fail (l : list str) :
  Exists (fun t => int_of_str t = None) l ->
  comprehension int l = Raise ValueError.
Proof.
  induction l as [|t l IH]; intros H; [inversion H|]. simpl.
  unfold int at 1. destruct (int_of_str t) as [z|] eqn:E; [|reflexivity].
  simpl. rewrite IH; [reflexivity|].
  inversion H; subst; [congruence | assumption].
Qed.

Lemma comprehension_int_cases (l : list str) :
  (Forall (fun t => int_of_str t <> None) l /\
   exists vs, comprehension int l = Ok vs /\ length vs = length l)
  \/ (Exists (fun t => int_of_str t = None) l /\
      comprehension int l = Raise ValueError).
Proof.
  assert (H : Forall (fun t => int_of_str t <> None) l
              \/ Exists (fun t => int_of_str t = None) l).
  { induction l as [|t l [IH | IH]].
    - left. constructor.
    - destruct (int_of_str t) as [z|] eqn:E.
      + left. constructor; [congruence | exact IH].
      + right. now constructor.
    - right. now constructor 2. }
  destruct H as [H | H].
  - left. split; [exact H | now apply comprehension_int_ok].
  - right. split; [exact H | now apply comprehension_int_fail].
Qed.

(** ** The matcher *)

(** The greedy attempt comes first. *)
Lemma many_some {R : Type} (p : ascii -> bool) (k : str -> captures -> option R)
      (caps : captures) (r : R) (s : str) :
  k (drop_while p s) caps = Some r -> many p s caps k = Some r.
Proof.
  induction s as [|c s IH]; cbn [many drop_while]; [auto|].
  destruct (p c); [|auto]. intros H. now rewrite (IH H).
Qed.

(** When the rest of the pattern fails wherever the repetition can stop, the
    repetition fails. *)
Lemma many_none {R : Type} (p : ascii -> bool) (k : str -> captures -> option R)
      (caps : captures) (s : str) :
  (forall a t, s = a ++ t -> forallb p a = true -> k t caps = None) ->
  many p s caps k = None.
Proof.
  induction s as [|c s IH]; intros H; cbn [many].
  - apply (H [] []); reflexivity.
  - destruct (p c) eqn:E.
    + rewrite IH.
      * apply (H [] (c :: s)); reflexivity.
      * intros a t -> Ha. apply (H (c :: a) t); [reflexivity|].
        cbn. now rewrite E, Ha.
    + apply (H [] (c :: s)); reflexivity.
Qed.

(** When the rest of the pattern cannot start with a character of the class,
    only the greedy attempt counts. *)
Lemma many_greedy_only {R : Type} (p : ascii -> bool)
      (k : str -> captures -> option R) (caps : captures) (s : str) :
  (forall x t, p x = true -> k (x :: t) caps = None) ->
  many p s caps k = k (drop_while p s) caps.
Proof.
  intros H. induction s as [|c s IH]; cbn [many drop_while]; [reflexivity|].
  destruct (p c) eqn:E; [|reflexivity].
  rewrite IH. destruct (k (drop_while p s) caps); [reflexivity|].
  now apply H.
Qed.

Lemma firstn_consumed (s : str) (p : ascii -> bool) :
  firstn (length s - length (drop_while p s)) s = take_while p s.
Proof.
  rewrite <- (take_drop_while p s) at 1 3.
  rewrite length_app, Nat.add_sub.
  rewrite firstn_app, Nat.sub_diag, firstn_all. cbn. apply app_nil_r.
Qed.

(** What stands after a prefix within the class ends with what the greedy
    repetition leaves. *)
Lemma drop_while_suffix (p : ascii -> bool) (a t : str) :
  forallb p a = true -> exists b, t = b ++ drop_while p (a ++ t).
Proof.
  intros Ha. rewrite drop_while_app by assumption.
  exists (take_while p t). symmetry. apply take_drop_while.
Qed.


End PyFacts.

(* ===================================================================== *)
(** * Properties of [cis/parse_datetime.py] *)
(* ===================================================================== *)

Module parse_datetime_facts.

Import PyFacts parse_datetime.

(** ** Characters of a number *)

Lemma digit_not_sep (c : ascii) : is_digit c = true -> not_sep c = true.
Proof. by_ascii_cases c. Qed.

Lemma digit_not_newline (c : ascii) : is_digit c = true -> not_newline c = true.
Proof. by_ascii_cases c. Qed.

Lemma digit_not_dash (c : ascii) :
  is_digit c = true -> negb (Ascii.eqb c "-"%char) = true.
Proof. by_ascii_cases c. Qed.

Lemma digit_not_colon (c : ascii) :
  is_digit c = true -> negb (Ascii.eqb c ":"%char) = true.
Proof. by_ascii_cases c. Qed.

Lemma number_chars (p : ascii -> bool) (ds : str) :
  (forall c, is_digit c = true -> p c = true) ->
  is_number ds -> forallb p ds = true.
Proof. intros Hp [_ H]. revert H. now apply forallb_impl. Qed.

Lemma int_number (ds : str) : is_number ds -> int ds = Ok (dec_value ds).
Proof. intros [Hne H]. now apply int_digits_ok. Qed.

(** ** The date/time pattern *)

Lemma take_while_whole (p : ascii -> bool) (s : str) :
  forallb p s = true -> take_while p s = s /\ drop_while p s = [].
Proof.
  intros H. rewrite <- (app_nil_r s) at 1 3.
  rewrite take_while_app, drop_while_app by assumption.
  simpl. now rewrite app_nil_r.
Qed.

Lemma take_while_stop (p : ascii -> bool) (a : str) (c : ascii) (b : str) :
  forallb p a = true -> p c = false ->
  take_while p (a ++ c :: b) = a /\ drop_while p (a ++ c :: b) = c :: b.
Proof.
  intros Ha Hc. rewrite take_while_app, drop_while_app by assumption.
  cbn [take_while drop_while]. rewrite Hc. now rewrite app_nil_r.
Qed.

Lemma dot_plus_to_end_line (time : str) :
  time <> [] -> forallb not_newline time = true ->
  dot_plus_to_end time = Some time.
Proof.
  intros Hne H. unfold dot_plus_to_end.
  destruct (take_while_whole _ _ H) as [-> ->].
  destruct time; [now elim Hne | reflexivity].
Qed.

Lemma match_date_time_split (date time : str) (sep : ascii) :
  date <> [] -> forallb not_sep date = true -> is_sep sep = true ->
  time <> [] -> forallb not_newline time = true ->
  match_date_time (date ++ sep :: time) = Some (date, time).
Proof.
  intros Hd Hds Hsep Ht Hts. unfold match_date_time.
  destruct (take_while_stop not_sep date sep time Hds) as [-> ->].
  { unfold not_sep. now rewrite Hsep. }
  rewrite dot_plus_to_end_line by assumption.
  destruct date; [now elim Hd | reflexivity].
Qed.

Lemma match_date_time_no_sep (s : str) :
  forallb not_sep s = true -> match_date_time s = None.
Proof.
  intros H. unfold match_date_time.
  destruct (take_while_whole _ _ H) as [-> ->].
  now destruct s.
Qed.

(** The matched date is free of separators, so the whole string is read as
    the date only when the pattern fails. *)
Lemma match_date_time_date (s date time : str) :
  match_date_time s = Some (date, time) -> date = take_while not_sep s.
Proof.
  unfold match_date_time.
  destruct (take_while not_sep s) as [|c d]; [discriminate|].
  destruct (drop_while not_sep s) as [|x rest]; [discriminate|].
  destruct (dot_plus_to_end rest); [|discriminate].
  now intros [= <- _].
Qed.

(** ** The patterns and the matcher *)

Lemma is_sep_not_sep (c : ascii) : not_sep c = true -> is_sep c = false.
Proof. unfold not_sep. now rewrite negb_true_iff. Qed.

Lemma not_sep_false (c : ascii) : not_sep c = false -> is_sep c = true.
Proof. unfold not_sep. now rewrite negb_false_iff. Qed.

Lemma not_newline_false (ch : ascii) : not_newline ch = false -> ch = newline.
Proof.
  unfold not_newline. intros H. apply negb_false_iff in H.
  now apply Ascii.eqb_eq.
Qed.

Lemma not_newline_eqb (c : ascii) : not_newline c = true -> Ascii.eqb c newline = false.
Proof. unfold not_newline. now rewrite negb_true_iff. Qed.

(** The tail [(?P<time>.+)$] of both patterns, run by the matcher. *)
Lemma run_time_eos (name : string) (rest : str) (caps : captures) :
  run (Cat (Group name (Many1 not_newline)) Eos) rest caps (fun _ m => Some m)
  = match dot_plus_to_end rest with
    | Some time => Some ((name, time) :: caps)
    | None => None
    end.
Proof.
  cbn [run]. unfold dot_plus_to_end.
  destruct rest as [|c rest]; [reflexivity|].
  cbn [take_while drop_while].
  destruct (not_newline c) eqn:Ec; [|reflexivity].
  rewrite many_greedy_only.
  - pose proof (firstn_consumed (c :: rest) not_newline) as F.
    cbn [take_while drop_while] in F. rewrite Ec in F.
    destruct (drop_while not_newline rest) as [|x [|y r]] eqn:Ed.
    + now rewrite F.
    + pose proof (drop_while_head _ _ _ _ Ed) as Hx.
      apply not_newline_false in Hx as ->.
      rewrite Ascii.eqb_refl. now rewrite F.
    + reflexivity.
  - intros x t Hx. destruct t; [|reflexivity].
    now rewrite (not_newline_eqb x Hx).
Qed.

(** [re.match] with the date/time pattern gives the two groups that
    [match_date_time] computes. *)
Lemma re_match_date_time (s : str) :
  re_match date_time_pattern s
  = match match_date_time s with
    | Some (date, time) => Some [("time"%string, time); ("date"%string, date)]
    | None => None
    end.
Proof.
  unfold re_match, date_time_pattern, match_date_time.
  cbn [run]. destruct s as [|c s]; [reflexivity|].
  cbn [take_while drop_while].
  destruct (not_sep c) eqn:Ec; [|reflexivity].
  rewrite many_greedy_only.
  - pose proof (firstn_consumed (c :: s) not_sep) as F.
    cbn [take_while drop_while] in F. rewrite Ec in F.
    destruct (drop_while not_sep s) as [|x rest] eqn:Ed; [reflexivity|].
    pose proof (drop_while_head _ _ _ _ Ed) as Hx. apply not_sep_false in Hx.
    rewrite Hx, F.
    change (run (Cat (Group "time" (Many1 not_newline)) Eos) rest
                [("date"%string, c :: take_while not_sep s)] (fun _ m => Some m)
            = match
                match dot_plus_to_end rest with
                | Some time => Some (c :: take_while not_sep s, time)
                | None => None
                end
              with
              | Some (date, time) => Some [("time"%string, time); ("date"%string, date)]
              | None => None
              end).
    rewrite run_time_eos. now destruct (dot_plus_to_end rest).
  - intros x t Hx. now rewrite (is_sep_not_sep x Hx).
Qed.


(** ** [_parse_partial_datetime] *)

Lemma PartialDateTime_new_ok (args : list Z) :
  (length args <= 6)%nat -> exists p, PartialDateTime_new args = Ok p.
Proof.
  intros H. unfold PartialDateTime_new.
  destruct (Nat.ltb_spec 6 (length args)); [lia | eauto].
Qed.

Lemma count_check_spec (s : str) :
  count_check (length (date_parts s)) (length (time_parts s)) = true
  <-> count_rule_violated s.
Proof.
  unfold count_check, count_rule_violated.
  rewrite !orb_true_iff, andb_true_iff, !Nat.ltb_lt. tauto.
Qed.

(** The parser in terms of the two component lists. *)
Lemma _parse_partial_datetime_unfold (s : str) :
  _parse_partial_datetime s =
  (time_components <- comprehension int (time_parts s) ;;
   date_components <- comprehension int (date_parts s) ;;
   if count_check (length date_components) (length time_components)
   then Raise ValueError
   else PartialDateTime_new (date_components ++ time_components)).
Proof.
  unfold _parse_partial_datetime, time_parts, date_parts, count_check.
  rewrite re_match_date_time.
  destruct (match_date_time s) as [[date time]|]; [|reflexivity].
  change (group [("time"%string, time); ("date"%string, date)] "date") with (Some date).
  change (group [("time"%string, time); ("date"%string, date)] "time") with (Some time).
  change (group_or_empty [("time"%string, time); ("date"%string, date)] "date") with date.
  change (group_or_empty [("time"%string, time); ("date"%string, date)] "time") with time.
  cbv beta iota.
  destruct (comprehension int (split ":" time)); reflexivity.
Qed.

(** The components in terms of [match_date_time]. *)
Lemma parts_direct (s : str) :
  date_parts s = split "-" (match match_date_time s with
                            | Some (date, _) => date
                            | None => s
                            end)
  /\ time_parts s = match match_date_time s with
                    | Some (_, time) => split ":" time
                    | None => []
                    end.
Proof.
  unfold date_parts, time_parts. rewrite re_match_date_time.
  now destruct (match_date_time s) as [[date time]|].
Qed.

Lemma _parse_partial_datetime_cases (s : str) :
  (Exists not_an_integer (time_parts s ++ date_parts s)
   /\ _parse_partial_datetime s = Raise ValueError)
  \/ (Forall (fun t => ~ not_an_integer t) (time_parts s ++ date_parts s)
      /\ count_rule_violated s
      /\ _parse_partial_datetime s = Raise ValueError)
  \/ (Forall (fun t => ~ not_an_integer t) (time_parts s ++ date_parts s)
      /\ ~ count_rule_violated s
      /\ exists p, _parse_partial_datetime s = Ok p).
Proof.
  rewrite _parse_partial_datetime_unfold. unfold not_an_integer.
  destruct (comprehension_int_cases (time_parts s)) as [[Ft [tc [-> Lt]]] | [Et ->]].
  2:{ left. split; [|reflexivity]. apply Exists_app. now left. }
  destruct (comprehension_int_cases (date_parts s)) as [[Fd [dc [-> Ld]]] | [Ed ->]].
  2:{ left. split; [|reflexivity]. apply Exists_app. now right. }
  right. cbn [bind]. rewrite Ld, Lt.
  assert (Fall : Forall (fun t => int_of_str t <> None) (time_parts s ++ date_parts s))
    by (apply Forall_app; now split).
  destruct (count_check _ _) eqn:C.
  - left. repeat split; [exact Fall | now apply count_check_spec].
  - right. repeat split; [exact Fall | |].
    + intros V. apply count_check_spec in V. congruence.
    + apply PartialDateTime_new_ok. rewrite length_app, Ld, Lt.
      unfold count_check in C.
      rewrite !orb_false_iff, !Nat.ltb_ge in C. lia.
Qed.

(** C5 (as amended).  The partial-datetime parser raises [ValueError] exactly
    when some date or time component is not an integer literal, or there are
    more than three date components, or more than three time components, or a
    time component together with fewer than three date components.  It raises
    nothing else, and every string with a time component but fewer than three
    date components is rejected. *)
Theorem partial_datetime_fails_iff (s : str) :
  (_parse_partial_datetime s = Raise ValueError
   <-> Exists not_an_integer (time_parts s ++ date_parts s)
       \/ count_rule_violated s)
  /\ (forall e, _parse_partial_datetime s = Raise e -> e = ValueError)
  /\ ((0 < length (time_parts s))%nat /\ (length (date_parts s) < 3)%nat ->
      _parse_partial_datetime s = Raise ValueError).
Proof.
  destruct (_parse_partial_datetime_cases s)
    as [[E R] | [[F [V R]] | [F [V [p R]]]]]; rewrite R.
  - repeat split; auto. now intros e [= <-].
  - repeat split; auto. now intros e [= <-].
  - repeat split; try discriminate.
    + intros [E | V']; [|now elim V].
      apply Exists_exists in E as [t [Hin Ht]].
      rewrite Forall_forall in F. now elim (F t Hin).
    + intros [Ht Hd]. elim V. unfold count_rule_violated. tauto.
Qed.

Lemma partial_datetime_fails_iff_witness :
  (0 < length (time_parts "2010-01:12"))%nat
  /\ (length (date_parts "2010-01:12") < 3)%nat
  /\ _parse_partial_datetime "2010-01:12" = Raise ValueError.
Proof.
  assert (H : (0 < length (time_parts "2010-01:12"))%nat
              /\ (length (date_parts "2010-01:12") < 3)%nat)
    by (vm_compute; lia).
  split; [apply H|]. split; [apply H|].
  exact (proj2 (proj2 (partial_datetime_fails_iff "2010-01:12")) H).
Defined.

(** C5 (as stated) fails: ["2010-xx-01"] has three date components and no time
    component, and is rejected all the same. *)
Lemma partial_datetime_count_rule_not_exact :
  _parse_partial_datetime "2010-xx-01" = Raise ValueError
  /\ ~ count_rule_violated "2010-xx-01".
Proof.
  split; [reflexivity|].
  unfold count_rule_violated. vm_compute. lia.
Qed.


(** A string without separator is read as a date alone. *)
Lemma parse_date_only (date : str) (dc : list Z) :
  forallb not_sep date = true ->
  comprehension int (split "-" date) = Ok dc ->
  (length dc <= 3)%nat ->
  _parse_partial_datetime date = PartialDateTime_new dc.
Proof.
  intros Hd Hdc Hlen. rewrite _parse_partial_datetime_unfold.
  destruct (parts_direct date) as [-> ->].
  rewrite match_date_time_no_sep by assumption.
  cbn [comprehension bind]. rewrite Hdc. cbn [bind length].
  unfold count_check. rewrite app_nil_r.
  change (0 <? 0)%nat with false. change (3 <? 0)%nat with false.
  rewrite andb_false_r.
  destruct (Nat.ltb_spec 3 (length dc)); [lia | reflexivity].
Qed.

(** A full date, one separator and up to three time components. *)
Lemma parse_date_and_time (date time : str) (sep : ascii) (dc tc : list Z) :
  date <> [] -> forallb not_sep date = true -> is_sep sep = true ->
  time <> [] -> forallb not_newline time = true ->
  comprehension int (split "-" date) = Ok dc ->
  comprehension int (split ":" time) = Ok tc ->
  length dc = 3%nat -> (length tc <= 3)%nat ->
  _parse_partial_datetime (date ++ sep :: time) = PartialDateTime_new (dc ++ tc).
Proof.
  intros Hd Hds Hsep Ht Hts Hdc Htc Ld Lt.
  rewrite _parse_partial_datetime_unfold.
  destruct (parts_direct (date ++ sep :: time)) as [-> ->].
  rewrite (match_date_time_split date time sep) by assumption.
  rewrite Htc. cbn [bind]. rewrite Hdc. cbn [bind].
  unfold count_check. rewrite Ld.
  change (3 <? 3)%nat with false. cbn [orb andb]. rewrite orb_false_r.
  destruct (Nat.ltb_spec 3 (length tc)); [lia | reflexivity].
Qed.

Lemma forallb_snoc_sep (p : ascii -> bool) (a : str) (c : ascii) (b : str) :
  forallb p a = true -> p c = true -> forallb p b = true ->
  forallb p (a ++ c :: b) = true.
Proof.
  intros Ha Hc Hb. rewrite forallb_app. cbn [forallb]. now rewrite Ha, Hc, Hb.
Qed.

Ltac number_chars :=
  repeat (apply forallb_snoc_sep; [|reflexivity|]);
  first [ apply number_chars; [exact digit_not_sep | assumption]
        | apply number_chars; [exact digit_not_newline | assumption]
        | apply number_chars; [exact digit_not_dash | assumption]
        | apply number_chars; [exact digit_not_colon | assumption] ].

Ltac reassoc :=
  cbn [list_ascii_of_string app];
  repeat (rewrite <- app_assoc; cbn [app]); reflexivity.

(** The three components of ["Y-M-D"]. *)
Lemma date_components_ymd (Y M D : str) :
  is_number Y -> is_number M -> is_number D ->
  comprehension int (split "-" (Y ++ "-" ++ M ++ "-" ++ D))
  = Ok [dec_value Y; dec_value M; dec_value D].
Proof.
  intros HY HM HD. cbn [list_ascii_of_string app].
  rewrite split_app by number_chars. rewrite split_app by number_chars.
  rewrite split_no_sep by number_chars.
  cbn [comprehension]. rewrite !int_number by assumption. reflexivity.
Qed.

Lemma app_sep_nonempty (a : str) (c : ascii) (b : str) : a ++ c :: b <> [].
Proof. now destruct a. Qed.

(** C6.  For numbers [Y], [M], [D], [h], [mi] and [s] (non-empty runs of
    digits), the strings ["Y-M-D"], ["Y-M-D:h"], ["Y-M-D:h:mi"] and
    ["Y-M-DTh:mi:s"] are parsed to a [PartialDateTime] holding exactly the
    numbers supplied, in the order year, month, day, hour, minute, second; the
    components that were not supplied stay unspecified ([None]), they are not
    set to zero. *)
Theorem partial_datetime_components (Y M D h mi s : str) :
  is_number Y -> is_number M -> is_number D ->
  is_number h -> is_number mi -> is_number s ->
  _parse_partial_datetime (Y ++ "-" ++ M ++ "-" ++ D)
  = Ok (mkPartialDateTime (Some (dec_value Y)) (Some (dec_value M))
          (Some (dec_value D)) None None None)
  /\ _parse_partial_datetime (Y ++ "-" ++ M ++ "-" ++ D ++ ":" ++ h)
     = Ok (mkPartialDateTime (Some (dec_value Y)) (Some (dec_value M))
             (Some (dec_value D)) (Some (dec_value h)) None None)
  /\ _parse_partial_datetime (Y ++ "-" ++ M ++ "-" ++ D ++ ":" ++ h ++ ":" ++ mi)
     = Ok (mkPartialDateTime (Some (dec_value Y)) (Some (dec_value M))
             (Some (dec_value D)) (Some (dec_value h)) (Some (dec_value mi)) None)
  /\ _parse_partial_datetime
       (Y ++ "-" ++ M ++ "-" ++ D ++ "T" ++ h ++ ":" ++ mi ++ ":" ++ s)
     = Ok (mkPartialDateTime (Some (dec_value Y)) (Some (dec_value M))
             (Some (dec_value D)) (Some (dec_value h)) (Some (dec_value mi))
             (Some (dec_value s))).
Proof.
  intros HY HM HD Hh Hmi Hs.
  pose proof (date_components_ymd Y M D HY HM HD) as Hdate.
  assert (Hsep : forallb not_sep (Y ++ "-" ++ M ++ "-" ++ D) = true)
    by (cbn [list_ascii_of_string app]; number_chars).
  assert (Hne : Y ++ "-" ++ M ++ "-" ++ D <> [])
    by (cbn [list_ascii_of_string app]; apply app_sep_nonempty).
  repeat split.
  - now rewrite (parse_date_only _ _ Hsep Hdate).
  - replace (Y ++ "-" ++ M ++ "-" ++ D ++ ":" ++ h)
      with ((Y ++ "-" ++ M ++ "-" ++ D) ++ ":"%char :: h)
      by reassoc.
    rewrite (parse_date_and_time _ h _ [dec_value Y; dec_value M; dec_value D]
               [dec_value h] Hne Hsep); try reflexivity.
    + apply Hh.
    + number_chars.
    + exact Hdate.
    + rewrite split_no_sep by number_chars. cbn [comprehension].
      now rewrite int_number.
    + cbn; lia.
  - replace (Y ++ "-" ++ M ++ "-" ++ D ++ ":" ++ h ++ ":" ++ mi)
      with ((Y ++ "-" ++ M ++ "-" ++ D) ++ ":"%char :: (h ++ ":" ++ mi))
      by reassoc.
    rewrite (parse_date_and_time _ (h ++ ":" ++ mi) _
               [dec_value Y; dec_value M; dec_value D]
               [dec_value h; dec_value mi] Hne Hsep); try reflexivity.
    + cbn [list_ascii_of_string app]. apply app_sep_nonempty.
    + cbn [list_ascii_of_string app]. number_chars.
    + exact Hdate.
    + cbn [list_ascii_of_string app].
      rewrite split_app by number_chars. rewrite split_no_sep by number_chars.
      cbn [comprehension]. now rewrite !int_number.
    + cbn; lia.
  - replace (Y ++ "-" ++ M ++ "-" ++ D ++ "T" ++ h ++ ":" ++ mi ++ ":" ++ s)
      with ((Y ++ "-" ++ M ++ "-" ++ D) ++ "T"%char :: (h ++ ":" ++ mi ++ ":" ++ s))
      by reassoc.
    rewrite (parse_date_and_time _ (h ++ ":" ++ mi ++ ":" ++ s) _
               [dec_value Y; dec_value M; dec_value D]
               [dec_value h; dec_value mi; dec_value s] Hne Hsep); try reflexivity.
    + cbn [list_ascii_of_string app]. apply app_sep_nonempty.
    + cbn [list_ascii_of_string app]. number_chars.
    + exact Hdate.
    + cbn [list_ascii_of_string app].
      rewrite !split_app by number_chars. rewrite split_no_sep by number_chars.
      cbn [comprehension]. now rewrite !int_number.
Qed.

Lemma partial_datetime_components_witness :
  is_number "2010" /\ is_number "07" /\ is_number "28"
  /\ is_number "17" /\ is_number "05" /\ is_number "09"
  /\ _parse_partial_datetime "2010-07-28"
     = Ok (mkPartialDateTime (Some 2010%Z) (Some 7%Z) (Some 28%Z) None None None)
  /\ _parse_partial_datetime "2010-07-28:17"
     = Ok (mkPartialDateTime (Some 2010%Z) (Some 7%Z) (Some 28%Z)
             (Some 17%Z) None None)
  /\ _parse_partial_datetime "2010-07-28:17:05"
     = Ok (mkPartialDateTime (Some 2010%Z) (Some 7%Z) (Some 28%Z)
             (Some 17%Z) (Some 5%Z) None)
  /\ _parse_partial_datetime "2010-07-28T17:05:09"
     = Ok (mkPartialDateTime (Some 2010%Z) (Some 7%Z) (Some 28%Z)
             (Some 17%Z) (Some 5%Z) (Some 9%Z)).
Proof.
  assert (N : forall ds : str, ds <> [] -> forallb is_digit ds = true -> is_number ds)
    by (intros ds H1 H2; now split).
  assert (H1 : is_number "2010") by (apply N; [discriminate | reflexivity]).
  assert (H2 : is_number "07") by (apply N; [discriminate | reflexivity]).
  assert (H3 : is_number "28") by (apply N; [discriminate | reflexivity]).
  assert (H4 : is_number "17") by (apply N; [discriminate | reflexivity]).
  assert (H5 : is_number "05") by (apply N; [discriminate | reflexivity]).
  assert (H6 : is_number "09") by (apply N; [discriminate | reflexivity]).
  repeat (split; [assumption|]).
  exact (partial_datetime_components "2010" "07" "28" "17" "05" "09"
           H1 H2 H3 H4 H5 H6).
Defined.


(** ** When the pattern of the duration parser fails *)

Lemma first_line_feed (a b : str) :
  b <> [] ->
  exists r, drop_while not_newline (a ++ newline :: b) = newline :: r /\ r <> [].
Proof.
  intros Hb. induction a as [|ch a IH]; cbn [app drop_while].
  - exists b. now split.
  - destruct (not_newline ch) eqn:E; [exact IH|].
    apply not_newline_false in E as ->.
    exists (a ++ newline :: b). split; [reflexivity | apply app_sep_nonempty].
Qed.

Lemma dot_plus_to_end_none (rest : str) :
  (2 <= length rest)%nat ->
  (dot_plus_to_end rest = None <-> line_feed_inside rest).
Proof.
  intros Hlen. unfold dot_plus_to_end, line_feed_inside. split.
  - pose proof (take_drop_while not_newline rest) as Hsplit.
    destruct (take_while not_newline rest) as [|t ts] eqn:Et.
    + intros _. cbn [app] in Hsplit.
      destruct rest as [|ch rest]; [cbn in Hlen; lia|].
      pose proof (drop_while_head not_newline _ _ _ Hsplit) as Hc.
      apply not_newline_false in Hc as ->.
      exists [], rest. split; [reflexivity|].
      destruct rest; [cbn in Hlen; lia | discriminate].
    + destruct (drop_while not_newline rest) as [|ch [|x r]] eqn:Ed;
        try discriminate.
      intros _. pose proof (drop_while_head not_newline _ _ _ Ed) as Hc.
      apply not_newline_false in Hc as ->.
      exists (t :: ts), (x :: r). split; [now symmetry | discriminate].
  - intros [a [b [-> Hb]]].
    destruct (first_line_feed a b Hb) as [r [-> Hr]].
    destruct (take_while not_newline (a ++ newline :: b)); [reflexivity|].
    destruct r; [now elim Hr | reflexivity].
Qed.

(** The pattern fails only on a string that does not start with [P], or has a
    line feed after its first separator that is not its last character. *)
Lemma match_delta_tail_none_iff (r : str) :
  match_delta_tail r = None <-> line_feed_inside (tl (drop_while not_sep r)).
Proof.
  unfold match_delta_tail.
  destruct (drop_while not_sep r) as [|sep [|x [|y rest]]]; cbn [tl].
  - split; [discriminate|]. intros [a [b [E _]]]. now destruct a.
  - split; [discriminate|]. intros [a [b [E _]]]. now destruct a.
  - split.
    + destruct (Ascii.eqb x newline); discriminate.
    + intros [a [b [E Hb]]].
      destruct a as [|? [|? ?]]; destruct b; try discriminate; now elim Hb.
  - assert (L : (2 <= length (x :: y :: rest))%nat) by (cbn; lia).
    rewrite <- (dot_plus_to_end_none _ L).
    destruct (dot_plus_to_end (x :: y :: rest)); split; auto; discriminate.
Qed.

Lemma match_delta_none_iff (s : str) :
  match_delta (upper s) = None
  <-> hd_error (upper s) <> Some "P"%char \/ line_feed_inside (after_separator s).
Proof.
  unfold match_delta, after_separator.
  destruct (upper s) as [|p r].
  { split; [left; discriminate | reflexivity]. }
  cbn [tl hd_error].
  destruct (Ascii.eqb_spec p "P"%char) as [-> | Hp].
  - rewrite match_delta_tail_none_iff. split; [now right|].
    intros [H | H]; [now elim H | exact H].
  - split; [|reflexivity]. intros _. left. congruence.
Qed.

(** ** The duration pattern and the matcher *)

Local Abbreviation time_tail := (Cat (Maybe (Group "time" (Many1 not_newline))) Eos).
Local Abbreviation sep_tail := (Cat (Maybe (Class is_sep)) time_tail).

Lemma line_feed_inside_app (b t : str) : line_feed_inside t -> line_feed_inside (b ++ t).
Proof.
  intros [a [c [-> Hc]]]. exists (b ++ a), c. now rewrite app_assoc.
Qed.

Lemma line_feed_inside_tail (c : ascii) (t : str) :
  c <> newline -> line_feed_inside (c :: t) -> line_feed_inside t.
Proof.
  intros Hc [a [b [E Hb]]]. destruct a as [|x a]; cbn in E.
  - injection E as -> _. now elim Hc.
  - injection E as _ ->. now exists a, b.
Qed.

Lemma line_feed_inside_length (t : str) : line_feed_inside t -> (2 <= length t)%nat.
Proof.
  intros [a [b [-> Hb]]]. rewrite length_app. cbn.
  destruct b; [now elim Hb | cbn; lia].
Qed.

Lemma sep_not_newline (c : ascii) : is_sep c = true -> c <> newline.
Proof. by_ascii_cases c. Qed.

(** The optional time and [$]. *)
Lemma run_time_tail (t : str) (caps : captures) :
  run time_tail t caps (fun _ m => Some m)
  = match t with
    | [] => Some caps
    | [c] => if Ascii.eqb c newline then Some caps
             else Some (("time"%string, [c]) :: caps)
    | _ => match dot_plus_to_end t with
           | Some time => Some (("time"%string, time) :: caps)
           | None => None
           end
    end.
Proof.
  change (run time_tail t caps (fun _ m => Some m))
    with (match run (Cat (Group "time" (Many1 not_newline)) Eos) t caps
                    (fun _ m => Some m) with
          | Some x => Some x
          | None => run Eos t caps (fun _ m => Some m)
          end).
  rewrite run_time_eos.
  destruct t as [|c [|y t]].
  - reflexivity.
  - unfold dot_plus_to_end. cbn [take_while drop_while run].
    unfold not_newline. now destruct (Ascii.eqb c newline).
  - now destruct (dot_plus_to_end (c :: y :: t)).
Qed.

Lemma run_time_tail_none (t : str) (caps : captures) :
  line_feed_inside t -> run time_tail t caps (fun _ m => Some m) = None.
Proof.
  intros H. rewrite run_time_tail.
  pose proof (line_feed_inside_length t H) as L.
  destruct t as [|c [|y t]]; try (cbn in L; lia).
  now rewrite (proj2 (dot_plus_to_end_none _ L) H).
Qed.

Lemma run_sep_tail (t : str) (caps : captures) :
  run sep_tail t caps (fun _ m => Some m)
  = match
      match t with
      | c :: t' => if is_sep c then run time_tail t' caps (fun _ m => Some m) else None
      | [] => None
      end
    with
    | Some x => Some x
    | None => run time_tail t caps (fun _ m => Some m)
    end.
Proof. reflexivity. Qed.

(** After a line feed that is not the last character nothing matches. *)
Lemma run_sep_tail_none (t : str) (caps : captures) :
  line_feed_inside t -> run sep_tail t caps (fun _ m => Some m) = None.
Proof.
  intros H. rewrite run_sep_tail, (run_time_tail_none t caps H).
  destruct t as [|c t]; [reflexivity|].
  destruct (is_sep c) eqn:E; [|reflexivity].
  rewrite run_time_tail_none; [reflexivity|].
  exact (line_feed_inside_tail c t (sep_not_newline c E) H).
Qed.

(** Where the greedy date stops: at the end, or at a separator. *)
Lemma run_sep_tail_stop (r : str) (caps : captures) :
  group caps "time" = None ->
  match run sep_tail (drop_while not_sep r) caps (fun _ m => Some m) with
  | Some m => Some (group_or_empty m "date", group_or_empty m "time")
  | None => None
  end
  = match drop_while not_sep r with
    | [] => Some (group_or_empty caps "date", [])
    | _ :: rest =>
        match rest with
        | [] => Some (group_or_empty caps "date", [])
        | [c] => if Ascii.eqb c newline then Some (group_or_empty caps "date", [])
                 else Some (group_or_empty caps "date", [c])
        | _ =>
            match dot_plus_to_end rest with
            | Some time => Some (group_or_empty caps "date", time)
            | None => None
            end
        end
    end.
Proof.
  intros Hno.
  assert (E0 : group_or_empty caps "time" = [])
    by (unfold group_or_empty; now rewrite Hno).
  destruct (drop_while not_sep r) as [|sep rest] eqn:Ed.
  - cbn. now rewrite E0.
  - pose proof (drop_while_head _ _ _ _ Ed) as Hsep. apply not_sep_false in Hsep.
    rewrite run_sep_tail, Hsep, (run_time_tail rest).
    destruct rest as [|c [|y rest]].
    + now rewrite E0.
    + destruct (Ascii.eqb c newline); [now rewrite E0 | reflexivity].
    + destruct (dot_plus_to_end (c :: y :: rest)) eqn:Et; [reflexivity|].
      rewrite run_time_tail_none; [reflexivity|].
      apply (line_feed_inside_app [sep]).
      apply dot_plus_to_end_none; [cbn; lia | exact Et].
Qed.

(** [re.match] with the duration pattern gives the two strings that
    [match_delta] computes. *)
Lemma re_match_delta (s : str) :
  match re_match delta_pattern s with
  | Some m => Some (group_or_empty m "date", group_or_empty m "time")
  | None => None
  end
  = match_delta s.
Proof.
  unfold re_match, delta_pattern, match_delta.
  destruct s as [|p r]; [reflexivity|].
  change (run (Cat (Class (fun c => Ascii.eqb c "P"%char))
                   (Cat (Maybe (Group "date" (Many1 not_sep))) sep_tail))
              (p :: r) [] (fun _ m => Some m))
    with (if Ascii.eqb p "P"%char
          then match
                 match r with
                 | c :: r' =>
                     if not_sep c
                     then many not_sep r' []
                            (fun s' caps' =>
                               run sep_tail s'
                                   (("date"%string,
                                     firstn (length r - length s') r) :: caps')
                                   (fun _ m => Some m))
                     else None
                 | [] => None
                 end
               with
               | Some x => Some x
               | None => run sep_tail r [] (fun _ m => Some m)
               end
          else None).
  destruct (Ascii.eqb p "P"%char); [|reflexivity].
  unfold match_delta_tail.
  destruct r as [|c r'].
  - reflexivity.
  - destruct (not_sep c) eqn:Ec.
    + (* the date group takes part *)
      pose proof (firstn_consumed (c :: r') not_sep) as F.
      cbn [take_while drop_while] in *. rewrite Ec in *.
      pose proof (run_sep_tail_stop r' [("date"%string, c :: take_while not_sep r')]
                    eq_refl) as Hstop.
      destruct (run sep_tail (drop_while not_sep r')
                    [("date"%string, c :: take_while not_sep r')]
                    (fun _ m => Some m)) as [m|] eqn:Eg.
      * rewrite (many_some not_sep _ [] m r'); [exact Hstop|].
        cbv beta. now rewrite F.
      * assert (Hlf : line_feed_inside (drop_while not_sep r')).
        { destruct (drop_while not_sep r') as [|sep rest] eqn:Ed;
            [discriminate Hstop|].
          apply (line_feed_inside_app [sep]).
          destruct rest as [|x [|y rest]]; try discriminate Hstop.
          - destruct (Ascii.eqb x newline); discriminate Hstop.
          - apply dot_plus_to_end_none; [cbn; lia|].
            now destruct (dot_plus_to_end (x :: y :: rest)). }
        rewrite many_none.
        -- rewrite run_sep_tail_none; [exact Hstop|].
           rewrite <- (take_drop_while not_sep r').
           now apply (line_feed_inside_app (c :: take_while not_sep r')).
        -- intros a t E Ha. apply run_sep_tail_none.
           destruct (drop_while_suffix not_sep a t Ha) as [b Hb].
           rewrite Hb, <- E. now apply line_feed_inside_app.
    + (* it does not: the string goes on with a separator *)
      pose proof (run_sep_tail_stop (c :: r') [] eq_refl) as Hstop.
      cbn [take_while drop_while] in *. rewrite Ec in *.
      exact Hstop.
Qed.


(** ** The token pattern and [findall] *)

(** One attempt of the token pattern: the digits, then a capital letter. *)
Lemma run_token (s : str) :
  run token_pattern s [] (fun s' _ => Some s')
  = match drop_while is_digit s with
    | u :: rest => if is_upper u then Some rest else None
    | [] => None
    end.
Proof.
  unfold token_pattern. cbn [run]. rewrite many_greedy_only; [reflexivity|].
  intros x t Hx. now rewrite (digit_not_upper x Hx).
Qed.

Lemma findall_from_step (s : str) :
  forall digits,
    findall_from digits s
    = match drop_while is_digit s with
      | u :: rest =>
          if is_upper u
          then (digits ++ take_while is_digit s ++ [u]) :: findall_from [] rest
          else findall_from [] rest
      | [] => []
      end.
Proof.
  induction s as [|c s IH]; intros digits; cbn [findall_from drop_while take_while];
    [reflexivity|].
  destruct (is_digit c) eqn:Ed.
  - rewrite IH. destruct (drop_while is_digit s) as [|u rest]; [reflexivity|].
    cbn [app]. now rewrite <- app_assoc.
  - reflexivity.
Qed.

Lemma firstn_token (s : str) (u : ascii) (rest : str) :
  drop_while is_digit s = u :: rest ->
  firstn (length s - length rest) s = take_while is_digit s ++ [u].
Proof.
  intros E. rewrite <- (take_drop_while is_digit s) at 1 2. rewrite E.
  replace (take_while is_digit s ++ u :: rest)
    with ((take_while is_digit s ++ [u]) ++ rest) by now rewrite <- app_assoc.
  rewrite length_app, Nat.add_sub, firstn_app, Nat.sub_diag, firstn_all.
  cbn. apply app_nil_r.
Qed.

Lemma drop_while_length (p : ascii -> bool) (s : str) :
  (length (drop_while p s) <= length s)%nat.
Proof.
  induction s as [|c s IH]; cbn; [lia|]. destruct (p c); cbn; lia.
Qed.

(** With fuel for every character the search finds the tokens that
    [findall_tokens] computes. *)
Lemma findall_fuel_token (fuel : nat) :
  forall s, (length s < fuel)%nat ->
            findall_fuel fuel token_pattern s = findall_from [] s.
Proof.
  induction fuel as [|fuel IH]; intros s Hlen; [lia|].
  cbn [findall_fuel]. rewrite run_token.
  destruct s as [|c s]; [reflexivity|].
  rewrite (findall_from_step (c :: s)).
  pose proof (drop_while_length is_digit (c :: s)) as Hdl.
  destruct (drop_while is_digit (c :: s)) as [|u rest] eqn:Ed.
  - (* digits to the end: no token *)
    rewrite IH by (cbn in Hlen; lia).
    cbn [drop_while] in Ed. destruct (is_digit c) eqn:Ec; [|discriminate].
    rewrite findall_from_step. now rewrite Ed.
  - destruct (is_upper u) eqn:Eu.
    + rewrite (firstn_token (c :: s) u rest Ed).
      cbn [length] in Hdl, Hlen.
      rewrite (IH rest) by lia.
      cbn [app]. destruct (take_while is_digit (c :: s) ++ [u]) eqn:E; [|reflexivity].
      now destruct (take_while is_digit (c :: s)).
    + rewrite IH by (cbn in Hlen; lia).
      cbn [drop_while] in Ed. destruct (is_digit c) eqn:Ec.
      * rewrite findall_from_step. now rewrite Ed, Eu.
      * injection Ed as <- <-. reflexivity.
Qed.

Lemma findall_token (s : str) : findall token_pattern s = findall_tokens s.
Proof. apply findall_fuel_token. lia. Qed.


(** ** The token loops of [_parse_datetime_delta] *)

Lemma str_eqb_neq (a b : str) : a <> b -> str_eqb a b = false.
Proof.
  intros H. destruct (str_eqb a b) eqn:E; [|reflexivity].
  apply str_eqb_eq in E. now elim H.
Qed.

Section TokenLoop.

(** The three unit letters of a half; they differ from one another. *)
Variables a b c : str.
Hypothesis Hab : a <> b.
Hypothesis Hac : a <> c.
Hypothesis Hbc : b <> c.

Lemma int_well_formed (token : str) :
  well_formed [a; b; c] token -> int (all_but_last token) = Ok (token_value token).
Proof. intros [Hn _]. now apply int_number. Qed.

(** When every token is well formed the loop ends, and each running value
    is that of the last token of its unit. *)
Lemma token_loop_ok (tokens : list str) :
  Forall (well_formed [a; b; c]) tokens ->
  forall x y z,
    token_loop a b c tokens x y z
    = Ok (last_from a tokens x, last_from b tokens y, last_from c tokens z).
Proof.
  induction 1 as [|token tokens Hwf _ IH]; intros x y z; [reflexivity|].
  cbn [token_loop]. rewrite (int_well_formed token Hwf). cbn [bind].
  unfold last_from in *. cbn [fold_left]. fold (token_unit token).
  destruct Hwf as [_ [Hu | [Hu | [Hu | []]]]]; rewrite <- Hu.
  - rewrite str_eqb_refl, IH.
    now rewrite (str_eqb_neq a b), (str_eqb_neq a c).
  - rewrite (str_eqb_neq b a) by congruence. rewrite str_eqb_refl, IH.
    now rewrite (str_eqb_neq b c).
  - rewrite (str_eqb_neq c a), (str_eqb_neq c b) by congruence.
    now rewrite str_eqb_refl, IH.
Qed.

Lemma token_loop_raises (tokens : list str) :
  forall x y z e, token_loop a b c tokens x y z = Raise e -> e = ValueError.
Proof.
  induction tokens as [|token tokens IH]; intros x y z e; [discriminate|].
  cbn [token_loop]. destruct (int (all_but_last token)) as [v|e'] eqn:E; cbn [bind].
  - destruct (str_eqb (last_char token) a); [apply IH|].
    destruct (str_eqb (last_char token) b); [apply IH|].
    destruct (str_eqb (last_char token) c); [apply IH|].
    now intros [= <-].
  - intros [= <-]. exact (int_raises_ValueError _ _ E).
Qed.

(** One malformed token is enough for the loop to raise. *)
Lemma token_loop_malformed (tokens : list str) :
  Exists (malformed [a; b; c]) tokens ->
  forall x y z, token_loop a b c tokens x y z = Raise ValueError.
Proof.
  intros H x y z.
  destruct (token_loop a b c tokens x y z) as [r|e] eqn:E.
  - exfalso. revert x y z r E.
    induction H as [token tokens Hbad | token tokens _ IH]; intros x y z r;
      cbn [token_loop];
      destruct (int (all_but_last token)) as [v|e'] eqn:Ev; cbn [bind];
      try discriminate.
    + destruct Hbad as [Hempty | Hunit].
      * rewrite Hempty in Ev. discriminate.
      * destruct (str_eqb (last_char token) a) eqn:Ea.
        { apply str_eqb_eq in Ea. elim Hunit. left. now rewrite <- Ea. }
        destruct (str_eqb (last_char token) b) eqn:Eb.
        { apply str_eqb_eq in Eb. elim Hunit. right; left. now rewrite <- Eb. }
        destruct (str_eqb (last_char token) c) eqn:Ec.
        { apply str_eqb_eq in Ec. elim Hunit. right; right; left. now rewrite <- Ec. }
        discriminate.
    + destruct (str_eqb (last_char token) a); [apply IH|].
      destruct (str_eqb (last_char token) b); [apply IH|].
      destruct (str_eqb (last_char token) c); [apply IH | discriminate].
  - now rewrite (token_loop_raises _ _ _ _ _ E).
Qed.

End TokenLoop.

(** ** The tokens found by [findall] *)

Lemma findall_from_shape (s digits : str) :
  forallb is_digit digits = true -> Forall token_shape (findall_from digits s).
Proof.
  revert digits. induction s as [|ch s IH]; intros digits Hd; cbn [findall_from].
  - constructor.
  - destruct (is_digit ch) eqn:Ed.
    + apply IH. rewrite forallb_app. cbn. now rewrite Hd, Ed.
    + destruct (is_upper ch) eqn:Eu.
      * constructor; [now exists digits, ch | now apply IH].
      * now apply IH.
Qed.

Lemma findall_tokens_shape (s : str) : Forall token_shape (findall_tokens s).
Proof. now apply findall_from_shape. Qed.

(** A token of that shape is well formed or malformed. *)
Lemma token_shape_cases (units : list str) (token : str) :
  token_shape token -> well_formed units token \/ malformed units token.
Proof.
  intros [ds [ch [-> [Hd Hu]]]]. unfold well_formed, malformed, token_unit.
  rewrite all_but_last_snoc, last_char_snoc.
  destruct ds as [|d ds]; [right; now left|].
  destruct (in_dec (list_eq_dec ascii_dec) [ch] units) as [Hin | Hout].
  - left. repeat split; [discriminate | exact Hd | exact Hin].
  - right. now right.
Qed.

Lemma tokens_cases (units : list str) (tokens : list str) :
  Forall token_shape tokens ->
  Forall (well_formed units) tokens \/ Exists (malformed units) tokens.
Proof.
  induction 1 as [|token tokens Hs _ [IH | IH]].
  - left. constructor.
  - destruct (token_shape_cases units token Hs) as [Hw | Hm].
    + left. now constructor.
    + right. now constructor.
  - right. now constructor 2.
Qed.

Lemma well_formed_not_malformed (units : list str) (token : str) :
  well_formed units token -> ~ malformed units token.
Proof. intros [[Hne _] Hin] [Hempty | Hout]; [now elim Hne | now elim Hout]. Qed.

(** ** [_parse_datetime_delta] *)

Lemma date_units_distinct :
  ("Y" : str) <> "M" /\ ("Y" : str) <> "D" /\ ("M" : str) <> "D".
Proof. repeat split; discriminate. Qed.

Lemma time_units_distinct :
  ("H" : str) <> "M" /\ ("H" : str) <> "S" /\ ("M" : str) <> "S".
Proof. repeat split; discriminate. Qed.

Lemma re_match_delta_none (s : str) :
  re_match delta_pattern s = None <-> match_delta s = None.
Proof.
  rewrite <- re_match_delta.
  destruct (re_match delta_pattern s); split; (discriminate || reflexivity).
Qed.

(** The result of the duration parser, by cases. *)
Lemma _parse_datetime_delta_cases (s : str) :
  (re_match delta_pattern (upper s) = None
   /\ _parse_datetime_delta s = Raise ValueError)
  \/ (re_match delta_pattern (upper s) <> None
      /\ (Exists (malformed date_units) (date_tokens s)
          \/ Exists (malformed time_units) (time_tokens s))
      /\ _parse_datetime_delta s = Raise ValueError)
  \/ (re_match delta_pattern (upper s) <> None
      /\ Forall (well_formed date_units) (date_tokens s)
      /\ Forall (well_formed time_units) (time_tokens s)
      /\ _parse_datetime_delta s
         = Ok (mk_date_delta
                 (last_from "Y" (date_tokens s) 0) (last_from "M" (date_tokens s) 0)
                 (last_from "D" (date_tokens s) 0) (last_from "H" (time_tokens s) 0)
                 (last_from "M" (time_tokens s) 0) (last_from "S" (time_tokens s) 0))).
Proof.
  unfold _parse_datetime_delta, date_tokens, time_tokens.
  destruct (re_match delta_pattern (upper s)) as [m|]; [right | now left].
  rewrite !findall_token.
  generalize (group_or_empty m "date") as d, (group_or_empty m "time") as t.
  intros d t.
  destruct date_units_distinct as [D1 [D2 D3]].
  destruct time_units_distinct as [T1 [T2 T3]].
  destruct (tokens_cases date_units _ (findall_tokens_shape d)) as [Wd | Md].
  - rewrite (token_loop_ok "Y" "M" "D" D1 D2 D3 _ Wd). cbn [bind].
    destruct (tokens_cases time_units _ (findall_tokens_shape t)) as [Wt | Mt].
    + right. rewrite (token_loop_ok "H" "M" "S" T1 T2 T3 _ Wt). cbn [bind].
      repeat split; try assumption; discriminate.
    + left. rewrite (token_loop_malformed "H" "M" "S" _ Mt). cbn [bind].
      repeat split; [discriminate | now right].
  - left. rewrite (token_loop_malformed "Y" "M" "D" _ Md). cbn [bind].
    repeat split; [discriminate | now left].
Qed.

Lemma last_from_last (u : str) (pre post : list str) (token : str) (init : Z) :
  token_unit token = u ->
  Forall (fun other => token_unit other <> u) post ->
  last_from u (pre ++ token :: post) init = token_value token.
Proof.
  intros Hu Hpost. unfold last_from. rewrite fold_left_app. cbn [fold_left].
  rewrite Hu, str_eqb_refl.
  generalize (token_value token) as v.
  induction Hpost as [|other post Ho _ IH]; intros v; [reflexivity|].
  cbn [fold_left]. rewrite (str_eqb_neq _ _ Ho). apply IH.
Qed.


Ltac field_of_last Hu :=
  match type of Hu with
  | ?u = token_unit ?token =>
      rewrite <- Hu;
      match goal with
      | |- _ _ (mk_date_delta (last_from _ ?tokens _) _ _ _ _ _) = _ =>
          transitivity (last_from u tokens 0); [reflexivity|];
          apply last_from_last; [now symmetry | now rewrite Hu]
      | |- _ _ (mk_date_delta _ _ _ (last_from _ ?tokens _) _ _) = _ =>
          transitivity (last_from u tokens 0); [reflexivity|];
          apply last_from_last; [now symmetry | now rewrite Hu]
      end
  end.

(** C9.  In a duration string that the pattern accepts and whose tokens are
    all well formed, the parser returns a delta in which the field of a unit
    holds the value of the last token of that unit in its half: a later
    duplicate overwrites an earlier one, the values are not added up.  A token
    whose letter is not a unit of its half (Y, M, D before the separator, H, M,
    S after it) makes the parser raise [ValueError], as in ["P1X"]. *)
Theorem duration_last_duplicate_wins_bad_unit_fails (s : str) :
  (re_match delta_pattern (upper s) <> None ->
   Forall (well_formed date_units) (date_tokens s) ->
   Forall (well_formed time_units) (time_tokens s) ->
   exists delta,
     _parse_datetime_delta s = Ok delta
     /\ (forall pre token post,
           date_tokens s = pre ++ token :: post ->
           Forall (fun other => token_unit other <> token_unit token) post ->
           date_field (token_unit token) delta = token_value token)
     /\ (forall pre token post,
           time_tokens s = pre ++ token :: post ->
           Forall (fun other => token_unit other <> token_unit token) post ->
           time_field (token_unit token) delta = token_value token))
  /\ (Exists (fun token => ~ In (token_unit token) date_units) (date_tokens s)
      \/ Exists (fun token => ~ In (token_unit token) time_units) (time_tokens s) ->
      _parse_datetime_delta s = Raise ValueError)
  /\ _parse_datetime_delta "P1X" = Raise ValueError.
Proof.
  split; [|split; [|reflexivity]].
  - intros Hm Wd Wt.
    destruct (_parse_datetime_delta_cases s)
      as [[Hn _] | [[_ [[Md | Mt] _]] | [_ [_ [_ R]]]]].
    + now elim Hm.
    + exfalso. apply Exists_exists in Md as [token [Hin Hbad]].
      rewrite Forall_forall in Wd.
      exact (well_formed_not_malformed _ _ (Wd token Hin) Hbad).
    + exfalso. apply Exists_exists in Mt as [token [Hin Hbad]].
      rewrite Forall_forall in Wt.
      exact (well_formed_not_malformed _ _ (Wt token Hin) Hbad).
    + eexists. split; [exact R|]. split.
      * intros pre token post E Hpost.
        assert (Hw : well_formed date_units token).
        { rewrite Forall_forall in Wd. apply Wd. rewrite E.
          apply in_or_app. right. now left. }
        rewrite E.
        destruct Hw as [_ [Hu | [Hu | [Hu | []]]]]; field_of_last Hu.
      * intros pre token post E Hpost.
        assert (Hw : well_formed time_units token).
        { rewrite Forall_forall in Wt. apply Wt. rewrite E.
          apply in_or_app. right. now left. }
        rewrite E.
        destruct Hw as [_ [Hu | [Hu | [Hu | []]]]]; field_of_last Hu.
  - intros Hbad.
    assert (Hmal : Exists (malformed date_units) (date_tokens s)
                   \/ Exists (malformed time_units) (time_tokens s)).
    { destruct Hbad as [H | H]; [left | right];
        (eapply Exists_impl; [|exact H]); intros token Ht; now right. }
    destruct (_parse_datetime_delta_cases s)
      as [[_ R] | [[_ [_ R]] | [_ [Wd [Wt _]]]]]; try exact R.
    exfalso. destruct Hmal as [M | M];
      apply Exists_exists in M as [token [Hin Hm]].
    + rewrite Forall_forall in Wd.
      exact (well_formed_not_malformed _ _ (Wd token Hin) Hm).
    + rewrite Forall_forall in Wt.
      exact (well_formed_not_malformed _ _ (Wt token Hin) Hm).
Qed.


Lemma duration_last_duplicate_wins_bad_unit_fails_witness :
  exists delta,
    _parse_datetime_delta "P1Y2M7Y" = Ok delta /\ year delta = 7%Z.
Proof.
  destruct (proj1 (duration_last_duplicate_wins_bad_unit_fails "P1Y2M7Y"))
    as [delta [R [Hdate _]]].
  - vm_compute. discriminate.
  - change (date_tokens "P1Y2M7Y") with ["1Y" : str; "2M" : str; "7Y" : str].
    repeat apply Forall_cons; try apply Forall_nil;
      (split; [split; [discriminate | reflexivity] | cbn; auto 6]).
  - apply Forall_nil.
  - exists delta. split; [exact R|].
    apply (Hdate ["1Y" : str; "2M" : str] ("7Y" : str) []); [reflexivity | constructor].
Defined.

Lemma _parse_datetime_delta_raises (s : str) (e : exn) :
  _parse_datetime_delta s = Raise e -> e = ValueError.
Proof.
  destruct (_parse_datetime_delta_cases s)
    as [[_ R] | [[_ [_ R]] | [_ [_ [_ R]]]]]; rewrite R;
    [now intros [= <-] | now intros [= <-] | discriminate].
Qed.

(** C10 (as amended).  The duration parser returns the all-zero delta on
    ["P"] and on [P] followed by one separator alone (["PT"], ["P "], ["P:"]).
    It raises nothing but [ValueError], and it does so exactly when the string
    does not start with [P] (in either case), or a line feed that is not its
    last character follows the first separator, or one of its tokens is
    malformed: no digits before the letter, or a letter that is no unit of
    its half. *)
Theorem duration_bare_P_and_failure_causes :
  _parse_datetime_delta "P" = Ok zero_delta
  /\ (forall sep, is_sep sep = true ->
        _parse_datetime_delta ["P"%char; sep] = Ok zero_delta)
  /\ (forall s e, _parse_datetime_delta s = Raise e -> e = ValueError)
  /\ (forall s,
        _parse_datetime_delta s = Raise ValueError
        <-> hd_error (upper s) <> Some "P"%char
            \/ line_feed_inside (after_separator s)
            \/ Exists (malformed date_units) (date_tokens s)
            \/ Exists (malformed time_units) (time_tokens s)).
Proof.
  split; [reflexivity|]. split; [|split].
  - intros sep Hsep. unfold is_sep in Hsep.
    rewrite !orb_true_iff, !Ascii.eqb_eq in Hsep.
    destruct Hsep as [[-> | ->] | ->]; reflexivity.
  - exact _parse_datetime_delta_raises.
  - intros s.
    destruct (_parse_datetime_delta_cases s)
      as [[N R] | [[_ [M R]] | [Hm [Wd [Wt R]]]]]; rewrite R.
    + split; [intros _ | reflexivity].
      apply re_match_delta_none, match_delta_none_iff in N. tauto.
    + split; [intros _ | reflexivity]. tauto.
    + split; [discriminate|]. intros [H | [H | [H | H]]]; exfalso.
      * apply Hm, re_match_delta_none, match_delta_none_iff. now left.
      * apply Hm, re_match_delta_none, match_delta_none_iff. now right.
      * apply Exists_exists in H as [token [Hin Hbad]].
        rewrite Forall_forall in Wd.
        exact (well_formed_not_malformed _ _ (Wd token Hin) Hbad).
      * apply Exists_exists in H as [token [Hin Hbad]].
        rewrite Forall_forall in Wt.
        exact (well_formed_not_malformed _ _ (Wt token Hin) Hbad).
Qed.

Lemma duration_bare_P_and_failure_causes_witness :
  is_sep "T"%char = true
  /\ _parse_datetime_delta "PT" = Ok zero_delta
  /\ _parse_datetime_delta "P1X" = Raise ValueError.
Proof.
  destruct duration_bare_P_and_failure_causes as [_ [Hsep [_ Hfail]]].
  split; [reflexivity|]. split.
  - apply (Hsep "T"%char). reflexivity.
  - apply (proj2 (Hfail "P1X")). right; right; left.
    constructor. right. cbn. intros [H | [H | [H | []]]]; discriminate.
Defined.

(** C10 (as stated) fails: [P], a space and two line feeds start with [P] and
    hold no token at all, well formed or not, and are rejected. *)
Lemma duration_fails_without_token_fault :
  let s : str := ["P"; " "; newline; newline]%char in
  _parse_datetime_delta s = Raise ValueError
  /\ hd_error (upper s) = Some "P"%char
  /\ findall_tokens (tl (upper s)) = []
  /\ date_tokens s = [] /\ time_tokens s = [].
Proof. repeat split. Qed.


(** ** [_datetime_delta_to_float_days] *)

Lemma round_half_even_integer (q : Q) (n : Z) :
  q == inject_Z n -> round_half_even q = n.
Proof.
  intros H. unfold round_half_even.
  assert (F : Qfloor q = n) by (rewrite H; apply Qfloor_Z).
  rewrite F.
  assert (C : Qcompare (q - inject_Z n) (1 # 2) = Lt).
  { apply Qlt_alt. rewrite H. unfold Qminus. rewrite Qplus_opp_r. reflexivity. }
  now rewrite C.
Qed.

Lemma timedelta_of_delta (delta : date_delta) :
  td_microseconds
    (timedelta_new
       (inject_Z (day delta) + inject_Z (month delta) * 365.2425 / 12
        + inject_Z (year delta) * 365.2425)
       (hour delta) (minute delta) (second delta))
  = (delta_seconds delta * 1000000)%Z.
Proof.
  unfold timedelta_new, delta_seconds. cbn [td_microseconds].
  apply round_half_even_integer.
  rewrite !inject_Z_mult, !inject_Z_plus, !inject_Z_mult. field.
Qed.

(** C7.  In exact arithmetic the conversion of a delta to days is
    [day + month*365.2425/12 + year*365.2425] days plus the hours, minutes and
    seconds, the whole counted in seconds and divided by 86400.  The string
    ["P1Y"] gives 365.2425 days; ["PT1H"] gives the delta with [hour = 1] and
    1/24 day; ["P0Y0M0DT0H0M0S"] gives the all-zero delta and 0 days. *)
Theorem delta_to_float_days_formula :
  (forall delta,
      _datetime_delta_to_float_days delta
      == ((inject_Z (day delta) + inject_Z (month delta) * 365.2425 / 12
           + inject_Z (year delta) * 365.2425) * 86400
          + inject_Z (hour delta) * 3600 + inject_Z (minute delta) * 60
          + inject_Z (second delta)) / 86400)
  /\ (exists days, parse_datetimestr_delta_to_float_days "P1Y" = Ok days
                   /\ days == 365.2425)
  /\ _parse_datetime_delta "PT1H" = Ok (mk_date_delta 0 0 0 1 0 0)
  /\ (exists days, parse_datetimestr_delta_to_float_days "PT1H" = Ok days
                   /\ days == 1 / 24)
  /\ _parse_datetime_delta "P0Y0M0DT0H0M0S" = Ok zero_delta
  /\ (exists days, parse_datetimestr_delta_to_float_days "P0Y0M0DT0H0M0S" = Ok days
                   /\ days == 0).
Proof.
  split.
  - intros delta. unfold _datetime_delta_to_float_days, total_seconds.
    rewrite timedelta_of_delta. unfold delta_seconds.
    rewrite !inject_Z_mult, !inject_Z_plus, !inject_Z_mult. field.
  - repeat split; try (eexists; split; [reflexivity | reflexivity]).
Qed.


(** ** The command-line coercions *)

Section CoercionFacts.

Variable float : Type.
Variable py_float : str -> result float.
Variable datetime : Type.
Variable du_parse : str -> result datetime.
Variable datetime_of_unpacked : datetime -> result datetime.
Variable date2num : datetime -> result float.

(** C4.  [parse_as_number_or_datetime] reads [in_string], a name that
    neither its frame (the parameter is [string]) nor the module binds: on
    every input, the string ["12"] among them, it raises [NameError] before
    any conversion is tried.  No integer is returned, nor the message
    ["'12' is not a valid value."]. *)
Theorem parse_as_number_or_datetime_name_error (string : str) :
  parse_as_number_or_datetime float py_float datetime du_parse
    datetime_of_unpacked date2num string
  = Raise (NameError "in_string")
  /\ parse_as_number_or_datetime float py_float datetime du_parse
       datetime_of_unpacked date2num "12"
     <> Ok (VInt float datetime 12)
  /\ parse_as_number_or_datetime float py_float datetime du_parse
       datetime_of_unpacked date2num "12"
     <> Raise (invalid_value "12").
Proof. repeat split; discriminate. Qed.

(** The sibling [parse_as_number_or_partial_datetime] does try integer,
    float, date/time and duration in that order and returns the first
    success.  The message of [invalid_value] is raised when all four raise
    [ValueError]; an exception of another kind from [float] or from the
    date/time parser is not caught. *)
Lemma parse_as_number_or_partial_datetime_chain (string : str) :
  parse_as_number_or_partial_datetime float py_float datetime du_parse string
  = match int string with
    | Ok z => Ok (VInt float datetime z)
    | Raise _ =>
        match py_float string with
        | Ok x => Ok (VFloat float datetime x)
        | Raise ValueError =>
            match du_parse string with
            | Ok d => Ok (VDatetime float datetime d)
            | Raise ValueError =>
                match _parse_datetime_delta string with
                | Ok d => Ok (VDelta float datetime d)
                | Raise _ =>
                    Raise (ArgumentTypeError ("'" ++ string ++ "' is not a valid value."))
                end
            | Raise e => Raise e
            end
        | Raise e => Raise e
        end
    end.
Proof.
  unfold parse_as_number_or_partial_datetime, _parse_datetime.
  destruct (int string) as [z|e] eqn:Ei; [reflexivity|].
  rewrite (int_raises_ValueError _ _ Ei). cbn [bind try_except_ValueError].
  destruct (py_float string) as [x|[]]; try reflexivity.
  cbn [bind try_except_ValueError].
  destruct (du_parse string) as [d|[]]; try reflexivity.
  cbn [bind try_except_ValueError].
  destruct (_parse_datetime_delta string) as [d|e'] eqn:Ed; [reflexivity|].
  now rewrite (_parse_datetime_delta_raises _ _ Ed).
Qed.

End CoercionFacts.


(* ===================================================================== *)
(** * Further properties of [cis/parse_datetime.py] *)
(* ===================================================================== *)

(** ** Durations written token by token *)

Lemma tokens_direct (s : str) :
  date_tokens s = match match_delta (upper s) with
                  | Some (date, _) => findall_tokens date
                  | None => []
                  end
  /\ time_tokens s = match match_delta (upper s) with
                     | Some (_, time) => findall_tokens time
                     | None => []
                     end.
Proof.
  unfold date_tokens, time_tokens. rewrite <- re_match_delta.
  destruct (re_match delta_pattern (upper s)); [|now split].
  now rewrite !findall_token.
Qed.

Lemma findall_from_token (ds : str) (u : ascii) (rest : str) :
  forallb is_digit ds = true -> is_upper u = true ->
  forall digits,
    findall_from digits (ds ++ u :: rest) = (digits ++ ds ++ [u]) :: findall_from [] rest.
Proof.
  intros Hd Hu. induction ds as [|d ds IH]; intros digits; cbn [app findall_from].
  - destruct (is_digit u) eqn:E; [|now rewrite Hu].
    rewrite (digit_not_upper u E) in Hu. discriminate.
  - cbn in Hd. apply andb_true_iff in Hd as [Hd1 Hd2]. rewrite Hd1.
    rewrite (IH Hd2). now rewrite <- app_assoc.
Qed.

(** A well-formed token is a number and one of the unit letters. *)
Lemma well_formed_shape (units : list str) (token : str) :
  well_formed units token ->
  exists ds u, token = ds ++ [u] /\ is_number ds /\ In [u] units.
Proof.
  intros [Hn Hin]. unfold token_unit, last_char, all_but_last in *.
  destruct token as [|c token]; [destruct Hn as [Hn _]; now elim Hn|].
  exists (removelast (c :: token)), (last (c :: token) "000"%char).
  repeat split; try apply Hn; [|exact Hin].
  apply app_removelast_last. discriminate.
Qed.

Lemma date_unit_chars (u : ascii) :
  In [u] date_units -> is_upper u = true /\ not_sep u = true /\ not_newline u = true.
Proof.
  intros [H | [H | [H | []]]]; injection H as <-; repeat split.
Qed.

Lemma time_unit_chars (u : ascii) :
  In [u] time_units -> is_upper u = true /\ not_sep u = true /\ not_newline u = true.
Proof.
  intros [H | [H | [H | []]]]; injection H as <-; repeat split.
Qed.

(** The tokens of a string made of well-formed tokens are these tokens, and
    the string holds neither separator nor line feed. *)
Lemma concat_tokens (units : list str) (tokens : list str) :
  (forall u, In [u] units ->
             is_upper u = true /\ not_sep u = true /\ not_newline u = true) ->
  Forall (well_formed units) tokens ->
  findall_tokens (concat tokens) = tokens
  /\ forallb not_sep (concat tokens) = true
  /\ forallb not_newline (concat tokens) = true.
Proof.
  intros Hu. unfold findall_tokens.
  induction 1 as [|token tokens Hw _ [IH1 [IH2 IH3]]]; [now repeat split|].
  destruct (well_formed_shape _ _ Hw) as [ds [u [-> [Hn Hin]]]].
  destruct (Hu u Hin) as [U1 [U2 U3]].
  cbn [concat]. rewrite <- !app_assoc. cbn [app]. repeat split.
  - rewrite findall_from_token by (apply Hn || exact U1). now rewrite IH1.
  - apply forallb_snoc_sep; [|exact U2 | exact IH2].
    apply number_chars; [exact digit_not_sep | exact Hn].
  - apply forallb_snoc_sep; [|exact U3 | exact IH3].
    apply number_chars; [exact digit_not_newline | exact Hn].
Qed.

(** Every well-formed token has at least two characters. *)
Lemma concat_tokens_length (units : list str) (tokens : list str) :
  Forall (well_formed units) tokens ->
  tokens = [] \/ (2 <= length (concat tokens))%nat.
Proof.
  intros H. destruct H as [|token tokens Hw _]; [now left | right].
  destruct (well_formed_shape _ _ Hw) as [ds [u [-> [[Hne _] _]]]].
  cbn [concat]. rewrite !length_app. destruct ds; [now elim Hne | cbn; lia].
Qed.

(** The pattern on a date half, a separator and a time half. *)
Lemma match_delta_tail_split (date time : str) (sep : ascii) :
  forallb not_sep date = true -> is_sep sep = true ->
  forallb not_newline time = true ->
  match_delta_tail (date ++ sep :: time) = Some (date, time).
Proof.
  intros Hd Hsep Ht. unfold match_delta_tail.
  destruct (take_while_stop not_sep date sep time Hd) as [-> ->].
  { unfold not_sep. now rewrite Hsep. }
  destruct time as [|c [|y time]]; [reflexivity | |].
  - cbn in Ht. rewrite andb_true_r in Ht.
    now rewrite (not_newline_eqb c Ht).
  - now rewrite dot_plus_to_end_line.
Qed.

Lemma match_delta_tail_date_only (date : str) :
  forallb not_sep date = true -> match_delta_tail date = Some (date, []).
Proof.
  intros Hd. unfold match_delta_tail.
  now destruct (take_while_whole _ _ Hd) as [-> ->].
Qed.

(** The parser on a string whose two halves are known. *)
Lemma _parse_datetime_delta_halves (s date time : str) :
  match_delta (upper s) = Some (date, time) ->
  Forall (well_formed date_units) (findall_tokens date) ->
  Forall (well_formed time_units) (findall_tokens time) ->
  _parse_datetime_delta s
  = Ok (mk_date_delta
          (last_from "Y" (findall_tokens date) 0) (last_from "M" (findall_tokens date) 0)
          (last_from "D" (findall_tokens date) 0) (last_from "H" (findall_tokens time) 0)
          (last_from "M" (findall_tokens time) 0) (last_from "S" (findall_tokens time) 0)).
Proof.
  intros Hm Wd Wt.
  destruct (tokens_direct s) as [Ed Et]. rewrite Hm in Ed, Et.
  destruct (_parse_datetime_delta_cases s)
    as [[N _] | [[_ [[M | M] _]] | [_ [_ [_ R]]]]].
  - apply re_match_delta_none in N. congruence.
  - exfalso. rewrite Ed in M. apply Exists_exists in M as [token [Hin Hbad]].
    rewrite Forall_forall in Wd.
    exact (well_formed_not_malformed _ _ (Wd token Hin) Hbad).
  - exfalso. rewrite Et in M. apply Exists_exists in M as [token [Hin Hbad]].
    rewrite Forall_forall in Wt.
    exact (well_formed_not_malformed _ _ (Wt token Hin) Hbad).
  - now rewrite Ed, Et in R.
Qed.

(** The parser on a string written token by token. *)
Lemma _parse_datetime_delta_tokens (s : str) (dts tts : list str) (sep : ascii) :
  Forall (well_formed date_units) dts ->
  Forall (well_formed time_units) tts ->
  is_sep sep = true ->
  upper s = "P"%char :: concat dts ++ sep :: concat tts ->
  _parse_datetime_delta s
  = Ok (mk_date_delta (last_from "Y" dts 0) (last_from "M" dts 0) (last_from "D" dts 0)
                      (last_from "H" tts 0) (last_from "M" tts 0) (last_from "S" tts 0)).
Proof.
  intros Wd Wt Hsep Hs.
  destruct (concat_tokens date_units dts date_unit_chars Wd) as [Fd [Sd _]].
  destruct (concat_tokens time_units tts time_unit_chars Wt) as [Ft [_ Nt]].
  rewrite (_parse_datetime_delta_halves s (concat dts) (concat tts)).
  - now rewrite Fd, Ft.
  - rewrite Hs. cbn [match_delta]. rewrite Ascii.eqb_refl.
    now apply match_delta_tail_split.
  - now rewrite Fd.
  - now rewrite Ft.
Qed.

(** X1.  A duration written as [P], any well-formed date tokens (a number and
    one of Y, M, D each), one separator ([T], a space or a colon) and any
    well-formed time tokens (a number and one of H, M, S each), in either
    letter case, is parsed to the delta whose fields are the values of the
    last token of each unit, and 0 for a unit that does not occur; the order
    of the tokens within a half does not matter otherwise. *)
Theorem duration_of_tokens (s : str) (dts tts : list str) (sep : ascii) :
  Forall (well_formed date_units) dts ->
  Forall (well_formed time_units) tts ->
  is_sep sep = true ->
  upper s = "P"%char :: concat dts ++ sep :: concat tts ->
  _parse_datetime_delta s
  = Ok (mk_date_delta (last_from "Y" dts 0) (last_from "M" dts 0) (last_from "D" dts 0)
                      (last_from "H" tts 0) (last_from "M" tts 0) (last_from "S" tts 0)).
Proof. exact (_parse_datetime_delta_tokens s dts tts sep). Qed.

Lemma duration_of_tokens_witness :
  _parse_datetime_delta "p3d1y 5s4h"
  = Ok (mk_date_delta 1 0 3 4 0 5).
Proof.
  apply (duration_of_tokens "p3d1y 5s4h"
           ["3D" : str; "1Y" : str] ["5S" : str; "4H" : str] " "%char).
  - repeat apply Forall_cons; try apply Forall_nil;
      (split; [split; [discriminate | reflexivity] | cbn; auto 6]).
  - repeat apply Forall_cons; try apply Forall_nil;
      (split; [split; [discriminate | reflexivity] | cbn; auto 6]).
  - reflexivity.
  - reflexivity.
Defined.


Lemma well_formed_token (units : list str) (n : str) (u : ascii) :
  is_number n -> In [u] units -> well_formed units (n ++ [u]).
Proof.
  intros Hn Hu. unfold well_formed, token_unit.
  now rewrite all_but_last_snoc, last_char_snoc.
Qed.

Lemma token_value_snoc (n : str) (u : ascii) : token_value (n ++ [u]) = dec_value n.
Proof. unfold token_value. now rewrite all_but_last_snoc. Qed.

Lemma token_unit_snoc (n : str) (u : ascii) : token_unit (n ++ [u]) = [u].
Proof. apply last_char_snoc. Qed.

(** The field left by tokens of three different units. *)
Lemma last_from_three (a b c : ascii) (x y z : str) :
  a <> b -> a <> c -> b <> c ->
  last_from [a] [x ++ [a]; y ++ [b]; z ++ [c]] 0 = dec_value x
  /\ last_from [b] [x ++ [a]; y ++ [b]; z ++ [c]] 0 = dec_value y
  /\ last_from [c] [x ++ [a]; y ++ [b]; z ++ [c]] 0 = dec_value z.
Proof.
  intros Hab Hac Hbc.
  assert (U : forall p q : ascii, p <> q -> forall n, token_unit (n ++ [p]) <> [q]).
  { intros p q Hpq n. rewrite token_unit_snoc. intros [= E]. now elim Hpq. }
  repeat split.
  - rewrite <- (token_value_snoc x a).
    apply (last_from_last [a] [] [y ++ [b]; z ++ [c]] (x ++ [a]) 0).
    + apply token_unit_snoc.
    + repeat constructor; apply U; congruence.
  - rewrite <- (token_value_snoc y b).
    apply (last_from_last [b] [x ++ [a]] [z ++ [c]] (y ++ [b]) 0).
    + apply token_unit_snoc.
    + repeat constructor; apply U; congruence.
  - rewrite <- (token_value_snoc z c).
    apply (last_from_last [c] [x ++ [a]; y ++ [b]] [] (z ++ [c]) 0).
    + apply token_unit_snoc.
    + constructor.
Qed.

(** X2.  The complete form [PyYmMdD], a separator, [hHmMsS], written with six
    numbers and in either letter case, is parsed to the delta holding exactly
    these six numbers: year, month, day, hour, minute, second. *)
Theorem duration_complete_form (str0 Y M D h mi s : str) (sep : ascii) :
  is_number Y -> is_number M -> is_number D ->
  is_number h -> is_number mi -> is_number s ->
  is_sep sep = true ->
  upper str0
  = "P" ++ Y ++ "Y" ++ M ++ "M" ++ D ++ "D" ++ sep :: h ++ "H" ++ mi ++ "M" ++ s ++ "S" ->
  _parse_datetime_delta str0
  = Ok (mk_date_delta (dec_value Y) (dec_value M) (dec_value D)
                      (dec_value h) (dec_value mi) (dec_value s)).
Proof.
  intros HY HM HD Hh Hmi Hs Hsep E.
  rewrite (_parse_datetime_delta_tokens str0
             [Y ++ ["Y"%char]; M ++ ["M"%char]; D ++ ["D"%char]]
             [h ++ ["H"%char]; mi ++ ["M"%char]; s ++ ["S"%char]] sep).
  - cbn [list_ascii_of_string].
    destruct (last_from_three "Y" "M" "D" Y M D) as [-> [-> ->]]; try discriminate.
    destruct (last_from_three "H" "M" "S" h mi s) as [-> [-> ->]]; try discriminate.
    reflexivity.
  - repeat apply Forall_cons; try apply Forall_nil;
      (apply well_formed_token; [assumption | cbn; auto 6]).
  - repeat apply Forall_cons; try apply Forall_nil;
      (apply well_formed_token; [assumption | cbn; auto 6]).
  - exact Hsep.
  - rewrite E. cbn [list_ascii_of_string app concat].
    repeat (rewrite <- app_assoc; cbn [app]). now rewrite ?app_nil_r.
Qed.

Lemma duration_complete_form_witness :
  _parse_datetime_delta "p2y10m3d:4h50m06s"
  = Ok (mk_date_delta 2 10 3 4 50 6).
Proof.
  assert (N : forall ds : str, ds <> [] -> forallb is_digit ds = true -> is_number ds)
    by (intros ds H1 H2; now split).
  apply (duration_complete_form "p2y10m3d:4h50m06s" "2" "10" "3" "4" "50" "06" ":"%char);
    try (apply N; [discriminate | reflexivity]); reflexivity.
Defined.


(** ** Units in the wrong half, numbers without unit *)

Lemma _parse_datetime_delta_halves_bad (s date time : str) :
  match_delta (upper s) = Some (date, time) ->
  Exists (malformed date_units) (findall_tokens date)
  \/ Exists (malformed time_units) (findall_tokens time) ->
  _parse_datetime_delta s = Raise ValueError.
Proof.
  intros Hm Hbad.
  destruct (tokens_direct s) as [Ed Et]. rewrite Hm in Ed, Et.
  rewrite <- Ed, <- Et in Hbad.
  destruct (_parse_datetime_delta_cases s)
    as [[_ R] | [[_ [_ R]] | [_ [Wd [Wt _]]]]]; try exact R.
  exfalso. destruct Hbad as [M | M];
    apply Exists_exists in M as [token [Hin Hm']].
  - rewrite Forall_forall in Wd.
    exact (well_formed_not_malformed _ _ (Wd token Hin) Hm').
  - rewrite Forall_forall in Wt.
    exact (well_formed_not_malformed _ _ (Wt token Hin) Hm').
Qed.

Lemma findall_from_digits (n : str) :
  forallb is_digit n = true -> forall digits, findall_from digits n = [].
Proof.
  induction n as [|c n IH]; intros H digits; [reflexivity|].
  cbn in H. apply andb_true_iff in H as [Hc Hn].
  cbn [findall_from]. rewrite Hc. now apply IH.
Qed.

(** The one token of a number and a letter, whatever digits follow it. *)
Lemma findall_one_token (n : str) (u : ascii) (tail : str) :
  is_number n -> is_upper u = true -> forallb is_digit tail = true ->
  findall_tokens (n ++ u :: tail) = [n ++ [u]].
Proof.
  intros [_ Hn] Hu Ht. unfold findall_tokens.
  rewrite findall_from_token by assumption.
  now rewrite findall_from_digits.
Qed.

Lemma match_delta_P (r : str) : match_delta ("P"%char :: r) = match_delta_tail r.
Proof. reflexivity. Qed.

Lemma malformed_unit (units : list str) (n : str) (u : ascii) :
  ~ In [u] units -> malformed units (n ++ [u]).
Proof. intros H. right. now rewrite token_unit_snoc. Qed.

(** X3.  The letter [M] stands for months before the separator and for
    minutes after it.  An hour or second count before the separator, and a
    year or day count after it, is not moved to its own half: the parser
    raises [ValueError]. *)
Theorem duration_unit_placement (str0 n : str) (sep : ascii) :
  is_number n -> is_sep sep = true ->
  (upper str0 = "P" ++ n ++ "M" ->
   _parse_datetime_delta str0 = Ok (mk_date_delta 0 (dec_value n) 0 0 0 0))
  /\ (upper str0 = "P" ++ sep :: n ++ "M" ->
      _parse_datetime_delta str0 = Ok (mk_date_delta 0 0 0 0 (dec_value n) 0))
  /\ (upper str0 = "P" ++ n ++ "H" \/ upper str0 = "P" ++ n ++ "S" ->
      _parse_datetime_delta str0 = Raise ValueError)
  /\ (upper str0 = "P" ++ sep :: n ++ "Y" \/ upper str0 = "P" ++ sep :: n ++ "D" ->
      _parse_datetime_delta str0 = Raise ValueError).
Proof.
  intros Hn Hsep. cbn [list_ascii_of_string app].
  assert (Sn : forallb not_sep n = true)
    by (apply number_chars; [exact digit_not_sep | exact Hn]).
  assert (Nn : forallb not_newline n = true)
    by (apply number_chars; [exact digit_not_newline | exact Hn]).
  assert (Date : forall u : ascii,
             not_sep u = true -> is_upper u = true ->
             upper str0 = "P"%char :: n ++ [u] ->
             match_delta (upper str0) = Some (n ++ [u], [])
             /\ findall_tokens (n ++ [u]) = [n ++ [u]]).
  { intros u Su Uu E. rewrite E, match_delta_P. split.
    - apply match_delta_tail_date_only. rewrite forallb_app. cbn.
      now rewrite Sn, Su.
    - now apply findall_one_token. }
  assert (Time : forall u : ascii,
             not_newline u = true -> is_upper u = true ->
             upper str0 = "P"%char :: sep :: n ++ [u] ->
             match_delta (upper str0) = Some ([], n ++ [u])
             /\ findall_tokens (n ++ [u]) = [n ++ [u]]).
  { intros u Nu Uu E. rewrite E, match_delta_P. split.
    - apply (match_delta_tail_split [] (n ++ [u]) sep); [reflexivity | exact Hsep|].
      rewrite forallb_app. cbn. now rewrite Nn, Nu.
    - now apply findall_one_token. }
  repeat split.
  - intros E. destruct (Date "M"%char eq_refl eq_refl E) as [Hm Ht].
    rewrite (_parse_datetime_delta_halves str0 _ _ Hm); rewrite ?Ht.
    + unfold last_from. cbn [fold_left findall_tokens findall_from].
      rewrite token_unit_snoc, token_value_snoc. reflexivity.
    + constructor; [|constructor]. apply well_formed_token; [exact Hn | cbn; auto].
    + constructor.
  - intros E. destruct (Time "M"%char eq_refl eq_refl E) as [Hm Ht].
    rewrite (_parse_datetime_delta_halves str0 _ _ Hm); rewrite ?Ht.
    + unfold last_from. cbn [fold_left findall_tokens findall_from].
      rewrite token_unit_snoc, token_value_snoc. reflexivity.
    + constructor.
    + constructor; [|constructor]. apply well_formed_token; [exact Hn | cbn; auto].
  - intros [E | E].
    + destruct (Date "H"%char eq_refl eq_refl E) as [Hm Ht].
      apply (_parse_datetime_delta_halves_bad str0 _ _ Hm). left. rewrite Ht.
      constructor. apply malformed_unit.
      intros [H | [H | [H | []]]]; discriminate.
    + destruct (Date "S"%char eq_refl eq_refl E) as [Hm Ht].
      apply (_parse_datetime_delta_halves_bad str0 _ _ Hm). left. rewrite Ht.
      constructor. apply malformed_unit.
      intros [H | [H | [H | []]]]; discriminate.
  - intros [E | E].
    + destruct (Time "Y"%char eq_refl eq_refl E) as [Hm Ht].
      apply (_parse_datetime_delta_halves_bad str0 _ _ Hm). right. rewrite Ht.
      constructor. apply malformed_unit.
      intros [H | [H | [H | []]]]; discriminate.
    + destruct (Time "D"%char eq_refl eq_refl E) as [Hm Ht].
      apply (_parse_datetime_delta_halves_bad str0 _ _ Hm). right. rewrite Ht.
      constructor. apply malformed_unit.
      intros [H | [H | [H | []]]]; discriminate.
Qed.

Lemma duration_unit_placement_witness :
  _parse_datetime_delta "P30M" = Ok (mk_date_delta 0 30 0 0 0 0)
  /\ _parse_datetime_delta "PT30M" = Ok (mk_date_delta 0 0 0 0 30 0)
  /\ _parse_datetime_delta "P30H" = Raise ValueError
  /\ _parse_datetime_delta "PT30D" = Raise ValueError.
Proof.
  assert (N : is_number "30") by (split; [discriminate | reflexivity]).
  split; [|split; [|split]].
  - apply (proj1 (duration_unit_placement "P30M" "30" "T"%char N eq_refl)). reflexivity.
  - apply (proj1 (proj2 (duration_unit_placement "PT30M" "30" "T"%char N eq_refl))).
    reflexivity.
  - apply (proj1 (proj2 (proj2 (duration_unit_placement "P30H" "30" "T"%char N eq_refl)))).
    now left.
  - apply (proj2 (proj2 (proj2 (duration_unit_placement "PT30D" "30" "T"%char N eq_refl)))).
    now right.
Defined.

(** X4.  A number that no unit letter follows is dropped without error: [P]
    and a number alone give the all-zero delta, and a number after the last
    token changes nothing. *)
Theorem duration_number_without_unit (str0 a n : str) :
  is_number a -> is_number n ->
  (upper str0 = "P" ++ n -> _parse_datetime_delta str0 = Ok zero_delta)
  /\ (upper str0 = "P" ++ a ++ "Y" ++ n ->
      _parse_datetime_delta str0 = Ok (mk_date_delta (dec_value a) 0 0 0 0 0)).
Proof.
  intros Ha Hn. cbn [list_ascii_of_string app].
  assert (Sa : forallb not_sep a = true)
    by (apply number_chars; [exact digit_not_sep | exact Ha]).
  assert (Sn : forallb not_sep n = true)
    by (apply number_chars; [exact digit_not_sep | exact Hn]).
  split; intros E.
  - assert (Hm : match_delta (upper str0) = Some (n, []))
      by (rewrite E, match_delta_P; now apply match_delta_tail_date_only).
    assert (Ht : findall_tokens n = [])
      by (apply findall_from_digits, Hn).
    rewrite (_parse_datetime_delta_halves str0 _ _ Hm); rewrite ?Ht;
      [reflexivity | constructor | constructor].
  - assert (Hm : match_delta (upper str0) = Some (a ++ "Y"%char :: n, [])).
    { rewrite E, match_delta_P. apply match_delta_tail_date_only.
      now apply forallb_snoc_sep. }
    assert (Ht : findall_tokens (a ++ "Y"%char :: n) = [a ++ ["Y"%char]])
      by (apply findall_one_token; [exact Ha | reflexivity | apply Hn]).
    rewrite (_parse_datetime_delta_halves str0 _ _ Hm); rewrite ?Ht.
    + unfold last_from. cbn [fold_left findall_tokens findall_from].
      rewrite token_unit_snoc, token_value_snoc. reflexivity.
    + constructor; [|constructor]. apply well_formed_token; [exact Ha | cbn; auto].
    + constructor.
Qed.

Lemma duration_number_without_unit_witness :
  _parse_datetime_delta "P12" = Ok zero_delta
  /\ _parse_datetime_delta "p7y12" = Ok (mk_date_delta 7 0 0 0 0 0).
Proof.
  assert (A : is_number "7") by (split; [discriminate | reflexivity]).
  assert (N : is_number "12") by (split; [discriminate | reflexivity]).
  split.
  - apply (proj1 (duration_number_without_unit "P12" "7" "12" A N)). reflexivity.
  - apply (proj2 (duration_number_without_unit "p7y12" "7" "12" A N)). reflexivity.
Defined.


(** ** Characters between the tokens *)

Lemma findall_from_junk (ds : str) (j : ascii) (rest : str) :
  forallb is_digit ds = true -> is_digit j = false -> is_upper j = false ->
  forall digits, findall_from digits (ds ++ j :: rest) = findall_from [] rest.
Proof.
  intros Hd Hj Hu. induction ds as [|d ds IH]; intros digits; cbn [app findall_from].
  - now rewrite Hj, Hu.
  - cbn in Hd. apply andb_true_iff in Hd as [Hd1 Hd2]. rewrite Hd1. now apply IH.
Qed.

(** X25.  A character that is neither a digit, a letter nor a separator is
    skipped together with the digits in front of it, without error: only the
    digits that stand directly before a unit letter count.  So a sign is
    ignored ([P-5D] is five days) and of a decimal fraction only the digits
    after the point are read ([P1.5D] is five days as well). *)
Theorem duration_other_characters_skipped (str0 a n : str) (j : ascii) :
  is_number a -> is_number n ->
  is_digit j = false -> is_upper j = false -> is_sep j = false ->
  (upper str0 = "P" ++ j :: n ++ "D" ->
   _parse_datetime_delta str0 = Ok (mk_date_delta 0 0 (dec_value n) 0 0 0))
  /\ (upper str0 = "P" ++ a ++ j :: n ++ "D" ->
      _parse_datetime_delta str0 = Ok (mk_date_delta 0 0 (dec_value n) 0 0 0)).
Proof.
  intros Ha Hn Hj Hu Hs. cbn [list_ascii_of_string app].
  assert (Sa : forallb not_sep a = true)
    by (apply number_chars; [exact digit_not_sep | exact Ha]).
  assert (Sn : forallb not_sep (n ++ ["D"%char]) = true).
  { rewrite forallb_app. cbn [forallb].
    rewrite (number_chars not_sep n digit_not_sep Hn). reflexivity. }
  assert (Sj : not_sep j = true) by (unfold not_sep; now rewrite Hs).
  assert (Tok : findall_from [] (n ++ ["D"%char]) = [n ++ ["D"%char]]).
  { rewrite findall_from_token; [reflexivity | apply Hn | reflexivity]. }
  assert (Res : forall date,
             match_delta (upper str0) = Some (date, []) ->
             findall_tokens date = [n ++ ["D"%char]] ->
             _parse_datetime_delta str0 = Ok (mk_date_delta 0 0 (dec_value n) 0 0 0)).
  { intros date Hm Ht.
    rewrite (_parse_datetime_delta_halves str0 _ _ Hm); rewrite ?Ht.
    - unfold last_from. cbn [fold_left findall_tokens findall_from].
      rewrite token_unit_snoc, token_value_snoc. reflexivity.
    - constructor; [|constructor]. apply well_formed_token; [exact Hn | cbn; auto].
    - constructor. }
  split; intros E.
  - apply (Res (j :: n ++ ["D"%char])).
    + rewrite E, match_delta_P. apply match_delta_tail_date_only.
      cbn [forallb]. now rewrite Sj, Sn.
    + unfold findall_tokens. cbn [findall_from]. now rewrite Hj, Hu.
  - apply (Res (a ++ j :: n ++ ["D"%char])).
    + rewrite E, match_delta_P. apply match_delta_tail_date_only.
      now apply forallb_snoc_sep.
    + unfold findall_tokens. rewrite findall_from_junk; [exact Tok | apply Ha | | ];
        assumption.
Qed.

Lemma duration_other_characters_skipped_witness :
  _parse_datetime_delta "P-5D" = Ok (mk_date_delta 0 0 5 0 0 0)
  /\ _parse_datetime_delta "P1.5D" = Ok (mk_date_delta 0 0 5 0 0 0).
Proof.
  assert (A : is_number "1") by (split; [discriminate | reflexivity]).
  assert (N : is_number "5") by (split; [discriminate | reflexivity]).
  split.
  - apply (proj1 (duration_other_characters_skipped "P-5D" "1" "5" "-"%char
                    A N eq_refl eq_refl eq_refl)).
    reflexivity.
  - apply (proj2 (duration_other_characters_skipped "P1.5D" "1" "5" "."%char
                    A N eq_refl eq_refl eq_refl)).
    reflexivity.
Defined.


(** ** Signs and sums of durations *)

Lemma dec_value_nonneg (s : str) : (0 <= dec_value s)%Z.
Proof.
  unfold dec_value.
  assert (H : forall acc, (0 <= acc)%Z ->
                          (0 <= fold_left (fun a c => 10 * a + digit_val c) s acc)%Z).
  { induction s as [|c s IH]; intros acc Hacc; cbn [fold_left]; [exact Hacc|].
    apply IH. unfold digit_val. lia. }
  apply H. lia.
Qed.

Lemma last_from_nonneg (u : str) (tokens : list str) :
  forall init, (0 <= init)%Z -> (0 <= last_from u tokens init)%Z.
Proof.
  unfold last_from. induction tokens as [|token tokens IH]; intros init Hi;
    cbn [fold_left]; [exact Hi|].
  apply IH. destruct (str_eqb (token_unit token) u); [|exact Hi].
  apply dec_value_nonneg.
Qed.

(** The conversion counts the seconds of the delta and divides by 86400. *)
Lemma float_days_seconds (delta : date_delta) :
  _datetime_delta_to_float_days delta == inject_Z (delta_seconds delta) / 86400.
Proof.
  unfold _datetime_delta_to_float_days, total_seconds.
  rewrite timedelta_of_delta. rewrite inject_Z_mult. field.
Qed.

Lemma inject_Z_div_nonneg (z : Z) : (0 <= z)%Z -> 0 <= inject_Z z / 86400.
Proof.
  intros H. apply Qle_shift_div_l; [reflexivity|].
  rewrite Qmult_0_l. change 0 with (inject_Z 0). now rewrite <- Zle_Qle.
Qed.

Lemma inject_Z_div_zero (z : Z) : inject_Z z / 86400 == 0 -> z = 0%Z.
Proof. unfold Qeq. cbn. lia. Qed.

(** X5.  A delta that the duration parser returns has no negative field, so
    its length in days is not negative either; and it is 0 days long only
    when all six fields are 0. *)
Theorem parsed_duration_not_negative (s : str) (delta : date_delta) :
  _parse_datetime_delta s = Ok delta ->
  delta_nonneg delta
  /\ 0 <= _datetime_delta_to_float_days delta
  /\ (_datetime_delta_to_float_days delta == 0 -> delta = zero_delta).
Proof.
  intros R.
  assert (Hn : delta_nonneg delta).
  { destruct (_parse_datetime_delta_cases s)
      as [[_ R'] | [[_ [_ R']] | [_ [_ [_ R']]]]]; rewrite R' in R;
      try discriminate.
    injection R as <-. unfold delta_nonneg. cbn [year month day hour minute second].
    repeat split; apply last_from_nonneg; lia. }
  split; [exact Hn|].
  destruct delta as [y m d h mi sec]. unfold delta_nonneg in Hn.
  cbn [year month day hour minute second] in Hn.
  assert (Hs : (0 <= delta_seconds (mk_date_delta y m d h mi sec))%Z)
    by (unfold delta_seconds; cbn [year month day hour minute second]; lia).
  split.
  - rewrite float_days_seconds. now apply inject_Z_div_nonneg.
  - rewrite float_days_seconds. intros E.
    assert (Z0 : delta_seconds (mk_date_delta y m d h mi sec) = 0%Z)
      by (apply inject_Z_div_zero, E).
    unfold delta_seconds in Z0. cbn [year month day hour minute second] in Z0.
    unfold zero_delta. f_equal; lia.
Qed.

Lemma parsed_duration_not_negative_witness :
  delta_nonneg (mk_date_delta 1 0 0 0 0 0)
  /\ 0 <= _datetime_delta_to_float_days (mk_date_delta 1 0 0 0 0 0).
Proof.
  destruct (parsed_duration_not_negative "P1Y" (mk_date_delta 1 0 0 0 0 0) eq_refl)
    as [H1 [H2 _]].
  now split.
Defined.

(** X6.  [parse_datetimestr_delta_to_float_days] composes the two steps: for
    a duration written as [P], well-formed date tokens, a separator and
    well-formed time tokens, it returns the seconds that the last token of
    each unit stands for (a year 31556952, a month 2629746, a day 86400, an
    hour 3600 and a minute 60 seconds), divided by the 86400 seconds of a
    day. *)
Theorem duration_string_in_days (s : str) (dts tts : list str) (sep : ascii) :
  Forall (well_formed date_units) dts ->
  Forall (well_formed time_units) tts ->
  is_sep sep = true ->
  upper s = "P"%char :: concat dts ++ sep :: concat tts ->
  exists days,
    parse_datetimestr_delta_to_float_days s = Ok days
    /\ days == inject_Z (last_from "D" dts 0 * 86400 + last_from "M" dts 0 * 2629746
                         + last_from "Y" dts 0 * 31556952 + last_from "H" tts 0 * 3600
                         + last_from "M" tts 0 * 60 + last_from "S" tts 0) / 86400.
Proof.
  intros Wd Wt Hsep Hs. unfold parse_datetimestr_delta_to_float_days.
  rewrite (_parse_datetime_delta_tokens s dts tts sep Wd Wt Hsep Hs). cbn [bind].
  eexists. split; [reflexivity|]. apply float_days_seconds.
Qed.

Lemma duration_string_in_days_witness :
  exists days,
    parse_datetimestr_delta_to_float_days "P1DT12H" = Ok days /\ days == 3 # 2.
Proof.
  destruct (duration_string_in_days "P1DT12H" ["1D" : str] ["12H" : str] "T"%char)
    as [days [R E]].
  - repeat apply Forall_cons; try apply Forall_nil;
      (split; [split; [discriminate | reflexivity] | cbn; auto 6]).
  - repeat apply Forall_cons; try apply Forall_nil;
      (split; [split; [discriminate | reflexivity] | cbn; auto 6]).
  - reflexivity.
  - reflexivity.
  - exists days. split; [exact R|]. rewrite E. reflexivity.
Defined.

(** X7.  The units of the conversion fit together: in exact arithmetic
    twelve months are as long as one year, twenty-four hours as one day, sixty
    minutes as one hour and sixty seconds as one minute, whatever the other
    fields hold. *)
Theorem float_days_carries (y m d h mi s k : Z) :
  _datetime_delta_to_float_days (mk_date_delta y (m + 12 * k) d h mi s)
  == _datetime_delta_to_float_days (mk_date_delta (y + k) m d h mi s)
  /\ _datetime_delta_to_float_days (mk_date_delta y m d (h + 24 * k) mi s)
     == _datetime_delta_to_float_days (mk_date_delta y m (d + k) h mi s)
  /\ _datetime_delta_to_float_days (mk_date_delta y m d h (mi + 60 * k) s)
     == _datetime_delta_to_float_days (mk_date_delta y m d (h + k) mi s)
  /\ _datetime_delta_to_float_days (mk_date_delta y m d h mi (s + 60 * k))
     == _datetime_delta_to_float_days (mk_date_delta y m d h (mi + k) s).
Proof.
  rewrite !float_days_seconds. unfold delta_seconds.
  cbn [year month day hour minute second].
  repeat split;
    match goal with
    | |- inject_Z ?a / _ == inject_Z ?b / _ => replace a with b by lia; reflexivity
    end.
Qed.


(** ** Further forms of a partial date/time *)

Lemma int_digits_stop (ds : str) (c : ascii) :
  forallb is_digit ds = true -> is_digit c = false -> c <> "_"%char ->
  forall acc b, int_digits acc b (ds ++ [c]) = None.
Proof.
  intros Hds Hc Hu. induction ds as [|d ds IH]; intros acc b.
  - cbn. rewrite Hc. apply Ascii.eqb_neq in Hu. now rewrite Hu.
  - cbn in Hds. apply andb_true_iff in Hds as [Hd Hds].
    cbn. rewrite Hd. now apply IH.
Qed.

Lemma digits_not_space (ds : str) :
  forallb is_digit ds = true -> forallb (fun c => negb (is_space c)) ds = true.
Proof.
  apply forallb_impl. intros c Hc. now rewrite (digit_not_space c Hc).
Qed.

(** A blank after the digits is stripped by [int]. *)
Lemma int_trailing_space (ds : str) :
  is_number ds -> int (ds ++ " ") = Ok (dec_value ds).
Proof.
  intros [Hne Hds]. rewrite <- (int_digits_ok ds Hne Hds).
  unfold int, int_of_str.
  assert (Hs : strip (ds ++ " ") = strip ds).
  { rewrite (strip_digits ds Hds). unfold strip. cbn [list_ascii_of_string].
    destruct ds as [|d ds]; [now elim Hne|].
    assert (Hd : is_digit d = true) by (cbn in Hds; now apply andb_true_iff in Hds).
    cbn [app drop_while]. rewrite (digit_not_space d Hd).
    change (d :: ds ++ [" "%char]) with ((d :: ds) ++ [" "%char]).
    rewrite rev_app_distr. cbn [rev app drop_while].
    change (is_space " ") with true. cbv iota.
    change (rev ds ++ [d]) with (rev (d :: ds)).
    rewrite drop_while_none by (apply digits_not_space, forallb_rev, Hds).
    apply rev_involutive. }
  now rewrite Hs.
Qed.

(** Any other character after the digits is kept, and [int] rejects it. *)
Lemma int_trailing_char (ds : str) (c : ascii) :
  is_number ds -> is_digit c = false -> is_space c = false -> c <> "_"%char ->
  int (ds ++ [c]) = Raise ValueError.
Proof.
  intros [Hne Hds] Hc Hsp Hu. unfold int.
  destruct ds as [|d ds]; [now elim Hne|].
  assert (Hd : is_digit d = true) by (cbn in Hds; now apply andb_true_iff in Hds).
  cbn [app]. rewrite int_of_str_unsigned.
  - change (d :: ds ++ [c]) with ((d :: ds) ++ [c]).
    now rewrite int_digits_stop.
  - now apply digit_not_minus.
  - now apply digit_not_plus.
  - unfold strip. cbn [drop_while]. rewrite (digit_not_space d Hd).
    change (d :: ds ++ [c]) with ((d :: ds) ++ [c]).
    rewrite rev_app_distr.
    change (rev [c] ++ rev (d :: ds)) with (c :: rev (d :: ds)).
    cbn [drop_while]. rewrite Hsp.
    change (c :: rev (d :: ds)) with (rev [c] ++ rev (d :: ds)).
    now rewrite <- rev_app_distr, rev_involutive.
Qed.

(** A separator at the very end leaves no time: the whole string is the date. *)
Lemma match_date_time_trailing (date : str) (sep : ascii) :
  forallb not_sep date = true -> is_sep sep = true ->
  match_date_time (date ++ [sep]) = None.
Proof.
  intros Hd Hsep. unfold match_date_time.
  destruct (take_while_stop not_sep date sep [] Hd) as [-> ->].
  { unfold not_sep. now rewrite Hsep. }
  now destruct date.
Qed.

Lemma parse_trailing_separator (date : str) (sep : ascii) :
  forallb not_sep date = true -> is_sep sep = true ->
  _parse_partial_datetime (date ++ [sep])
  = (date_components <- comprehension int (split "-" (date ++ [sep])) ;;
     if count_check (length date_components) 0
     then Raise ValueError
     else PartialDateTime_new (date_components ++ [])).
Proof.
  intros Hd Hsep. rewrite _parse_partial_datetime_unfold.
  destruct (parts_direct (date ++ [sep])) as [-> ->].
  now rewrite (match_date_time_trailing date sep Hd Hsep).
Qed.

Lemma split_ymd_tail (Y M D : str) (c : ascii) :
  is_number Y -> is_number M -> is_number D -> c <> "-"%char ->
  split "-" ((Y ++ "-" ++ M ++ "-" ++ D) ++ [c]) = [Y; M; D ++ [c]].
Proof.
  intros HY HM HD Hc.
  replace ((Y ++ "-" ++ M ++ "-" ++ D) ++ [c])
    with (Y ++ "-"%char :: (M ++ "-"%char :: (D ++ [c]))) by reassoc.
  rewrite split_app by number_chars. rewrite split_app by number_chars.
  rewrite split_no_sep; [reflexivity|].
  rewrite forallb_app. cbn [forallb].
  apply Ascii.eqb_neq in Hc. rewrite Hc. cbn [negb andb].
  rewrite andb_true_r. number_chars.
Qed.

(** X11.  A partial date may stop after the year or after the month: for
    numbers [Y] and [M], ["Y"] gives the year alone and ["Y-M"] the year and
    the month, every later component staying unspecified. *)
Theorem partial_datetime_short_forms (Y M : str) :
  is_number Y -> is_number M ->
  _parse_partial_datetime Y
  = Ok (mkPartialDateTime (Some (dec_value Y)) None None None None None)
  /\ _parse_partial_datetime (Y ++ "-" ++ M)
     = Ok (mkPartialDateTime (Some (dec_value Y)) (Some (dec_value M))
             None None None None).
Proof.
  intros HY HM. split.
  - rewrite (parse_date_only Y [dec_value Y]); [reflexivity | number_chars | | cbn; lia].
    rewrite split_no_sep by number_chars. cbn [comprehension].
    now rewrite int_number.
  - rewrite (parse_date_only _ [dec_value Y; dec_value M]);
      [reflexivity | cbn [list_ascii_of_string app]; number_chars | | cbn; lia].
    cbn [list_ascii_of_string app].
    rewrite split_app by number_chars. rewrite split_no_sep by number_chars.
    cbn [comprehension]. now rewrite !int_number.
Qed.

Lemma partial_datetime_short_forms_witness :
  _parse_partial_datetime "2010"
  = Ok (mkPartialDateTime (Some 2010%Z) None None None None None)
  /\ _parse_partial_datetime "2010-07"
     = Ok (mkPartialDateTime (Some 2010%Z) (Some 7%Z) None None None None).
Proof.
  apply (partial_datetime_short_forms "2010" "07");
    (split; [discriminate | reflexivity]).
Defined.

(** X12.  The three separators are interchangeable: when the date part is
    non-empty and free of separators and the time part is non-empty and free
    of line feeds, the result (value or error) is the same whether the two are
    joined by [T], a blank or a colon. *)
Theorem partial_datetime_any_separator (date time : str) (sep1 sep2 : ascii) :
  date <> [] -> forallb not_sep date = true ->
  time <> [] -> forallb not_newline time = true ->
  is_sep sep1 = true -> is_sep sep2 = true ->
  _parse_partial_datetime (date ++ sep1 :: time)
  = _parse_partial_datetime (date ++ sep2 :: time).
Proof.
  intros Hd Hds Ht Hts H1 H2.
  rewrite !_parse_partial_datetime_unfold.
  destruct (parts_direct (date ++ sep1 :: time)) as [-> ->].
  destruct (parts_direct (date ++ sep2 :: time)) as [-> ->].
  now rewrite !match_date_time_split by assumption.
Qed.

Lemma partial_datetime_any_separator_witness :
  _parse_partial_datetime "2010-07-01T12:30"
  = _parse_partial_datetime "2010-07-01 12:30".
Proof.
  apply (partial_datetime_any_separator "2010-07-01" "12:30" "T" " ");
    first [discriminate | reflexivity].
Defined.

(** X13.  A separator at the very end of the string is not a separator: the
    pattern needs a character of time after it, so the whole string is read as
    the date.  [int] strips a final blank, so ["Y-M-D "] is the date
    [Y-M-D]; a final [T] or colon stays in the day component and the string is
    rejected with [ValueError]. *)
Theorem partial_datetime_trailing_separator (Y M D : str) :
  is_number Y -> is_number M -> is_number D ->
  _parse_partial_datetime ((Y ++ "-" ++ M ++ "-" ++ D) ++ " ")
  = Ok (mkPartialDateTime (Some (dec_value Y)) (Some (dec_value M))
          (Some (dec_value D)) None None None)
  /\ _parse_partial_datetime ((Y ++ "-" ++ M ++ "-" ++ D) ++ "T")
     = Raise ValueError
  /\ _parse_partial_datetime ((Y ++ "-" ++ M ++ "-" ++ D) ++ ":")
     = Raise ValueError.
Proof.
  intros HY HM HD.
  assert (Hsep : forallb not_sep (Y ++ "-" ++ M ++ "-" ++ D) = true)
    by (cbn [list_ascii_of_string app]; number_chars).
  split; [|split].
  - change (" " : str) with [" "%char].
    rewrite (parse_trailing_separator _ " " Hsep eq_refl).
    rewrite split_ymd_tail by (assumption || discriminate).
    cbn [comprehension]. rewrite !int_number by assumption.
    change [" "%char] with (" " : str). rewrite (int_trailing_space D HD).
    reflexivity.
  - change ("T" : str) with ["T"%char].
    rewrite (parse_trailing_separator _ "T" Hsep eq_refl).
    rewrite split_ymd_tail by (assumption || discriminate).
    cbn [comprehension]. rewrite !int_number by assumption.
    rewrite (int_trailing_char D "T" HD) by (reflexivity || discriminate).
    reflexivity.
  - change (":" : str) with [":"%char].
    rewrite (parse_trailing_separator _ ":" Hsep eq_refl).
    rewrite split_ymd_tail by (assumption || discriminate).
    cbn [comprehension]. rewrite !int_number by assumption.
    rewrite (int_trailing_char D ":" HD) by (reflexivity || discriminate).
    reflexivity.
Qed.

Lemma partial_datetime_trailing_separator_witness :
  _parse_partial_datetime "2010-07-01 "
  = Ok (mkPartialDateTime (Some 2010%Z) (Some 7%Z) (Some 1%Z) None None None)
  /\ _parse_partial_datetime "2010-07-01T" = Raise ValueError
  /\ _parse_partial_datetime "2010-07-01:" = Raise ValueError.
Proof.
  apply (partial_datetime_trailing_separator "2010" "07" "01");
    (split; [discriminate | reflexivity]).
Defined.

(** X14.  The empty string, and every string that starts with a dash, is
    rejected with [ValueError]: the text before the first dash is a date
    component, and [int] does not read the empty string.  A year cannot be
    written with a sign. *)
Theorem partial_datetime_no_leading_dash (rest : str) :
  _parse_partial_datetime [] = Raise ValueError
  /\ _parse_partial_datetime ("-"%char :: rest) = Raise ValueError.
Proof.
  split; [reflexivity|].
  destruct (_parse_partial_datetime_cases ("-"%char :: rest))
    as [[_ R] | [[_ [_ R]] | [F _]]]; try exact R.
  exfalso. apply Forall_app in F as [_ F].
  destruct (parts_direct ("-"%char :: rest)) as [Hd _]. rewrite Hd in F.
  assert (Hhead : exists l,
             split "-" match match_date_time ("-"%char :: rest) with
                       | Some (date, _) => date
                       | None => "-"%char :: rest
                       end = [] :: l).
  { destruct (match_date_time ("-"%char :: rest)) as [[date time]|] eqn:E.
    - apply match_date_time_date in E. subst date.
      cbn [take_while]. change (not_sep "-") with true. cbv iota.
      cbn [split]. rewrite Ascii.eqb_refl. eauto.
    - cbn [split]. rewrite Ascii.eqb_refl. eauto. }
  destruct Hhead as [l Hl]. rewrite Hl in F.
  inversion F as [|? ? Hnil _]. now apply Hnil.
Qed.


(** ** [parse_partial_datetime]: what is reported *)

Section ReportingFacts.

Variable parser : Type.
Variable parser_error : str -> parser -> result parser.

(** X8.  [parse_partial_datetime] returns no value and leaves the parser
    alone when it is given [None] or the string ['None'].  On any other string
    it calls [parser.error] exactly when a component is not an integer or the
    count rule is violated, once and with the message
    ['<string>' is not a valid <name>], and then returns no value; otherwise
    it returns the parsed value and does not touch the parser.  It raises
    nothing of its own. *)
Theorem parse_partial_datetime_reports (s name : str) (p : parser) :
  parse_partial_datetime parser parser_error None name p = Ok (None, p)
  /\ parse_partial_datetime parser parser_error (Some ("None" : str)) name p
     = Ok (None, p)
  /\ (s <> "None" ->
      (Exists not_an_integer (time_parts s ++ date_parts s) \/ count_rule_violated s ->
       parse_partial_datetime parser parser_error (Some s) name p
       = (p' <- parser_error ("'" ++ s ++ "' is not a valid " ++ name) p ;;
          Ok (None, p')))
      /\ (~ (Exists not_an_integer (time_parts s ++ date_parts s)
             \/ count_rule_violated s) ->
          exists dt,
            _parse_partial_datetime s = Ok dt
            /\ parse_partial_datetime parser parser_error (Some s) name p
               = Ok (Some dt, p))).
Proof.
  split; [reflexivity|]. split; [reflexivity|].
  intros Hs. unfold parse_partial_datetime.
  rewrite (str_eqb_neq _ _ Hs).
  destruct (_parse_partial_datetime_cases s)
    as [[E R] | [[F [V R]] | [F [V [dt R]]]]]; rewrite R.
  - split; [reflexivity|]. intros H. elim H. now left.
  - split; [reflexivity|]. intros H. elim H. now right.
  - split.
    + intros [E | V']; [|now elim V].
      apply Exists_exists in E as [t [Hin Ht]].
      rewrite Forall_forall in F. now elim (F t Hin).
    + intros _. now exists dt.
Qed.

End ReportingFacts.

Lemma parse_partial_datetime_reports_witness :
  parse_partial_datetime (list str) (fun msg log => Ok (msg :: log))
    (Some ("2010-01:12" : str)) "start" []
  = Ok (None, ["'2010-01:12' is not a valid start" : str]).
Proof.
  assert (H : ("2010-01:12" : str) <> "None") by discriminate.
  destruct (parse_partial_datetime_reports (list str) (fun msg log => Ok (msg :: log))
              "2010-01:12" "start" []) as [_ [_ Hrep]].
  rewrite (proj1 (Hrep H)); [reflexivity|].
  right. unfold count_rule_violated. vm_compute. lia.
Defined.

(** ** The coercion of a command-line value *)

Section CoercionFacts2.

Variable float : Type.
Variable py_float : str -> result float.
Variable datetime : Type.
Variable du_parse : str -> result datetime.

(** X9.  A number written with digits alone is returned by
    [parse_as_number_or_partial_datetime] as that integer, whatever
    [float] and the date/time parser would make of it: a bare year such as
    2010 is never read as a date. *)
Theorem number_literal_is_int (n : str) :
  is_number n ->
  parse_as_number_or_partial_datetime float py_float datetime du_parse n
  = Ok (VInt float datetime (dec_value n)).
Proof.
  intros Hn. rewrite parse_as_number_or_partial_datetime_chain.
  now rewrite (int_number n Hn).
Qed.

(** X10.  [parse_as_number_or_partial_datetime] never ends in [ValueError]:
    each [ValueError] of a conversion moves on to the next one, and the last
    becomes the [ArgumentTypeError] with the message
    ['<string>' is not a valid value.]. *)
Theorem coercion_never_ValueError (string : str) :
  parse_as_number_or_partial_datetime float py_float datetime du_parse string
  <> Raise ValueError.
Proof.
  rewrite parse_as_number_or_partial_datetime_chain.
  destruct (int string); [discriminate|].
  destruct (py_float string) as [x|[]]; try discriminate.
  destruct (du_parse string) as [d|[]]; try discriminate.
  destruct (_parse_datetime_delta string); discriminate.
Qed.

End CoercionFacts2.

Lemma number_literal_is_int_witness :
  parse_as_number_or_partial_datetime unit (fun _ => Ok tt) unit (fun _ => Ok tt) "2010"
  = Ok (VInt unit unit 2010).
Proof.
  apply (number_literal_is_int unit (fun _ => Ok tt) unit (fun _ => Ok tt) "2010").
  split; [discriminate | reflexivity].
Defined.


End parse_datetime_facts.

(* ===================================================================== *)
(** * Properties of [GriddedData.set_longitude_range] *)
(* ===================================================================== *)

Module gridded_data_facts.

Import gridded_data.

Open Scope Q_scope.

(** ** Comparisons *)

Lemma Qltb_lt (x y : Q) : Qltb x y = true <-> x < y.
Proof.
  unfold Qltb. rewrite negb_true_iff. split.
  - intros H. apply Qnot_le_lt. intros L. apply Qle_bool_iff in L. congruence.
  - intros H. destruct (Qle_bool y x) eqn:E; [|reflexivity].
    apply Qle_bool_iff in E. exfalso. exact (Qlt_not_le _ _ H E).
Qed.

Lemma Qltb_ge (x y : Q) : Qltb x y = false <-> y <= x.
Proof.
  unfold Qltb. rewrite negb_false_iff. apply Qle_bool_iff.
Qed.

(** ** [searchsorted] *)

(** Below every point the bisection stays at its lower end. *)
Lemma bisect_left_all_ge (a : list Q) (v : Q) :
  (forall i, (i < length a)%nat -> v <= nth i a 0) ->
  forall fuel lo hi, (hi <= length a)%nat -> bisect_left fuel a v lo hi = lo.
Proof.
  intros Hge. induction fuel as [|fuel IH]; intros lo hi Hhi; [reflexivity|].
  cbn [bisect_left]. destruct (Nat.ltb_spec lo hi) as [Hlt|]; [|reflexivity].
  assert (Hmid : (lo + (hi - lo) / 2 < hi)%nat).
  { pose proof (Nat.Div0.div_lt_upper_bound (hi - lo) 2 (hi - lo)). lia. }
  assert (E : Qltb (nth (lo + (hi - lo) / 2) a 0) v = false).
  { apply Qltb_ge, Hge. lia. }
  rewrite E. apply IH. lia.
Qed.

(** Above every point it runs to its upper end. *)
Lemma bisect_left_all_lt (a : list Q) (v : Q) :
  (forall i, (i < length a)%nat -> nth i a 0 < v) ->
  forall fuel lo hi,
    (lo <= hi)%nat -> (hi <= length a)%nat -> (hi - lo <= fuel)%nat ->
    bisect_left fuel a v lo hi = hi.
Proof.
  intros Hlt. induction fuel as [|fuel IH]; intros lo hi Hlo Hhi Hfuel.
  - cbn. lia.
  - cbn [bisect_left]. destruct (Nat.ltb_spec lo hi) as [Hl|]; [|lia].
    assert (Hmid : (lo + (hi - lo) / 2 < hi)%nat).
    { pose proof (Nat.Div0.div_lt_upper_bound (hi - lo) 2 (hi - lo)). lia. }
    assert (E : Qltb (nth (lo + (hi - lo) / 2) a 0) v = true).
    { apply Qltb_lt, Hlt. lia. }
    rewrite E. apply IH; lia.
Qed.

Lemma Forall_nth_Q (P : Q -> Prop) (a : list Q) :
  Forall P a -> forall i, (i < length a)%nat -> P (nth i a 0).
Proof. intros H i Hi. rewrite Forall_forall in H. now apply H, nth_In. Qed.

Lemma searchsorted_all_ge (a : list Q) (v : Q) :
  Forall (fun p => v <= p) a -> searchsorted a v = 0%nat.
Proof.
  intros H. unfold searchsorted. apply bisect_left_all_ge; [|lia].
  exact (Forall_nth_Q _ a H).
Qed.

Lemma searchsorted_all_lt (a : list Q) (v : Q) :
  Forall (fun p => p < v) a -> searchsorted a v = length a.
Proof.
  intros H. unfold searchsorted. apply bisect_left_all_lt; try lia.
  exact (Forall_nth_Q _ a H).
Qed.

(** ** [searchsorted] on increasing points *)




(** ** [roll] and the masks *)




Lemma masked_update_map {A : Type} (f : A -> A) (m : A -> bool) (a : list A) :
  masked_update f (map m a) a = Ok (map (fun x => if m x then f x else x) a).
Proof.
  induction a as [|x a IH]; cbn; [reflexivity|]. now rewrite IH.
Qed.

Lemma masked_update_ok {A : Type} (f : A -> A) (mask : list bool) (a : list A) :
  length mask = length a -> exists a', masked_update f mask a = Ok a'.
Proof.
  revert a. induction mask as [|m mask IH]; intros [|x a] H; try discriminate.
  - now eexists.
  - cbn. destruct (IH a) as [a' ->]; [now injection H|]. now eexists.
Qed.


(** ** Finding the longitude coordinate *)

Lemma name_eqb_eq (a b : option string) : name_eqb a b = true <-> a = b.
Proof.
  destruct a as [x|], b as [y|]; cbn; try (split; (discriminate || reflexivity)).
  rewrite String.eqb_eq. split; congruence.
Qed.

Lemma points_eqb_refl (a : list Q) : points_eqb a a = true.
Proof. induction a as [|x a IH]; cbn; [reflexivity|]. now rewrite Qeq_bool_refl. Qed.

Lemma bounds_eqb_refl (a : list (Q * Q)) : bounds_eqb a a = true.
Proof.
  induction a as [|[x y] a IH]; cbn; [reflexivity|].
  now rewrite !Qeq_bool_refl.
Qed.

Lemma coord_eqb_refl (c : DimCoord) : coord_eqb c c = true.
Proof.
  unfold coord_eqb. rewrite (proj2 (name_eqb_eq _ _) eq_refl), points_eqb_refl.
  destruct (bounds c); [apply bounds_eqb_refl | reflexivity].
Qed.

Lemma coord_eqb_name (c d : DimCoord) :
  coord_eqb c d = true -> standard_name c = standard_name d.
Proof.
  unfold coord_eqb. intros H.
  apply andb_true_iff in H as [H _]. apply andb_true_iff in H as [H _].
  now apply name_eqb_eq.
Qed.

(** The first element kept by a filter, and what stands before it. *)
Lemma filter_first {A : Type} (p : A -> bool) (l : list A) (x : A) (r : list A) :
  filter p l = x :: r ->
  exists pre post, l = pre ++ x :: post /\ forallb (fun y => negb (p y)) pre = true
                   /\ p x = true.
Proof.
  induction l as [|y l IH]; cbn; [discriminate|].
  destruct (p y) eqn:E.
  - intros [= -> _]. now exists [], l.
  - intros H. destruct (IH H) as [pre [post [-> [Hpre Hx]]]].
    exists (y :: pre), post. cbn. now rewrite E, Hpre.
Qed.

Lemma index_from_skip (c : DimCoord) (pre post : list DimCoord) (i : nat) :
  forallb (fun y => negb (coord_eqb y c)) pre = true ->
  index_from coord_eqb c (pre ++ c :: post) i = Ok (i + length pre)%nat.
Proof.
  revert i. induction pre as [|y pre IH]; intros i H; cbn [app index_from length].
  - rewrite coord_eqb_refl. f_equal. lia.
  - cbn in H. apply andb_true_iff in H as [Hy Hpre].
    apply negb_true_iff in Hy. rewrite Hy, IH by assumption. f_equal. lia.
Qed.

(** The first coordinate named [name], when it is a dimension coordinate, is
    found by [index] at its own position. *)
Lemma index_of_first_named (self : GriddedData) (name : string) (c : DimCoord)
      (others : list coord_ref) :
  coords self name = DimRef c :: others ->
  exists pre post,
    dim_coords self = pre ++ c :: post
    /\ index coord_eqb (dim_coords self) c = Ok (length pre)
    /\ standard_name c = Some name.
Proof.
  unfold coords. intros H.
  destruct (filter _ (dim_coords self)) as [|x r] eqn:F.
  - cbn in H. destruct (filter _ (map fst _)); discriminate.
  - cbn in H. injection H as -> _.
    destruct (filter_first _ _ _ _ F) as [pre [post [E [Hpre Hc]]]].
    apply name_eqb_eq in Hc.
    exists pre, post. repeat split; [exact E | | exact Hc].
    unfold index. rewrite E. apply (index_from_skip c pre post 0).
    revert Hpre. apply PyFacts.forallb_impl. intros y Hy.
    apply negb_true_iff in Hy. apply negb_true_iff.
    destruct (coord_eqb y c) eqn:Eq; [|reflexivity].
    apply coord_eqb_name in Eq. rewrite Eq, Hc in Hy.
    now rewrite (proj2 (name_eqb_eq _ _) eq_refl) in Hy.
Qed.

Lemma update_at_middle {A : Type} (f : A -> A) (pre post : list A) (x : A) :
  update_at (length pre) f (pre ++ x :: post) = pre ++ f x :: post.
Proof. induction pre as [|y pre IH]; cbn; [reflexivity | now rewrite IH]. Qed.

(** A cube without any coordinate named [name]. *)
Lemma coords_none (self : GriddedData) (name : string) :
  Forall (fun c => standard_name c <> Some name) (dim_coords self) ->
  Forall (fun ad => aux_standard_name (fst ad) <> Some name) (aux_coords_and_dims self) ->
  coords self name = [].
Proof.
  intros Hd Ha. unfold coords.
  assert (Fd : filter (fun c => name_eqb (standard_name c) (Some name)) (dim_coords self) = []).
  { induction Hd as [|c l Hc _ IH]; cbn; [reflexivity|].
    destruct (name_eqb (standard_name c) (Some name)) eqn:E; [|exact IH].
    apply name_eqb_eq in E. now elim Hc. }
  assert (Fa : filter (fun a => name_eqb (aux_standard_name a) (Some name))
                      (map fst (aux_coords_and_dims self)) = []).
  { induction Ha as [|ad l Hc _ IH]; cbn; [reflexivity|].
    destruct (name_eqb (aux_standard_name (fst ad)) (Some name)) eqn:E; [|exact IH].
    apply name_eqb_eq in E. now elim Hc. }
  now rewrite Fd, Fa.
Qed.

(** ** The auxiliary coordinates *)

Lemma index_from_found (x : nat) (l : list nat) (i : nat) :
  existsb (Nat.eqb x) l = true -> exists k, index_from Nat.eqb x l i = Ok k.
Proof.
  revert i. induction l as [|y l IH]; intros i; cbn; [discriminate|].
  rewrite (Nat.eqb_sym x y). destruct (y =? x)%nat; [eauto | apply IH].
Qed.

Lemma roll_aux_coords_ok (lon_idx : nat) (sh : Z) (aux : list (AuxCoord * list nat)) :
  exists aux', roll_aux_coords lon_idx sh aux = Ok aux'.
Proof.
  unfold roll_aux_coords, index.
  induction aux as [|[a dims] aux [aux' IH]]; cbn [comprehension]; [now eexists|].
  destruct (existsb (Nat.eqb lon_idx) dims) eqn:E.
  - destruct (index_from_found lon_idx dims 0 E) as [k Hk].
    rewrite Hk. cbn [bind]. rewrite IH. cbn [bind]. now eexists.
  - cbn [bind]. rewrite IH. cbn [bind]. now eexists.
Qed.

(** ** Arrays, masks and element types *)

Lemma roll_zero {A : Type} (a : list A) : roll a 0 = a.
Proof.
  unfold roll. destruct (length a) as [|n] eqn:E; [reflexivity|].
  rewrite Zmod_0_l. cbn [Z.to_nat]. rewrite Nat.sub_0_r, <- E.
  now rewrite skipn_all, firstn_all.
Qed.

Lemma np_roll_zero (axis : nat) : forall a, np_roll a 0 axis = a.
Proof.
  induction axis as [|axis IH]; intros [x|items]; cbn; try reflexivity.
  - now rewrite roll_zero.
  - f_equal. rewrite <- (map_id items) at 2. apply map_ext. exact IH.
Qed.





Lemma iadd_where_float {A : Type} (f : A -> A) (mask : list bool) (a : list A) :
  iadd_where float64 f mask a = masked_update f mask a.
Proof. unfold iadd_where. now destruct (masked_update f mask a). Qed.

(** An in-place addition on integers that reaches the sum is refused. *)
Lemma iadd_where_int {A : Type} (f : A -> A) (m : A -> bool) (a : list A) :
  iadd_where int64 f (map m a) a = Raise TypeError.
Proof. unfold iadd_where. now rewrite masked_update_map. Qed.

(** ** The place of the longitude among the dimension coordinates *)

Lemma forallb_map_fst {A B : Type} (p : A -> bool) (l : list (A * B)) :
  forallb p (map fst l) = forallb (fun y => p (fst y)) l.
Proof. induction l as [|y l IH]; cbn; [reflexivity | now rewrite IH]. Qed.

(** The first coordinate named [name], when it is a dimension coordinate,
    stands at the position [index] finds, after coordinates of other names,
    and is paired with the data dimension it describes. *)
Lemma position_of_first_named (self : GriddedData) (name : string) (c : DimCoord)
      (others : list coord_ref) :
  coords self name = DimRef c :: others ->
  exists pre dim post,
    dim_coords_and_dims self = pre ++ (c, dim) :: post
    /\ index coord_eqb (dim_coords self) c = Ok (length pre)
    /\ standard_name c = Some name
    /\ forallb (fun y => negb (name_eqb (standard_name (fst y)) (Some name))) pre = true.
Proof.
  unfold coords. intros H.
  destruct (filter _ (dim_coords self)) as [|x r] eqn:F.
  - cbn in H. destruct (filter _ (map fst _)); discriminate.
  - cbn in H. injection H as -> _.
    destruct (filter_first _ _ _ _ F) as [pre [post [E [Hpre Hc]]]].
    apply name_eqb_eq in Hc.
    unfold dim_coords in E.
    apply map_eq_app in E as [pre' [rest [E [<- Hrest]]]].
    destruct rest as [|[c' dim] post']; [discriminate|].
    cbn [map fst] in Hrest. injection Hrest as -> <-.
    exists pre', dim, post'. split; [exact E|]. split; [|split; [exact Hc|]].
    + unfold index, dim_coords. rewrite E, map_app. cbn [map fst].
      rewrite <- (length_map fst pre').
      apply (index_from_skip c (map fst pre') (map fst post') 0).
      revert Hpre. apply PyFacts.forallb_impl. intros y Hy.
      apply negb_true_iff in Hy. apply negb_true_iff.
      destruct (coord_eqb y c) eqn:Eq; [|reflexivity].
      apply coord_eqb_name in Eq. rewrite Eq, Hc in Hy.
      now rewrite (proj2 (name_eqb_eq _ _) eq_refl) in Hy.
    + now rewrite forallb_map_fst in Hpre.
Qed.

Lemma dim_coords_middle (self : GriddedData) (pre post : list (DimCoord * nat))
      (c : DimCoord) (dim : nat) :
  dim_coords_and_dims self = pre ++ (c, dim) :: post ->
  dim_coords self = map fst pre ++ c :: map fst post.
Proof. unfold dim_coords. intros ->. now rewrite map_app. Qed.

(** With the dimensions in order, a coordinate describes the dimension of its
    position. *)
Lemma dimensions_in_order_middle (self : GriddedData) (pre post : list (DimCoord * nat))
      (c : DimCoord) (dim : nat) :
  dimensions_in_order self ->
  dim_coords_and_dims self = pre ++ (c, dim) :: post ->
  dim = length pre.
Proof.
  unfold dimensions_in_order. intros H E. rewrite E in H.
  assert (Hn : nth (length pre) (map snd (pre ++ (c, dim) :: post)) 0%nat = dim).
  { rewrite map_app. cbn [map snd].
    rewrite <- (length_map snd pre). apply nth_middle. }
  rewrite H in Hn. rewrite seq_nth in Hn; [now symmetry|].
  rewrite length_app. cbn [length]. lia.
Qed.

(** ** [set_longitude_range] *)

(** No rotation is decided when the two insertion points are at the ends. *)
Lemma rotate_longitudes_none (c : DimCoord) (rb : bool) (range_start : Q) :
  (searchsorted (points c) range_start = 0%nat
   \/ searchsorted (points c) range_start = length (points c)) ->
  (searchsorted (points c) (float_add range_start 360) = 0%nat
   \/ searchsorted (points c) (float_add range_start 360) = length (points c)) ->
  rotate_longitudes c rb range_start = Ok (mkRotation 0 None None).
Proof.
  intros H1 H2. unfold rotate_longitudes.
  assert (G1 : (0 <? searchsorted (points c) range_start)%nat
               && (searchsorted (points c) range_start <? length (points c))%nat = false).
  { destruct H1 as [-> | ->]; [reflexivity|].
    rewrite Nat.ltb_irrefl. apply andb_false_r. }
  assert (G2 : (0 <? searchsorted (points c) (float_add range_start 360))%nat
               && (searchsorted (points c) (float_add range_start 360)
                   <? length (points c))%nat
               = false).
  { destruct H2 as [-> | ->]; [reflexivity|].
    rewrite Nat.ltb_irrefl. apply andb_false_r. }
  now rewrite G1, G2.
Qed.


Section SetterFacts.

Variable check_points : DimCoord -> list Q -> result unit.
Variable check_bounds : DimCoord -> option (list (Q * Q)) -> result unit.

Local Abbreviation set_longitude_range :=
  (gridded_data.set_longitude_range check_points check_bounds).

(** C8.  On a cube that has no coordinate with the standard name longitude,
    neither among its dimension coordinates nor among its auxiliary ones,
    [set_longitude_range] returns without raising and leaves the cube as it
    was: points, bounds, auxiliary coordinates and data. *)
Theorem no_longitude_no_change (range_start : Q) (self : GriddedData) :
  Forall (fun c => standard_name c <> Some "longitude"%string) (dim_coords self) ->
  Forall (fun ad => aux_standard_name (fst ad) <> Some "longitude"%string)
         (aux_coords_and_dims self) ->
  set_longitude_range range_start self = Ok self.
Proof.
  intros Hd Ha. unfold gridded_data.set_longitude_range.
  now rewrite (coords_none self "longitude" Hd Ha).
Qed.

(** The method on a cube whose longitude is a dimension coordinate, step by
    step. *)
Lemma set_longitude_range_steps (range_start : Q) (self : GriddedData)
      (lon_coord : DimCoord) (others : list coord_ref)
      (pre post : list (DimCoord * nat)) (dim : nat) :
  coords self "longitude" = DimRef lon_coord :: others ->
  dim_coords_and_dims self = pre ++ (lon_coord, dim) :: post ->
  index coord_eqb (dim_coords self) lon_coord = Ok (length pre) ->
  set_longitude_range range_start self
  = (r <- rotate_longitudes lon_coord (has_bounds lon_coord) range_start ;;
     if (shift r =? 0)%Z then Ok self
     else
       aux <- roll_aux_coords (length pre) (shift r) (aux_coords_and_dims self) ;;
       _ <- match new_lon_points r with
            | Some p => check_points lon_coord p
            | None => Ok tt
            end ;;
       _ <- (if has_bounds lon_coord
             then check_bounds (with_rotation r false lon_coord) (new_lon_bounds r)
             else Ok tt) ;;
       Ok (mkGriddedData (np_roll (data self) (shift r) (length pre))
             (pre ++ (with_rotation r (has_bounds lon_coord) lon_coord, dim) :: post)
             aux)).
Proof.
  intros Hc Hd Hi. unfold gridded_data.set_longitude_range.
  rewrite Hc, Hi. cbn [bind].
  assert (Hn : nth (length pre) (dim_coords self) lon_coord = lon_coord).
  { rewrite (dim_coords_middle _ _ _ _ _ Hd), <- (length_map fst pre).
    apply nth_middle. }
  rewrite Hn.
  destruct (rotate_longitudes lon_coord (has_bounds lon_coord) range_start) as [r|];
    [|reflexivity].
  cbn [bind]. destruct (shift r =? 0)%Z; [reflexivity|].
  now rewrite Hd, update_at_middle.
Qed.

Lemma set_longitude_range_no_rotation (range_start : Q) (self : GriddedData)
      (lon_coord : DimCoord) (others : list coord_ref) :
  coords self "longitude" = DimRef lon_coord :: others ->
  (forall rb, rotate_longitudes lon_coord rb range_start = Ok (mkRotation 0 None None)) ->
  set_longitude_range range_start self = Ok self.
Proof.
  intros Hc Hr.
  destruct (position_of_first_named _ _ _ _ Hc) as [pre [dim [post [Hd [Hi _]]]]].
  rewrite (set_longitude_range_steps _ _ _ _ _ _ _ Hc Hd Hi).
  now rewrite Hr.
Qed.

(** C3.  When every point of the longitude dimension coordinate already lies
    in [range_start <= p < range_start + 360], [set_longitude_range] decides
    no rotation ([shift] stays 0, no new points, no new bounds) and returns the
    cube as it was: points, bounds, auxiliary coordinates and data.  (The
    points need not even be increasing for this.  The upper edge of the window
    is the double that [range_start + 360.] is, as in the code.) *)
Theorem in_range_no_change (range_start : Q) (self : GriddedData)
        (lon_coord : DimCoord) (others : list coord_ref) :
  coords self "longitude" = DimRef lon_coord :: others ->
  Forall (in_window range_start) (points lon_coord) ->
  (forall roll_bounds,
      rotate_longitudes lon_coord roll_bounds range_start = Ok (mkRotation 0 None None))
  /\ set_longitude_range range_start self = Ok self.
Proof.
  intros Hc Hin.
  assert (Hr : forall rb,
             rotate_longitudes lon_coord rb range_start = Ok (mkRotation 0 None None)).
  { intros rb. apply rotate_longitudes_none.
    - left. apply searchsorted_all_ge. revert Hin. apply Forall_impl.
      unfold in_window. tauto.
    - right. apply searchsorted_all_lt. revert Hin. apply Forall_impl.
      unfold in_window. tauto. }
  split; [exact Hr|].
  exact (set_longitude_range_no_rotation _ _ _ _ Hc Hr).
Qed.

(** What the method returns, when it returns, on a cube whose longitude is a
    dimension coordinate. *)
Lemma set_longitude_range_returns (range_start : Q) (self after : GriddedData)
      (lon_coord : DimCoord) (others : list coord_ref) :
  coords self "longitude" = DimRef lon_coord :: others ->
  set_longitude_range range_start self = Ok after ->
  exists pre dim post r,
    dim_coords_and_dims self = pre ++ (lon_coord, dim) :: post
    /\ forallb (fun y => negb (name_eqb (standard_name (fst y))
                                        (Some "longitude"%string))) pre = true
    /\ standard_name lon_coord = Some "longitude"%string
    /\ rotate_longitudes lon_coord (has_bounds lon_coord) range_start = Ok r
    /\ ((shift r = 0%Z /\ after = self)
        \/ (shift r <> 0%Z
            /\ exists aux,
                 roll_aux_coords (length pre) (shift r) (aux_coords_and_dims self) = Ok aux
                 /\ after
                    = mkGriddedData (np_roll (data self) (shift r) (length pre))
                        (pre ++ (with_rotation r (has_bounds lon_coord) lon_coord, dim)
                             :: post)
                        aux)).
Proof.
  intros Hc H.
  destruct (position_of_first_named _ _ _ _ Hc) as [pre [dim [post [Hd [Hi [Hn Hpre]]]]]].
  rewrite (set_longitude_range_steps _ _ _ _ _ _ _ Hc Hd Hi) in H.
  destruct (rotate_longitudes lon_coord (has_bounds lon_coord) range_start) as [r|];
    [|discriminate].
  cbn [bind] in H. exists pre, dim, post, r.
  repeat (split; [assumption || reflexivity|]).
  destruct (Z.eqb_spec (shift r) 0) as [E|E].
  - left. injection H as <-. now split.
  - right. split; [exact E|].
    destruct (roll_aux_coords _ _ _) as [aux|]; [|discriminate]. cbn [bind] in H.
    destruct (match new_lon_points r with
              | Some p => check_points lon_coord p
              | None => Ok tt
              end); [|discriminate].
    cbn [bind] in H.
    destruct (if has_bounds lon_coord
              then check_bounds (with_rotation r false lon_coord) (new_lon_bounds r)
              else Ok tt); [|discriminate].
    cbn [bind] in H. injection H as <-. now exists aux.
Qed.

(** Points that all lie below the window are left where they are. *)
Lemma below_window_no_change (range_start : Q) (self : GriddedData)
      (lon_coord : DimCoord) (others : list coord_ref) :
  coords self "longitude" = DimRef lon_coord :: others ->
  range_start <= float_add range_start 360 ->
  Forall (fun p => p < range_start) (points lon_coord) ->
  set_longitude_range range_start self = Ok self.
Proof.
  intros Hc Hedge Hlow.
  apply (set_longitude_range_no_rotation _ _ _ _ Hc). intros rb.
  apply rotate_longitudes_none; right; apply searchsorted_all_lt.
  - exact Hlow.
  - revert Hlow. apply Forall_impl. intros p Hp. lra.
Qed.

(** So are points that all lie at or above its upper end. *)
Lemma above_window_no_change (range_start : Q) (self : GriddedData)
      (lon_coord : DimCoord) (others : list coord_ref) :
  coords self "longitude" = DimRef lon_coord :: others ->
  range_start <= float_add range_start 360 ->
  Forall (fun p => float_add range_start 360 <= p) (points lon_coord) ->
  set_longitude_range range_start self = Ok self.
Proof.
  intros Hc Hedge Hhigh.
  apply (set_longitude_range_no_rotation _ _ _ _ Hc). intros rb.
  apply rotate_longitudes_none; left; apply searchsorted_all_ge.
  - revert Hhigh. apply Forall_impl. intros p Hp. lra.
  - exact Hhigh.
Qed.

(** C1, at the input where the code departs from it.  The example cube has
    the increasing longitudes [-170, -10, 10, 170]; with [range_start = 180]
    the call returns the cube as it was, and none of its longitudes lies in
    [180 <= p < 540]: all four are below 180. *)
Theorem window_above_all_points_not_enforced :
  set_longitude_range 180 example_cube = Ok example_cube
  /\ points example_lon = [-170; -10; 10; 170]
  /\ Forall (fun p => ~ (180 <= p /\ p < 180 + 360)) (points example_lon).
Proof.
  split; [reflexivity|]. split; [reflexivity|].
  cbn [points example_lon].
  repeat (apply Forall_cons; [intros [H _]; now apply H|]).
  apply Forall_nil.
Qed.

(** The example on the cube whose dimension coordinates describe the data
    dimensions of their positions: the call ends as the check of the new
    points ends, and then returns the points [10, 170, 190, 350] with data and
    auxiliary coordinate rolled by -2 along the longitude dimension. *)
Lemma example_cube_rotation :
  set_longitude_range 0 example_cube
  = (_ <- check_points example_lon [10; 170; 190; 350] ;;
     Ok (mkGriddedData
           (Array [Array [Scalar 3; Scalar 4; Scalar 1; Scalar 2];
                   Array [Scalar 7; Scalar 8; Scalar 5; Scalar 6]])
           [(example_lat, 0%nat);
            (mkDimCoord (Some "longitude"%string) [10; 170; 190; 350] None
                        float64 float64, 1%nat)]
           [(mkAuxCoord (Some "grid_longitude"%string)
                        (Array [Scalar 2; Scalar 3; Scalar 0; Scalar 1]), [1%nat])])).
Proof. reflexivity. Qed.

(** C2, at the inputs where the code departs from it.

    On the cube whose data have an anonymous dimension before the latitude
    and the longitude, the longitude is the second dimension coordinate and
    describes data dimension 2.  [set_longitude_range(0)] turns its points
    [-170, -10, 10, 170] into [10, 170, 190, 350], but rolls the data along
    axis 1, the position of the coordinate, which is the latitude: the data
    come back as they were, and are not the data rolled by -2 along the
    longitude dimension, so the values no longer stand at their longitudes.

    On the cube whose longitudes are integers the call raises [TypeError]
    at the addition of 360.0, and nothing is rotated. *)
Theorem longitude_example_rolls_position_axis :
  set_longitude_range 0 example_cube_anonymous
  = (_ <- check_points example_lon [10; 170; 190; 350] ;;
     Ok (mkGriddedData
           (data example_cube_anonymous)
           [(example_lat, 1%nat);
            (mkDimCoord (Some "longitude"%string) [10; 170; 190; 350] None
                        float64 float64, 2%nat)]
           []))
  /\ dim_coords_and_dims example_cube_anonymous
     = [(example_lat, 1%nat); (example_lon, 2%nat)]
  /\ np_roll (data example_cube_anonymous) (-2) 2
     = Array [Array [Array [Scalar 3; Scalar 4; Scalar 1; Scalar 2];
                     Array [Scalar 7; Scalar 8; Scalar 5; Scalar 6]]]
  /\ data example_cube_anonymous <> np_roll (data example_cube_anonymous) (-2) 2
  /\ set_longitude_range 0 example_cube_int = Raise TypeError.
Proof.
  split; [reflexivity|]. split; [reflexivity|]. split; [reflexivity|].
  split; [discriminate | reflexivity].
Qed.

(** ** The rotation in general *)


(** ** When the rotation does reach the window *)












(** ** The auxiliary coordinates *)

Lemma comprehension_inv {A B : Type} (f : A -> result B) (xs : list A) :
  forall ys, comprehension f xs = Ok ys -> Forall2 (fun y x => f x = Ok y) ys xs.
Proof.
  induction xs as [|x xs IH]; cbn [comprehension]; intros ys H.
  - injection H as <-. constructor.
  - destruct (f x) as [y|] eqn:E; [|discriminate]. cbn [bind] in H.
    destruct (comprehension f xs) as [ys'|]; [|discriminate].
    cbn [bind] in H. injection H as <-. constructor; [exact E | now apply IH].
Qed.

Lemma existsb_eqb_In (x : nat) (l : list nat) :
  existsb (Nat.eqb x) l = true <-> In x l.
Proof.
  rewrite existsb_exists. split.
  - intros [y [Hy E]]. apply Nat.eqb_eq in E. now subst.
  - intros H. exists x. split; [exact H | apply Nat.eqb_refl].
Qed.

Lemma index_from_In (x : nat) (l : list nat) (i k : nat) :
  index_from Nat.eqb x l i = Ok k -> In x l.
Proof.
  revert i. induction l as [|y l IH]; intros i; cbn; [discriminate|].
  destruct (Nat.eqb_spec y x) as [->|_]; [now left|].
  intros H. right. now apply (IH (S i)).
Qed.

(** X18.  Whenever [set_longitude_range] returns on a cube whose longitude is
    a dimension coordinate and whose dimension coordinates describe the data
    dimensions of their positions (no anonymous dimension), every auxiliary
    coordinate keeps its name and the dimensions it spans; one that does not
    span the data dimension of the longitude is left as it was, and one that
    does has its points rolled by the shift of the data, along its own axis
    for that dimension. *)
Theorem aux_coords_follow_data (range_start : Q) (self after : GriddedData)
        (lon_coord : DimCoord) (others : list coord_ref) :
  coords self "longitude" = DimRef lon_coord :: others ->
  dimensions_in_order self ->
  set_longitude_range range_start self = Ok after ->
  exists pre post lon_dim sh,
    dim_coords_and_dims self = pre ++ (lon_coord, lon_dim) :: post
    /\ data after = np_roll (data self) sh lon_dim
    /\ Forall2
         (fun ad' ad : AuxCoord * list nat =>
            snd ad' = snd ad
            /\ aux_standard_name (fst ad') = aux_standard_name (fst ad)
            /\ (~ In lon_dim (snd ad) -> ad' = ad)
            /\ (forall axis,
                   index Nat.eqb (snd ad) lon_dim = Ok axis ->
                   aux_points (fst ad') = np_roll (aux_points (fst ad)) sh axis))
         (aux_coords_and_dims after) (aux_coords_and_dims self).
Proof.
  intros Hc Hord H.
  destruct (set_longitude_range_returns _ _ _ _ _ Hc H)
    as [pre [dim [post [r [Hd [_ [_ [_ Hafter]]]]]]]].
  pose proof (dimensions_in_order_middle _ _ _ _ _ Hord Hd) as Hdim. subst dim.
  exists pre, post, (length pre), (shift r). split; [exact Hd|].
  destruct Hafter as [[E ->] | [_ [aux [Ea ->]]]].
  - rewrite E, np_roll_zero. split; [reflexivity|].
    induction (aux_coords_and_dims self) as [|ad l IH]; constructor; [|exact IH].
    repeat split; auto. intros axis _. now rewrite np_roll_zero.
  - cbn [data aux_coords_and_dims]. split; [reflexivity|]. clear H.
    apply comprehension_inv in Ea.
    induction Ea as [|[a' dims'] [a dims] aux' l Hf _ IH]; constructor; [|exact IH].
    cbn [fst snd]. destruct (existsb (Nat.eqb (length pre)) dims) eqn:Eb.
    + destruct (index Nat.eqb dims (length pre)) as [k|] eqn:Ek; [|discriminate].
      cbn [bind] in Hf. injection Hf as <- <-. cbn [aux_standard_name aux_points].
      repeat split.
      * intros Hn. elim Hn. now apply existsb_eqb_In.
      * intros axis [= <-]. reflexivity.
    + injection Hf as <- <-. repeat split.
      intros axis Hax. apply index_from_In in Hax.
      apply existsb_eqb_In in Hax. congruence.
Qed.

End SetterFacts.

(** ** The example cube *)

Lemma no_longitude_no_change_witness :
  gridded_data.set_longitude_range accept_points accept_bounds 0 example_cube_no_lon
  = Ok example_cube_no_lon.
Proof.
  apply (no_longitude_no_change accept_points accept_bounds 0 example_cube_no_lon).
  - repeat constructor. cbn. discriminate.
  - constructor.
Defined.

Lemma in_range_no_change_witness :
  Forall (in_window (-180)) (points example_lon)
  /\ gridded_data.set_longitude_range accept_points accept_bounds (-180) example_cube
     = Ok example_cube.
Proof.
  assert (H : Forall (in_window (-180)) (points example_lon)).
  { cbn [points example_lon].
    repeat (apply Forall_cons; [split; [discriminate | reflexivity]|]).
    apply Forall_nil. }
  split; [exact H|].
  exact (proj2 (in_range_no_change accept_points accept_bounds (-180) example_cube
                  example_lon [] eq_refl H)).
Defined.






Lemma example_cube_in_order : dimensions_in_order example_cube.
Proof. reflexivity. Qed.

Lemma example_cube_returns :
  exists after,
    gridded_data.set_longitude_range accept_points accept_bounds 0 example_cube = Ok after.
Proof. rewrite example_cube_rotation. cbn. eauto. Qed.




Lemma aux_coords_follow_data_witness :
  exists after pre post lon_dim sh,
    gridded_data.set_longitude_range accept_points accept_bounds 0 example_cube = Ok after
    /\ dim_coords_and_dims example_cube = pre ++ (example_lon, lon_dim) :: post
    /\ data after = np_roll (data example_cube) sh lon_dim
    /\ Forall2
         (fun ad' ad : AuxCoord * list nat =>
            snd ad' = snd ad
            /\ aux_standard_name (fst ad') = aux_standard_name (fst ad)
            /\ (~ In lon_dim (snd ad) -> ad' = ad)
            /\ (forall axis,
                   index Nat.eqb (snd ad) lon_dim = Ok axis ->
                   aux_points (fst ad') = np_roll (aux_points (fst ad)) sh axis))
         (aux_coords_and_dims after) (aux_coords_and_dims example_cube).
Proof.
  destruct example_cube_returns as [after E].
  destruct (aux_coords_follow_data accept_points accept_bounds 0 example_cube after
              example_lon [] eq_refl example_cube_in_order E)
    as [pre [post [dim [sh H]]]].
  now exists after, pre, post, dim, sh.
Defined.

(** ** [find_standard_coords] *)

Lemma first_named_spec (name : string) (l : list DimCoord) :
  forall i,
    match first_named name l i with
    | Some (coord, idx) =>
        exists pre post,
          l = pre ++ coord :: post
          /\ idx = (i + length pre)%nat
          /\ standard_name coord = Some name
          /\ Forall (fun c => standard_name c <> Some name) pre
    | None => Forall (fun c => standard_name c <> Some name) l
    end.
Proof.
  induction l as [|c l IH]; intros i; cbn [first_named]; [constructor|].
  destruct (name_eqb (standard_name c) (Some name)) eqn:E.
  - exists [], l. cbn [app length].
    split; [reflexivity|]. split; [lia|]. split; [now apply name_eqb_eq | constructor].
  - assert (Hc : standard_name c <> Some name).
    { intros Hn. apply name_eqb_eq in Hn. congruence. }
    specialize (IH (S i)).
    destruct (first_named name l (S i)) as [[coord idx]|].
    + destruct IH as [pre [post [-> [-> [Hn Hpre]]]]].
      exists (c :: pre), post. cbn [app length].
      split; [reflexivity|]. split; [lia|]. split; [exact Hn | now constructor].
    + now constructor.
Qed.

(** X19.  [find_standard_coords] returns one entry for each standard name, in
    the order of the names.  The entry of a name is [None] exactly when no
    dimension coordinate has that standard name; otherwise it is the first
    dimension coordinate with that name, paired with its position among the
    dimension coordinates. *)
Theorem find_standard_coords_entries (standard_names : list string) (self : GriddedData) :
  Forall2
    (fun name entry =>
       match entry with
       | Some (coord, idx) =>
           exists pre post,
             dim_coords self = pre ++ coord :: post
             /\ idx = length pre
             /\ standard_name coord = Some name
             /\ Forall (fun c => standard_name c <> Some name) pre
       | None =>
           Forall (fun c => standard_name c <> Some name) (dim_coords self)
       end)
    standard_names (find_standard_coords standard_names self).
Proof.
  unfold find_standard_coords.
  induction standard_names as [|name names IH]; cbn [map]; constructor; [|exact IH].
  exact (first_named_spec name (dim_coords self) 0).
Qed.

(** X20.  The dimension along which [set_longitude_range] rolls the data is
    the one [find_standard_coords] reports for the longitude: when the
    longitude is a dimension coordinate, the position that
    [self.dim_coords.index] finds for it is the position paired with it in
    the entry of every name ['longitude'] of the list. *)
Theorem longitude_dimension_agrees (standard_names : list string) (self : GriddedData)
        (lon_coord : DimCoord) (others : list coord_ref) :
  coords self "longitude" = DimRef lon_coord :: others ->
  exists lon_idx,
    index coord_eqb (dim_coords self) lon_coord = Ok lon_idx
    /\ Forall2
         (fun name entry =>
            name = "longitude"%string -> entry = Some (lon_coord, lon_idx))
         standard_names (find_standard_coords standard_names self).
Proof.
  intros Hc.
  destruct (position_of_first_named _ _ _ _ Hc)
    as [pre0 [dim [post0 [Hd0 [Hi [Hn Hpre0]]]]]].
  pose proof (dim_coords_middle _ _ _ _ _ Hd0) as Hd.
  assert (Hpre1 : forallb (fun c => negb (name_eqb (standard_name c)
                                                   (Some "longitude"%string)))
                          (map fst pre0) = true)
    by (now rewrite forallb_map_fst).
  clear Hpre0. rename Hpre1 into Hpre0.
  rewrite <- (length_map fst pre0) in Hi.
  revert Hd Hi Hpre0. generalize (map fst pre0) as pre. generalize (map fst post0) as post.
  intros post pre Hd Hi Hpre.
  exists (length pre). split; [exact Hi|].
  assert (Hf : first_named "longitude" (dim_coords self) 0 = Some (lon_coord, length pre)).
  { rewrite Hd. clear -Hn Hpre.
    change (length pre) with (0 + length pre)%nat. generalize 0%nat as i.
    induction pre as [|y pre IH]; intros i; cbn [app first_named length].
    - rewrite Hn. rewrite (proj2 (name_eqb_eq _ _) eq_refl). f_equal. f_equal. lia.
    - cbn in Hpre. apply andb_true_iff in Hpre as [Hy Hpre].
      apply negb_true_iff in Hy. rewrite Hy, (IH Hpre (S i)). f_equal. f_equal. lia. }
  unfold find_standard_coords.
  induction standard_names as [|name names IH]; cbn [map]; constructor; [|exact IH].
  now intros ->.
Qed.

Lemma longitude_dimension_agrees_witness :
  index coord_eqb (dim_coords example_cube) example_lon = Ok 1%nat
  /\ find_standard_coords ["latitude"; "longitude"; "time"]%string example_cube
     = [Some (example_lat, 0%nat); Some (example_lon, 1%nat); None].
Proof.
  destruct (longitude_dimension_agrees ["latitude"; "longitude"; "time"]%string
              example_cube example_lon [] eq_refl) as [lon_idx [Hi _]].
  split; [|reflexivity]. rewrite Hi. f_equal.
  assert (E : index coord_eqb (dim_coords example_cube) example_lon = Ok 1%nat)
    by reflexivity.
  rewrite E in Hi. now injection Hi.
Defined.

(** ** [history] and [add_history] *)

Lemma getitem_setitem (d : attributes_dict) (key : string) (value : str) :
  getitem (setitem d key value) key = Ok value.
Proof.
  induction d as [|[k v] d IH]; cbn [setitem getitem].
  - now rewrite String.eqb_refl.
  - destruct (String.eqb k key) eqn:E; cbn [getitem]; now rewrite E.
Qed.

Lemma getitem_setitem_other (d : attributes_dict) (key key' : string) (value : str) :
  key' <> key -> getitem (setitem d key value) key' = getitem d key'.
Proof.
  intros Hk. induction d as [|[k v] d IH]; cbn [setitem getitem].
  - destruct (String.eqb_spec key key'); [congruence | reflexivity].
  - destruct (String.eqb_spec k key) as [->|Hne]; cbn [getitem].
    + destruct (String.eqb_spec key key'); [congruence | reflexivity].
    + now rewrite IH.
Qed.

Lemma contains_getitem (d : attributes_dict) (key : string) :
  if contains d key then exists v, getitem d key = Ok v
  else getitem d key = Raise (OtherError "KeyError").
Proof.
  induction d as [|[k v] d IH]; cbn [contains getitem]; [reflexivity|].
  destruct (String.eqb k key); cbn [orb]; [eauto | exact IH].
Qed.

Lemma contains_setitem (d : attributes_dict) (key : string) (value : str) :
  contains (setitem d key value) key = true.
Proof.
  pose proof (contains_getitem (setitem d key value) key) as H.
  destruct (contains (setitem d key value) key); [reflexivity|].
  rewrite getitem_setitem in H. discriminate.
Qed.

Lemma join_lines_merge (a b : str) (rest : list str) :
  join_lines ((a ++ newline :: b) :: rest) = join_lines (a :: b :: rest).
Proof.
  destruct rest as [|c r]; cbn [join_lines]; [reflexivity|].
  now rewrite <- app_assoc.
Qed.

Lemma split_join_lines (lines : list str) :
  lines <> [] ->
  Forall (fun l => forallb (fun c => negb (Ascii.eqb c newline)) l = true) lines ->
  split newline (join_lines lines) = lines.
Proof.
  intros Hne H. induction H as [|l rest Hl Hrest IH]; [now elim Hne|].
  destruct rest as [|l' rest].
  - cbn [join_lines]. now apply PyFacts.split_no_sep.
  - change (join_lines (l :: l' :: rest)) with (l ++ newline :: join_lines (l' :: rest)).
    rewrite PyFacts.split_app by assumption. f_equal. apply IH. discriminate.
Qed.

(** Further entries on a cube that has a history. *)
Lemma add_histories_append (entries : list (str * str)) :
  forall (attributes : attributes_dict) (old : str),
    history attributes = Ok old ->
    exists attributes',
      add_histories entries attributes = Ok attributes'
      /\ history attributes'
         = Ok (join_lines (old :: map (fun e => fst e ++ snd e) entries))
      /\ (forall key, key <> "history"%string ->
                      getitem attributes' key = getitem attributes key).
Proof.
  induction entries as [|[timestamp text] entries IH]; intros d old Hold.
  - exists d. cbn. auto.
  - cbn [add_histories]. unfold add_history.
    pose proof (contains_getitem d "history") as Hc.
    unfold history in Hold.
    destruct (contains d "history"); [|congruence].
    cbn [negb]. rewrite Hold. cbn [bind].
    destruct (IH (setitem d "history" (old ++ newline :: timestamp ++ text))
                 (old ++ newline :: timestamp ++ text))
      as [d' [Hd' [Hh Ho]]].
    { apply getitem_setitem. }
    exists d'. split; [exact Hd'|]. split.
    + rewrite Hh. cbn [map fst snd]. now rewrite join_lines_merge.
    + intros key Hk. rewrite (Ho key Hk). now apply getitem_setitem_other.
Qed.

(** X21.  A cube without a history has none to read ([KeyError]).  After a
    sequence of [add_history] calls on it, the history is the entries in the
    order of the calls, each prefixed with its time stamp and one per line:
    when no entry holds a line feed, splitting the history at line feeds gives
    back the entries.  No other attribute is touched.  An entry that is
    [None] is a [TypeError]. *)
Theorem history_is_the_entries_in_order (entries : list (str * str))
        (attributes : attributes_dict) :
  contains attributes "history" = false ->
  entries <> [] ->
  Forall (fun e => forallb (fun c => negb (Ascii.eqb c newline)) (fst e ++ snd e) = true)
         entries ->
  history attributes = Raise (OtherError "KeyError")
  /\ (forall timestamp, add_history timestamp None attributes = Raise TypeError)
  /\ exists attributes',
       add_histories entries attributes = Ok attributes'
       /\ history attributes'
          = Ok (join_lines (map (fun e => fst e ++ snd e) entries))
       /\ (h <- history attributes' ;; Ok (split newline h))
          = Ok (map (fun e => fst e ++ snd e) entries)
       /\ (forall key, key <> "history"%string ->
                       getitem attributes' key = getitem attributes key).
Proof.
  intros Hc Hne Hl.
  pose proof (contains_getitem attributes "history") as Hg. rewrite Hc in Hg.
  split; [exact Hg|]. split.
  { intros timestamp. unfold add_history. now rewrite Hc. }
  destruct entries as [|[timestamp text] entries]; [now elim Hne|].
  cbn [add_histories]. unfold add_history at 1. rewrite Hc. cbn [negb bind].
  destruct (add_histories_append entries
              (setitem attributes "history" (timestamp ++ text)) (timestamp ++ text))
    as [d' [Hd' [Hh Ho]]].
  { apply getitem_setitem. }
  exists d'. split; [exact Hd'|]. split; [exact Hh|]. split.
  - rewrite Hh. cbn [bind]. f_equal.
    apply (split_join_lines (map (fun e => fst e ++ snd e) ((timestamp, text) :: entries))).
    + discriminate.
    + now apply Forall_map.
  - intros key Hk. rewrite (Ho key Hk). now apply getitem_setitem_other.
Qed.

Lemma history_is_the_entries_in_order_witness :
  exists attributes',
    add_histories [("2016-01-01T00:00:00Z " : str, "read" : str);
                   ("2016-01-02T00:00:00Z " : str, "subset" : str)]
                  [("source"%string, "model" : str)]
    = Ok attributes'
    /\ history attributes'
       = Ok ("2016-01-01T00:00:00Z read" ++ newline :: "2016-01-02T00:00:00Z subset")
    /\ getitem attributes' "source" = Ok ("model" : str).
Proof.
  destruct (history_is_the_entries_in_order
              [("2016-01-01T00:00:00Z " : str, "read" : str);
               ("2016-01-02T00:00:00Z " : str, "subset" : str)]
              [("source"%string, "model" : str)])
    as [_ [_ [d' [Hd [Hh [_ Ho]]]]]].
  - reflexivity.
  - discriminate.
  - repeat constructor.
  - exists d'. split; [exact Hd|]. split; [exact Hh|].
    rewrite Ho; [reflexivity | discriminate].
Defined.


(** ** [add_attributes] and [remove_attribute] *)

Lemma contains_pop (d : attributes_dict) (key : string) :
  contains (pop d key) key = false.
Proof.
  unfold pop. induction d as [|[k v] d IH]; cbn [filter contains fst]; [reflexivity|].
  destruct (String.eqb k key) eqn:E; cbn [negb]; [exact IH|].
  cbn [contains]. now rewrite E.
Qed.

Lemma getitem_pop_other (d : attributes_dict) (key key' : string) :
  key' <> key -> getitem (pop d key) key' = getitem d key'.
Proof.
  intros Hk. unfold pop.
  induction d as [|[k v] d IH]; cbn [filter getitem fst]; [reflexivity|].
  destruct (String.eqb_spec k key) as [->|Hne]; cbn [negb].
  - destruct (String.eqb_spec key key'); [congruence | exact IH].
  - cbn [getitem]. now rewrite IH.
Qed.

Lemma pop_fresh (d : attributes_dict) (key : string) :
  contains d key = false -> pop d key = d.
Proof.
  unfold pop. induction d as [|[k v] d IH]; cbn [filter contains fst]; [reflexivity|].
  intros H. apply orb_false_iff in H as [Hk Hd]. rewrite Hk. cbn [negb].
  now rewrite IH.
Qed.

Lemma pop_setitem_fresh (d : attributes_dict) (key : string) (value : str) :
  contains d key = false -> pop (setitem d key value) key = d.
Proof.
  unfold pop. induction d as [|[k v] d IH]; cbn [setitem contains].
  - intros _. cbn [filter fst]. now rewrite String.eqb_refl.
  - intros H. apply orb_false_iff in H as [Hk Hd]. rewrite Hk.
    cbn [filter fst]. rewrite Hk. cbn [negb]. now rewrite IH.
Qed.

Lemma list_remove_fresh (l : list string) (key : string) :
  ~ In key l -> list_remove (l ++ [key]) key = Ok l.
Proof.
  induction l as [|k l IH]; cbn [app list_remove]; intros H.
  - now rewrite String.eqb_refl.
  - destruct (String.eqb_spec k key) as [->|_]; [elim H; now left|].
    rewrite IH; [reflexivity|]. intros Hin. apply H. now right.
Qed.

Lemma list_remove_count (l : list string) (key : string) :
  match list_remove l key with
  | Ok l' =>
      In key l
      /\ count_occ string_dec l' key = pred (count_occ string_dec l key)
      /\ forall k, k <> key -> count_occ string_dec l' k = count_occ string_dec l k
  | Raise e => e = ValueError /\ ~ In key l
  end.
Proof.
  induction l as [|k l IH]; cbn [list_remove]; [now split|].
  destruct (String.eqb_spec k key) as [->|Hne].
  - split; [now left|]. split.
    + cbn [count_occ]. destruct (string_dec key key); [reflexivity | congruence].
    + intros k Hk. cbn [count_occ]. destruct (string_dec key k); [congruence | reflexivity].
  - destruct (list_remove l key) as [l'|e]; cbn [bind].
    + destruct IH as [Hin [Hc Ho]]. split; [now right|]. split.
      * cbn [count_occ]. destruct (string_dec k key); [congruence | exact Hc].
      * intros k' Hk'. cbn [count_occ]. destruct (string_dec k k'); now rewrite Ho.
    + destruct IH as [-> Hn]. split; [reflexivity|]. intros [E | Hin]; auto.
Qed.

Section AttributeFacts.

Variable members : Type.
Variable setattr : string -> str -> members -> result members.
Variable forbidden : string -> bool.

Local Abbreviation cube := (cube_attributes members).

Lemma set_attributes_spec (items : list (string * str)) :
  forall self self' : cube,
    set_attributes members setattr forbidden items self = Ok self' ->
    _local_attributes members self' = _local_attributes members self
    /\ (forall key, forbidden key = true ->
                    getitem (attributes members self') key
                    = getitem (attributes members self) key)
    /\ (forall key, ~ In key (map fst items) ->
                    getitem (attributes members self') key
                    = getitem (attributes members self) key)
    /\ (forall key value,
           NoDup (map fst items) -> In (key, value) items -> forbidden key = false ->
           getitem (attributes members self') key = Ok value).
Proof.
  induction items as [|[k v] items IH]; intros self self' H; cbn [set_attributes] in H.
  - injection H as <-. repeat split; auto. intros key value _ [].
  - assert (Step : forall mid : cube,
               set_attributes members setattr forbidden items mid = Ok self' ->
               _local_attributes members mid = _local_attributes members self ->
               (forall key, (forbidden key = true \/ key <> k) ->
                            getitem (attributes members mid) key
                            = getitem (attributes members self) key) ->
               (forbidden k = false -> getitem (attributes members mid) k = Ok v) ->
               _local_attributes members self' = _local_attributes members self
               /\ (forall key, forbidden key = true ->
                               getitem (attributes members self') key
                               = getitem (attributes members self) key)
               /\ (forall key, ~ In key (map fst ((k, v) :: items)) ->
                               getitem (attributes members self') key
                               = getitem (attributes members self) key)
               /\ (forall key value,
                      NoDup (map fst ((k, v) :: items)) ->
                      In (key, value) ((k, v) :: items) -> forbidden key = false ->
                      getitem (attributes members self') key = Ok value)).
    { intros mid Hmid Hl Hg Hv.
      destruct (IH mid self' Hmid) as [L [F [O V]]].
      split; [congruence|]. split; [|split].
      - intros key Hf. rewrite (F key Hf). apply Hg. now left.
      - intros key Hn. cbn [map fst] in Hn.
        rewrite (O key); [|intros Hin; apply Hn; now right].
        apply Hg. right. intros ->. apply Hn. now left.
      - intros key value Hnd Hin Hf. cbn [map fst] in Hnd.
        apply NoDup_cons_iff in Hnd as [Hk Hnd].
        destruct Hin as [[= <- <-] | Hin].
        + rewrite (O k Hk). now apply Hv.
        + now apply (V key value). }
    destruct (forbidden k) eqn:Fk.
    + destruct (setattr k v (cube_members members self)) as [m|e] eqn:Es.
      * apply (Step _ H); cbn; auto. discriminate.
      * destruct e; try discriminate. apply (Step _ H); auto. discriminate.
    + apply (Step _ H); cbn [_local_attributes attributes]; auto.
      * intros key [Hf | Hne]; [|now apply getitem_setitem_other].
        apply getitem_setitem_other. intros ->. congruence.
      * intros _. apply getitem_setitem.
Qed.

(** X22.  When [add_attributes] returns, every key it was given is recorded
    as a local attribute, in the order given and after the earlier records,
    also a key that could not be set.  A key that the attribute dictionary
    refuses never enters the attributes; an attribute whose key was not given
    is as it was; and, the keys being those of a dictionary (no key twice),
    each key that is not refused holds the value given for it. *)
Theorem add_attributes_records_every_key (items : list (string * str))
        (self self' : cube) :
  add_attributes members setattr forbidden items self = Ok self' ->
  _local_attributes members self' = _local_attributes members self ++ map fst items
  /\ (forall key, forbidden key = true ->
                  getitem (attributes members self') key
                  = getitem (attributes members self) key)
  /\ (forall key, ~ In key (map fst items) ->
                  getitem (attributes members self') key
                  = getitem (attributes members self) key)
  /\ (forall key value,
         NoDup (map fst items) -> In (key, value) items -> forbidden key = false ->
         getitem (attributes members self') key = Ok value).
Proof.
  unfold add_attributes. intros H.
  destruct (set_attributes members setattr forbidden items self) as [mid|] eqn:E;
    [|discriminate].
  cbn [bind] in H. injection H as <-. cbn [_local_attributes attributes].
  destruct (set_attributes_spec items self mid E) as [L [F [O V]]].
  rewrite L. repeat split; assumption.
Qed.

(** X23.  [remove_attribute] never raises.  Afterwards the attribute of that
    key is gone and every other attribute is as it was; of the records of the
    key among the local attributes exactly one is removed, so a key that was
    added twice is still recorded as local; the records of other keys are
    kept. *)
Theorem remove_attribute_removes_one_record (key : string) (self : cube) :
  exists self',
    remove_attribute members key self = Ok self'
    /\ contains (attributes members self') key = false
    /\ (forall k, k <> key ->
                  getitem (attributes members self') k
                  = getitem (attributes members self) k)
    /\ count_occ string_dec (_local_attributes members self') key
       = pred (count_occ string_dec (_local_attributes members self) key)
    /\ (forall k, k <> key ->
                  count_occ string_dec (_local_attributes members self') k
                  = count_occ string_dec (_local_attributes members self) k)
    /\ cube_members members self' = cube_members members self.
Proof.
  unfold remove_attribute.
  pose proof (list_remove_count (_local_attributes members self) key) as Hr.
  destruct (list_remove (_local_attributes members self) key) as [l|e].
  - destruct Hr as [_ [Hc Ho]]. eexists. split; [reflexivity|].
    cbn [attributes _local_attributes cube_members].
    repeat split; auto using contains_pop, getitem_pop_other.
  - destruct Hr as [-> Hn]. eexists. split; [reflexivity|].
    cbn [attributes _local_attributes cube_members].
    repeat split; auto using contains_pop, getitem_pop_other.
    now rewrite (proj1 (count_occ_not_In string_dec _ _) Hn).
Qed.

(** X24.  Adding one attribute under a key that is new to the cube (not an
    attribute, not recorded as local, and not refused by the attribute
    dictionary) and removing it again gives back the cube as it was. *)
Theorem add_then_remove_attribute (key : string) (value : str) (self : cube) :
  forbidden key = false ->
  contains (attributes members self) key = false ->
  ~ In key (_local_attributes members self) ->
  (self' <- add_attributes members setattr forbidden [(key, value)] self ;;
   remove_attribute members key self')
  = Ok self.
Proof.
  intros Hf Hc Hl. unfold add_attributes. cbn [set_attributes]. rewrite Hf.
  cbn [bind attributes _local_attributes cube_members map fst].
  unfold remove_attribute. cbn [attributes _local_attributes cube_members].
  rewrite (list_remove_fresh _ _ Hl), (pop_setitem_fresh _ _ _ Hc).
  now destruct self.
Qed.

End AttributeFacts.

Lemma add_attributes_records_every_key_witness :
  exists self',
    add_attributes unit (fun _ _ _ => Raise ValueError) (String.eqb "units")
      [("units"%string, "furlong" : str); ("source"%string, "model" : str)]
      (mk_cube_attributes unit [] [] tt)
    = Ok self'
    /\ _local_attributes unit self' = ["units"; "source"]%string
    /\ getitem (attributes unit self') "units" = Raise (OtherError "KeyError")
    /\ getitem (attributes unit self') "source" = Ok ("model" : str).
Proof.
  destruct (add_attributes unit (fun _ _ _ => Raise ValueError) (String.eqb "units")
              [("units"%string, "furlong" : str); ("source"%string, "model" : str)]
              (mk_cube_attributes unit [] [] tt)) as [self'|] eqn:E; [|discriminate].
  destruct (add_attributes_records_every_key unit (fun _ _ _ => Raise ValueError)
              (String.eqb "units") _ _ _ E) as [L [F [_ V]]].
  exists self'. split; [reflexivity|]. split; [exact L|]. split.
  - now rewrite (F "units"%string eq_refl).
  - apply V; [|cbn; auto | reflexivity].
    repeat constructor; cbn; intuition discriminate.
Defined.

Lemma add_then_remove_attribute_witness :
  (self' <- add_attributes unit (fun _ _ m => Ok m) (fun _ => false)
              [("source"%string, "model" : str)]
              (mk_cube_attributes unit [("history"%string, "read" : str)] ["title"%string] tt) ;;
   remove_attribute unit "source" self')
  = Ok (mk_cube_attributes unit [("history"%string, "read" : str)] ["title"%string] tt).
Proof.
  apply (add_then_remove_attribute unit (fun _ _ m => Ok m) (fun _ => false)).
  - reflexivity.
  - reflexivity.
  - cbn. intuition discriminate.
Defined.


End gridded_data_facts.
